(** * Article lifecycle and visibility rules of the article publishing API

    A shallow embedding of [articles/models.py], [articles/permissions.py],
    [articles/filters.py], [articles/serializers.py] and [articles/views.py],
    followed by the properties of the article lifecycle that hold of it.

    Conventions of the embedding.
    - Text is a [string] read as ASCII text; characters above 127 are kept
      as opaque, uncased, non-blank characters.
    - A table is the list of its rows; a row that was never saved has no
      primary key.
    - Timestamps are readings of a clock that never goes back.
    - A request handler is a function from the world before the request to
      the world after it and either a response or an error. *)

From Stdlib Require Import String Ascii List Bool Arith PeanoNat Lia.
From Stdlib Require Import Decimal DecimalNat DecimalString.
Import ListNotations.
Open Scope string_scope.
Open Scope list_scope.
Open Scope nat_scope.

(** ** Python text primitives *)

Module Text.

(** [str.isspace] on the ASCII range: tab, line feed, vertical tab, form
    feed, carriage return, the four separators 28-31 and the space. *)
Definition is_space (c : ascii) : bool :=
  let n := nat_of_ascii c in
  ((9 <=? n) && (n <=? 13)) || ((28 <=? n) && (n <=? 32)).

Definition is_upper (c : ascii) : bool :=
  let n := nat_of_ascii c in (65 <=? n) && (n <=? 90).

Definition is_lower (c : ascii) : bool :=
  let n := nat_of_ascii c in (97 <=? n) && (n <=? 122).

Definition is_digit (c : ascii) : bool :=
  let n := nat_of_ascii c in (48 <=? n) && (n <=? 57).

Definition lower_char (c : ascii) : ascii :=
  if is_upper c then ascii_of_nat (nat_of_ascii c + 32) else c.

(** [s.lower()] *)
Fixpoint lower (s : string) : string :=
  match s with
  | EmptyString => EmptyString
  | String c s' => String (lower_char c) (lower s')
  end.

(** [s.lstrip(chars)], [s.rstrip(chars)], [s.strip(chars)], the set of
    characters given as a predicate; [s.strip()] strips blanks. *)
Fixpoint lstrip_by (p : ascii -> bool) (s : string) : string :=
  match s with
  | EmptyString => EmptyString
  | String c s' => if p c then lstrip_by p s' else s
  end.

Fixpoint rstrip_by (p : ascii -> bool) (s : string) : string :=
  match s with
  | EmptyString => EmptyString
  | String c s' =>
      match rstrip_by p s' with
      | EmptyString => if p c then EmptyString else String c EmptyString
      | r => String c r
      end
  end.

Definition strip_by (p : ascii -> bool) (s : string) : string :=
  rstrip_by p (lstrip_by p s).

Definition strip (s : string) : string := strip_by is_space s.

Fixpoint keep (p : ascii -> bool) (s : string) : string :=
  match s with
  | EmptyString => EmptyString
  | String c s' => if p c then String c (keep p s') else keep p s'
  end.

(** [s.replace(old, new)] for one-character [old] and [new]. *)
Fixpoint replace_char (old new : ascii) (s : string) : string :=
  match s with
  | EmptyString => EmptyString
  | String c s' => String (if Ascii.eqb c old then new else c) (replace_char old new s')
  end.

(** The NUL character, and [chr(0) in s]. *)
Definition NUL : ascii := Ascii.zero.

Fixpoint has_nul (s : string) : bool :=
  match s with
  | EmptyString => false
  | String c s' => Ascii.eqb c NUL || has_nul s'
  end.

(** [s.split()]: the maximal runs of non-blank characters, in order. *)
Fixpoint split (s : string) : list string :=
  match s with
  | EmptyString => []
  | String c s' =>
      if is_space c then split s'
      else match s' with
           | EmptyString => [String c EmptyString]
           | String c' _ =>
               if is_space c' then String c EmptyString :: split s'
               else match split s' with
                    | w :: ws => String c w :: ws
                    | [] => [String c EmptyString]
                    end
           end
  end.

(** [s.split(sep)] for a one-character separator: never empty, keeps
    empty pieces. *)
Fixpoint split_on (sep : ascii) (s : string) : list string :=
  match s with
  | EmptyString => [EmptyString]
  | String c s' =>
      if Ascii.eqb c sep then EmptyString :: split_on sep s'
      else match split_on sep s' with
           | w :: ws => String c w :: ws
           | [] => [String c EmptyString]
           end
  end.

(** [sep.join(l)] *)
Definition join (sep : string) (l : list string) : string := String.concat sep l.

(** [s.startswith(prefix)] *)
Fixpoint starts_with (prefix s : string) : bool :=
  match prefix with
  | EmptyString => true
  | String a prefix' =>
      match s with
      | EmptyString => false
      | String b s' => Ascii.eqb a b && starts_with prefix' s'
      end
  end.

(** [needle in hay] *)
Fixpoint contains (needle hay : string) : bool :=
  starts_with needle hay ||
  match hay with
  | EmptyString => false
  | String _ hay' => contains needle hay'
  end.

(** The [icontains] and [iexact] lookups of the query interface. *)
Definition icontains (field term : string) : bool :=
  contains (lower term) (lower field).

Definition iexact (field term : string) : bool :=
  String.eqb (lower field) (lower term).

(** [str(n)] for a non-negative integer. *)
Definition str_of_nat (n : nat) : string :=
  NilEmpty.string_of_uint (Nat.to_uint n).

(** Python truthiness of a string. *)
Definition truthy (s : string) : bool :=
  match s with EmptyString => false | _ => true end.

(** A token: a non-empty text without blanks. *)
Fixpoint no_blank (s : string) : bool :=
  match s with
  | EmptyString => true
  | String c s' => negb (is_space c) && no_blank s'
  end.

Definition is_token (w : string) : bool := truthy w && no_blank w.

(** [round(n / d)] for non-negative integers [n] and positive [d]: the
    quotient is rounded to the nearest integer and a quotient exactly
    half-way between two integers goes to the even one.  (The true
    division yields a double; for the magnitudes of a word count the
    double lies on the same side of every half-integer as the exact
    quotient and equals it at a tie, so the exact quotient decides.) *)
Definition round_div (n d : nat) : nat :=
  let q := n / d in
  let r := n mod d in
  if 2 * r <? d then q
  else if d <? 2 * r then S q
  else if Nat.even q then q else S q.

(** Rounding to the nearest integer with ties to the even one, as a
    relation: [r] is within one half of [n / d], and is even when it is
    exactly one half away. *)
Definition rounds_half_even (n d r : nat) : Prop :=
  2 * (d * r) <= 2 * n + d /\
  2 * n <= 2 * (d * r) + d /\
  (2 * (d * r) = 2 * n + d \/ 2 * n = 2 * (d * r) + d -> Nat.even r = true).

End Text.

(** ** django.utils.text.slugify

    The library function, on ASCII text: characters outside ASCII are
    dropped, the text is lower-cased, every character that is not a word
    character, a blank or a hyphen is removed, each run of hyphens and
    blanks becomes one hyphen, and leading and trailing hyphens and
    underscores are stripped. *)

Module Slug.
Import Text.

Definition is_ascii (c : ascii) : bool := nat_of_ascii c <? 128.

Definition is_hyphen (c : ascii) : bool := Ascii.eqb c "-".

Definition is_underscore (c : ascii) : bool := Ascii.eqb c "_".

Definition is_word (c : ascii) : bool :=
  is_lower c || is_upper c || is_digit c || is_underscore c.

Definition is_slug_char (c : ascii) : bool :=
  is_word c || is_space c || is_hyphen c.

Definition is_sep (c : ascii) : bool := is_hyphen c || is_space c.

(** [re.sub(r'[-\s]+', '-', s)] *)
Fixpoint collapse (s : string) : string :=
  match s with
  | EmptyString => EmptyString
  | String c s' =>
      if is_sep c then
        match s' with
        | EmptyString => String "-" EmptyString
        | String c' _ => if is_sep c' then collapse s' else String "-" (collapse s')
        end
      else String c (collapse s')
  end.

Definition slugify (value : string) : string :=
  let value := keep is_ascii value in
  let value := keep is_slug_char (lower value) in
  strip_by (fun c => is_hyphen c || is_underscore c) (collapse value).

End Slug.

(** ** The state a request handler runs in *)

(** The errors a handler can end with.  The first five are the error kinds
    of the API (401, 403, 404, 400 with the names of the offending fields,
    400 for a missing query parameter); the others are failures of the
    storage layer and the [ValueError] of a [save] that cannot be done. *)
Inductive Error : Type :=
| NotAuthenticated
| PermissionDenied
| NotFound
| ValidationError (fields : list string)
| MissingParameter
| IntegrityError
| DatabaseError
| ValueError
| OutOfFuel.

Module Handler.

Section Monad.
Variable W : Type.

Definition M (A : Type) : Type := W -> W * (Error + A).

Definition ret {A} (a : A) : M A := fun w => (w, inr a).

Definition raise {A} (e : Error) : M A := fun w => (w, inl e).

Definition bind {A B} (m : M A) (k : A -> M B) : M B :=
  fun w =>
    match m w with
    | (w', inl e) => (w', inl e)
    | (w', inr a) => k a w'
    end.

Definition gets {A} (f : W -> A) : M A := fun w => (w, inr (f w)).

Definition modify (f : W -> W) : M unit := fun w => (f w, inr tt).
End Monad.

Arguments ret {W A} a.
Arguments raise {W A} e.
Arguments bind {W A B} m k.
Arguments gets {W A} f.
Arguments modify {W} f.

End Handler.

Declare Scope handler_scope.
Delimit Scope handler_scope with handler.
Notation "x <- m ;; k" := (Handler.bind m (fun x => k))
  (at level 61, m at next level, right associativity) : handler_scope.
Notation "m ;;; k" := (Handler.bind m (fun _ => k))
  (at level 61, right associativity) : handler_scope.

(** ** articles/models.py *)

Module Models.
Import Text Handler.
Local Open Scope handler_scope.

(** [Article.STATUS_CHOICES] *)
Inductive Status : Type := draft | published | archived.

Definition status_eqb (a b : Status) : bool :=
  match a, b with
  | draft, draft | published, published | archived, archived => true
  | _, _ => false
  end.

Definition Time : Type := nat.

(** [django.contrib.auth.models.User], the columns the articles use. *)
Record User : Type := mkUser {
  user_id : nat;
  username : string;
  first_name : string;
  last_name : string;
  is_staff : bool
}.

(** Model instances are equal when their primary keys are. *)
Definition user_eqb (a b : User) : bool := user_id a =? user_id b.

(** [request.user] *)
Inductive Identity : Type :=
| AnonymousUser
| Authenticated (u : User).

Definition is_authenticated (who : Identity) : bool :=
  match who with AnonymousUser => false | Authenticated _ => true end.

Record Article : Type := mkArticle {
  pk : option nat;
  title : string;
  slug : string;
  content : string;
  excerpt : string;
  author : User;
  status : Status;
  featured : bool;
  view_count : nat;
  tags : string;
  created_at : Time;
  updated_at : Time;
  published_at : option Time
}.

(** The columns of the table, as [update_fields] names them. *)
Inductive Field : Type :=
| f_title | f_slug | f_content | f_excerpt | f_author | f_status
| f_featured | f_view_count | f_tags | f_created_at | f_updated_at
| f_published_at.

Definition field_eqb (a b : Field) : bool :=
  match a, b with
  | f_title, f_title | f_slug, f_slug | f_content, f_content
  | f_excerpt, f_excerpt | f_author, f_author | f_status, f_status
  | f_featured, f_featured | f_view_count, f_view_count | f_tags, f_tags
  | f_created_at, f_created_at | f_updated_at, f_updated_at
  | f_published_at, f_published_at => true
  | _, _ => false
  end.

(** Attribute assignment. *)
Definition set_pk (a : Article) (v : option nat) : Article :=
  mkArticle v (title a) (slug a) (content a) (excerpt a) (author a) (status a)
    (featured a) (view_count a) (tags a) (created_at a) (updated_at a) (published_at a).
Definition set_title (a : Article) (v : string) : Article :=
  mkArticle (pk a) v (slug a) (content a) (excerpt a) (author a) (status a)
    (featured a) (view_count a) (tags a) (created_at a) (updated_at a) (published_at a).
Definition set_slug (a : Article) (v : string) : Article :=
  mkArticle (pk a) (title a) v (content a) (excerpt a) (author a) (status a)
    (featured a) (view_count a) (tags a) (created_at a) (updated_at a) (published_at a).
Definition set_content (a : Article) (v : string) : Article :=
  mkArticle (pk a) (title a) (slug a) v (excerpt a) (author a) (status a)
    (featured a) (view_count a) (tags a) (created_at a) (updated_at a) (published_at a).
Definition set_excerpt (a : Article) (v : string) : Article :=
  mkArticle (pk a) (title a) (slug a) (content a) v (author a) (status a)
    (featured a) (view_count a) (tags a) (created_at a) (updated_at a) (published_at a).
Definition set_author (a : Article) (v : User) : Article :=
  mkArticle (pk a) (title a) (slug a) (content a) (excerpt a) v (status a)
    (featured a) (view_count a) (tags a) (created_at a) (updated_at a) (published_at a).
Definition set_status (a : Article) (v : Status) : Article :=
  mkArticle (pk a) (title a) (slug a) (content a) (excerpt a) (author a) v
    (featured a) (view_count a) (tags a) (created_at a) (updated_at a) (published_at a).
Definition set_featured (a : Article) (v : bool) : Article :=
  mkArticle (pk a) (title a) (slug a) (content a) (excerpt a) (author a) (status a)
    v (view_count a) (tags a) (created_at a) (updated_at a) (published_at a).
Definition set_view_count (a : Article) (v : nat) : Article :=
  mkArticle (pk a) (title a) (slug a) (content a) (excerpt a) (author a) (status a)
    (featured a) v (tags a) (created_at a) (updated_at a) (published_at a).
Definition set_tags (a : Article) (v : string) : Article :=
  mkArticle (pk a) (title a) (slug a) (content a) (excerpt a) (author a) (status a)
    (featured a) (view_count a) v (created_at a) (updated_at a) (published_at a).
Definition set_created_at (a : Article) (v : Time) : Article :=
  mkArticle (pk a) (title a) (slug a) (content a) (excerpt a) (author a) (status a)
    (featured a) (view_count a) (tags a) v (updated_at a) (published_at a).
Definition set_updated_at (a : Article) (v : Time) : Article :=
  mkArticle (pk a) (title a) (slug a) (content a) (excerpt a) (author a) (status a)
    (featured a) (view_count a) (tags a) (created_at a) v (published_at a).
Definition set_published_at (a : Article) (v : option Time) : Article :=
  mkArticle (pk a) (title a) (slug a) (content a) (excerpt a) (author a) (status a)
    (featured a) (view_count a) (tags a) (created_at a) (updated_at a) v.

(** The column [f] of [row] overwritten with the attribute of [self]. *)
Definition write_field (self : Article) (row : Article) (f : Field) : Article :=
  match f with
  | f_title => set_title row (title self)
  | f_slug => set_slug row (slug self)
  | f_content => set_content row (content self)
  | f_excerpt => set_excerpt row (excerpt self)
  | f_author => set_author row (author self)
  | f_status => set_status row (status self)
  | f_featured => set_featured row (featured self)
  | f_view_count => set_view_count row (view_count self)
  | f_tags => set_tags row (tags self)
  | f_created_at => set_created_at row (created_at self)
  | f_updated_at => set_updated_at row (updated_at self)
  | f_published_at => set_published_at row (published_at self)
  end.

Definition write_fields (fs : list Field) (self row : Article) : Article :=
  fold_left (write_field self) fs row.

(** The world of a request: the articles table and the clock. *)
Record World : Type := mkWorld {
  table : list Article;
  clock : Time
}.

Definition M : Type -> Type := Handler.M World.

(** [timezone.now()]: reads the clock, which then moves on. *)
Definition timezone_now : M Time :=
  fun w => (mkWorld (table w) (S (clock w)), inr (clock w)).

Definition get_table : M (list Article) := gets table.

Definition put_table (rows : list Article) : M unit :=
  modify (fun w => mkWorld rows (clock w)).

Definition has_pk (k : nat) (row : Article) : bool :=
  match pk row with Some k' => k' =? k | None => false end.

(** [.exclude(pk=self.pk)]: a missing key excludes nothing. *)
Definition exclude_pk (self_pk : option nat) (rows : list Article) : list Article :=
  match self_pk with
  | Some k => filter (fun row => negb (has_pk k row)) rows
  | None => rows
  end.

(** [Article.objects.filter(slug=slug).exclude(pk=self.pk).exists()] *)
Definition slug_exists (rows : list Article) (self_pk : option nat) (s : string) : bool :=
  existsb (fun row => String.eqb (slug row) s) (exclude_pk self_pk rows).

(** The formatted slug [f"{base_slug}-{counter}"]. *)
Definition numbered (base_slug : string) (counter : nat) : string :=
  (base_slug ++ "-" ++ str_of_nat counter)%string.

(** The loop of [Article.save] that looks for a free slug, with [slug]
    and [counter] as the loop has them; [fuel] bounds the iterations. *)
Fixpoint unique_slug (fuel : nat) (exists_ : string -> bool)
    (base_slug slug : string) (counter : nat) : option string :=
  match fuel with
  | 0 => None
  | S fuel' =>
      if exists_ slug
      then unique_slug fuel' exists_ base_slug (numbered base_slug counter) (S counter)
      else Some slug
  end.

(** The excerpt [Article.save] derives from the content. *)
Definition derive_excerpt (content : string) : string :=
  let words := firstn 30 (split content) in
  let excerpt := join " " words in
  if 30 <? length (split content) then (excerpt ++ "...")%string else excerpt.

(** The next key of the auto-incremented primary key. *)
Definition next_pk (rows : list Article) : nat :=
  S (fold_right (fun row m => match pk row with Some k => Nat.max k m | None => m end) 0 rows).

(** The unique index on [slug]: another row already has the slug. *)
Definition violates_unique_slug (rows : list Article) (self : Article) : bool :=
  slug_exists rows (pk self) (slug self).

(** [models.Model.save]: with an empty [update_fields] it returns at
    once and writes nothing; with other [update_fields] only the named
    columns of the row are written, and an instance without a key is
    refused with a [ValueError].  [created_at] is stamped on insert
    ([auto_now_add]) and [updated_at] whenever the column is written
    ([auto_now]). *)
Definition model_save (update_fields : option (list Field)) (self : Article) : M Article :=
  rows <- get_table ;;
  match update_fields, pk self with
  | Some [], _ => ret self
  | Some fs, Some k =>
      self <- (if existsb (field_eqb f_updated_at) fs
               then (t <- timezone_now ;; ret (set_updated_at self t))
               else ret self) ;;
      if existsb (has_pk k) rows then
        if existsb (field_eqb f_slug) fs && violates_unique_slug rows self
        then raise IntegrityError
        else
          put_table (map (fun row => if has_pk k row then write_fields fs self row else row) rows) ;;;
          ret self
      else raise DatabaseError
  | Some _, None => raise ValueError
  | None, Some k =>
      if existsb (has_pk k) rows then
        t <- timezone_now ;;
        let self := set_updated_at self t in
        if violates_unique_slug rows self then raise IntegrityError
        else
          put_table (map (fun row => if has_pk k row then self else row) rows) ;;;
          ret self
      else
        t <- timezone_now ;;
        t' <- timezone_now ;;
        let self := set_updated_at (set_created_at self t) t' in
        if violates_unique_slug rows self then raise IntegrityError
        else put_table (rows ++ [self]) ;;; ret self
  | None, None =>
      t <- timezone_now ;;
      t' <- timezone_now ;;
      let self := set_updated_at (set_created_at self t) t' in
      if violates_unique_slug rows self then raise IntegrityError
      else
        let self := set_pk self (Some (next_pk rows)) in
        put_table (rows ++ [self]) ;;; ret self
  end.

(** [Article.save]: the block that fills an empty slug, the block that
    fills an empty excerpt, and the call of the inherited [save]. *)
Definition fill_slug (rows : list Article) (self : Article) : option Article :=
  if negb (truthy (slug self)) then
    let base_slug := Slug.slugify (title self) in
    match unique_slug (S (length rows)) (slug_exists rows (pk self))
            base_slug base_slug 1 with
    | Some slug => Some (set_slug self slug)
    | None => None
    end
  else Some self.

Definition fill_excerpt (self : Article) : Article :=
  if negb (truthy (excerpt self))
  then set_excerpt self (derive_excerpt (content self))
  else self.

Definition save (update_fields : option (list Field)) (self : Article) : M Article :=
  rows <- get_table ;;
  match fill_slug rows self with
  | Some self => model_save update_fields (fill_excerpt self)
  | None => raise OutOfFuel
  end.

(** The instance [Article.objects.create] builds before saving it: the
    given attributes and the defaults of the model. *)
Definition new_article (title content : string) (author : User) : Article :=
  mkArticle None title "" content "" author draft false 0 "" 0 0 None.

(** [Article.reading_time] *)
Definition reading_time (self : Article) : nat :=
  let word_count := length (split (content self)) in
  Nat.max 1 (round_div word_count 200).

(** [Article.get_tags_list] *)
Definition get_tags_list (self : Article) : list string :=
  map strip (filter (fun tag => truthy (strip tag)) (split_on "," (tags self))).

(** [Article.is_published] *)
Definition is_published (self : Article) : bool :=
  status_eqb (status self) published.

End Models.

(** ** articles/permissions.py, with the framework's permission classes *)

Inductive Method : Type := GET | HEAD | OPTIONS | POST | PUT | PATCH | DELETE.

Module Permissions.
Import Models.

(** [permissions.SAFE_METHODS] *)
Definition SAFE_METHODS (m : Method) : bool :=
  match m with GET | HEAD | OPTIONS => true | _ => false end.

(** [request.user == obj.author]: the anonymous user equals no user. *)
Definition is_user (who : Identity) (u : User) : bool :=
  match who with
  | AnonymousUser => false
  | Authenticated me => user_eqb u me
  end.

Definition user_is_staff (who : Identity) : bool :=
  match who with
  | AnonymousUser => false
  | Authenticated me => is_staff me
  end.

(** [IsAuthenticatedOrReadOnly.has_permission] and
    [IsAuthenticated.has_permission] of the framework. *)
Definition IsAuthenticatedOrReadOnly (method : Method) (who : Identity) : bool :=
  SAFE_METHODS method || is_authenticated who.

Definition IsAuthenticated (who : Identity) : bool := is_authenticated who.

(** [IsAuthorOrReadOnly.has_object_permission] *)
Definition IsAuthorOrReadOnly (method : Method) (who : Identity) (obj : Article) : bool :=
  if SAFE_METHODS method then true
  else is_user who (author obj).

(** [IsAuthorOrStaff.has_object_permission] (no view uses it) *)
Definition IsAuthorOrStaff (method : Method) (who : Identity) (obj : Article) : bool :=
  if SAFE_METHODS method then true
  else is_user who (author obj) || user_is_staff who.

(** [APIView.permission_denied]: a request without credentials is told
    to authenticate, any other is forbidden. *)
Definition permission_denied (who : Identity) : Error :=
  if is_authenticated who then PermissionDenied else NotAuthenticated.

End Permissions.

(** ** articles/filters.py *)

Module Filters.
Import Text Models.

(** The query parameters [ArticleFilter] declares, of a request whose
    parameters the form of the filterset accepts; [None] is a parameter
    the request does not carry.  The texts are the raw values, which the
    form strips; the other values are what the form has read them into.
    (A request with a parameter that the form refuses is answered 400 by
    the filter backend before any query.) *)
Record Params : Type := mkParams {
  q_title : option string;
  q_content : option string;
  q_author : option string;
  q_author_contains : option string;
  q_status : option Status;
  q_featured : option bool;
  q_tags : option string;
  q_created_after : option Time;
  q_created_before : option Time;
  q_published_after : option Time;
  q_published_before : option Time;
  q_min_views : option nat;
  q_max_views : option nat;
  q_search : option string
}.

Definition no_params : Params :=
  mkParams None None None None None None None None None None None None None None.

(** [django.db.models.Q]: a condition on a row; [Q()] is the empty
    condition, which [|] drops and [filter] ignores. *)
Definition Q : Type := option (Article -> bool).

Definition Q_empty : Q := None.

Definition Q_or (a b : Q) : Q :=
  match a, b with
  | None, q => q
  | q, None => q
  | Some f, Some g => Some (fun row => f row || g row)
  end.

Definition filter_Q (q : Q) (queryset : list Article) : list Article :=
  match q with
  | None => queryset
  | Some f => filter f queryset
  end.

(** [Q(tags__icontains=tag)] *)
Definition Q_tags_icontains (tag : string) : Q :=
  Some (fun row => icontains (tags row) tag).

(** [ArticleFilter.filter_tags] *)
Definition tag_terms (value : string) : list string :=
  map (fun tag => lower (strip tag))
      (filter (fun tag => truthy (strip tag)) (split_on "," value)).

Definition filter_tags (queryset : list Article) (value : string) : list Article :=
  if negb (truthy value) then queryset
  else
    let tags_ := tag_terms value in
    let q_objects :=
      fold_left (fun q tag => Q_or q (Q_tags_icontains tag)) tags_ Q_empty in
    filter_Q q_objects queryset.

(** [ArticleFilter.filter_search]; the rows of a table are distinct, so
    [distinct()] keeps the selection as it is. *)
Definition filter_search (queryset : list Article) (value : string) : list Article :=
  if negb (truthy value) then queryset
  else
    filter (fun a =>
              icontains (title a) value
              || icontains (content a) value
              || icontains (tags a) value
              || icontains (username (author a)) value
              || icontains (first_name (author a)) value
              || icontains (last_name (author a)) value)
           queryset.

(** A text filter of the filterset: the value is stripped by the form
    field and an empty value leaves the collection as it is. *)
Definition char_filter (value : option string)
    (apply : string -> list Article -> list Article) (queryset : list Article) : list Article :=
  match value with
  | None => queryset
  | Some v => if truthy (strip v) then apply (strip v) queryset else queryset
  end.

Definition value_filter {A} (value : option A)
    (keep : A -> Article -> bool) (queryset : list Article) : list Article :=
  match value with
  | None => queryset
  | Some v => filter (keep v) queryset
  end.

Definition published_cmp (cmp : Time -> Time -> bool) (bound : Time) (a : Article) : bool :=
  match published_at a with
  | Some t => cmp t bound
  | None => false
  end.

(** [ArticleFilter(...).qs]: every declared filter, in turn. *)
Definition qs (p : Params) (queryset : list Article) : list Article :=
  let queryset := char_filter (q_title p) (fun v => filter (fun a => icontains (title a) v)) queryset in
  let queryset := char_filter (q_content p) (fun v => filter (fun a => icontains (content a) v)) queryset in
  let queryset := char_filter (q_author p) (fun v => filter (fun a => iexact (username (author a)) v)) queryset in
  let queryset := char_filter (q_author_contains p) (fun v => filter (fun a => icontains (username (author a)) v)) queryset in
  let queryset := value_filter (q_status p) (fun v a => status_eqb (status a) v) queryset in
  let queryset := value_filter (q_featured p) (fun v a => Bool.eqb (featured a) v) queryset in
  let queryset := char_filter (q_tags p) (fun v q => filter_tags q v) queryset in
  let queryset := value_filter (q_created_after p) (fun v a => v <=? created_at a) queryset in
  let queryset := value_filter (q_created_before p) (fun v a => created_at a <=? v) queryset in
  let queryset := value_filter (q_published_after p) (fun v a => published_cmp (fun t b => b <=? t) v a) queryset in
  let queryset := value_filter (q_published_before p) (fun v a => published_cmp (fun t b => t <=? b) v a) queryset in
  let queryset := value_filter (q_min_views p) (fun v a => v <=? view_count a) queryset in
  let queryset := value_filter (q_max_views p) (fun v a => view_count a <=? v) queryset in
  char_filter (q_search p) (fun v q => filter_search q v) queryset.

End Filters.

(** ** articles/serializers.py *)

Module Serializers.
Import Text Handler Models.
Local Open Scope handler_scope.

(** A value of the request data as the field of the serializer takes
    it: [readable v] is a value the field reads into [v], [unreadable]
    one it refuses.  A text field reads a text, and a number as its
    text; [status] reads the name of a choice; [featured] a boolean or
    one of its spellings; [published_at] a date and time, or null.
    Anything else is refused: null where the column has no null, a list,
    a status that is no choice, a text that is no date. *)
Inductive Raw (A : Type) : Type :=
| readable (v : A)
| unreadable.

Arguments readable {A} v.
Arguments unreadable {A}.

(** The value a key carries, when it has one that is readable. *)
Definition given {A} (d : option (Raw A)) : option A :=
  match d with
  | Some (readable v) => Some v
  | _ => None
  end.

(** [request.data], the keys the serializers write; [None] is a key the
    request does not have. *)
Record Data : Type := mkData {
  d_title : option (Raw string);
  d_content : option (Raw string);
  d_excerpt : option (Raw string);
  d_status : option (Raw Status);
  d_featured : option (Raw bool);
  d_tags : option (Raw string);
  d_published_at : option (Raw (option Time))
}.

(** [validated_data], the writable attributes of an article; [None] is
    a key the dictionary does not have.  [published_at] may be null. *)
Record Attrs : Type := mkAttrs {
  a_title : option string;
  a_content : option string;
  a_excerpt : option string;
  a_status : option Status;
  a_featured : option bool;
  a_tags : option string;
  a_published_at : option (option Time)
}.

Definition no_attrs : Attrs := mkAttrs None None None None None None None.

Definition with_published_at (attrs : Attrs) (v : option Time) : Attrs :=
  mkAttrs (a_title attrs) (a_content attrs) (a_excerpt attrs) (a_status attrs)
    (a_featured attrs) (a_tags attrs) (Some v).

(** The request data that carries the given values, each one readable. *)
Definition readable_data (attrs : Attrs) : Data :=
  mkData (option_map readable (a_title attrs)) (option_map readable (a_content attrs))
    (option_map readable (a_excerpt attrs)) (option_map readable (a_status attrs))
    (option_map readable (a_featured attrs)) (option_map readable (a_tags attrs))
    (option_map readable (a_published_at attrs)).

Inductive SerializerClass : Type :=
| ArticleListSerializer
| ArticleDetailSerializer
| ArticleCreateSerializer
| ArticleUpdateSerializer.

(** [Meta.read_only_fields]: [published_at] is read-only in the list
    serializer and in the create serializer, which adds it to the
    read-only fields of the detail serializer; the detail and the update
    serializer accept it. *)
Definition published_at_read_only (cls : SerializerClass) : bool :=
  match cls with
  | ArticleListSerializer | ArticleCreateSerializer => true
  | ArticleDetailSerializer | ArticleUpdateSerializer => false
  end.

(** [ArticleDetailSerializer.get_word_count] *)
Definition get_word_count (obj : Article) : nat :=
  if truthy (content obj) then length (split (content obj)) else 0.

(** The text field the framework builds from a model column: the value
    is stripped; a blank value is refused unless the column allows it;
    then the validators run: the declared length bounds, and the one
    that prohibits a NUL character. *)
Definition char_field (allow_blank : bool) (max_length min_length : option nat)
    (data : string) : option string :=
  let value := strip data in
  if negb (truthy value) then (if allow_blank then Some value else None)
  else
    let too_long := match max_length with Some n => n <? String.length value | None => false end in
    let too_short := match min_length with Some n => String.length value <? n | None => false end in
    if too_long || too_short || has_nul value then None else Some value.

(** The fields of the serializer, from the declarations of models.py. *)
Definition title_field : string -> option string := char_field false (Some 200) (Some 5).
Definition content_field : string -> option string := char_field false None (Some 10).
Definition excerpt_field : string -> option string := char_field true (Some 500) None.
Definition tags_field : string -> option string := char_field true (Some 200) None.

(** [ArticleDetailSerializer.validate_title]; [None] is the raised
    [ValidationError]. *)
Definition validate_title (instance : option Article) (rows : list Article)
    (value : string) : option string :=
  if String.length (strip value) <? 5 then None
  else
    let existing := filter (fun row => iexact (title row) (strip value)) rows in
    let existing :=
      match instance with
      | Some inst => exclude_pk (pk inst) existing
      | None => existing
      end in
    match existing with
    | _ :: _ => None
    | [] => Some (strip value)
    end.

(** [ArticleDetailSerializer.validate_content] *)
Definition validate_content (value : string) : option string :=
  if String.length (strip value) <? 10 then None
  else Some (strip value).

(** The loop of [validate_tags] that removes duplicates, keeping the
    first occurrence of each tag. *)
Fixpoint unique_tags (seen : list string) (tags_ : list string) : list string :=
  match tags_ with
  | [] => []
  | tag :: rest =>
      if existsb (String.eqb tag) seen then unique_tags seen rest
      else tag :: unique_tags (tag :: seen) rest
  end.

Definition clean_tags (value : string) : list string :=
  map (fun tag => lower (strip tag))
      (filter (fun tag => truthy (strip tag)) (split_on "," value)).

(** [ArticleDetailSerializer.validate_tags] *)
Definition validate_tags (value : string) : option string :=
  if truthy value then
    let tags_ := clean_tags value in
    if 10 <? length tags_ then None
    else Some (join "," (unique_tags [] tags_))
  else Some value.

(** [ArticleDetailSerializer.validate] *)
Definition validate (instance : option Article) (attrs : Attrs) : M Attrs :=
  match a_status attrs with
  | Some published =>
      let first_time :=
        match instance with
        | None => true
        | Some inst => negb (status_eqb (status inst) published)
        end in
      if first_time then (t <- timezone_now ;; ret (with_published_at attrs (Some t)))
      else ret attrs
  | _ => ret attrs
  end.

(** One field of [to_internal_value]: a missing key is an error when
    the field is required and the update is not partial; a value the
    field cannot read is an error; a value it reads goes through the
    field and then through its [validate_<name>] method.  The result is
    the error, if any, and the cleaned value. *)
Definition run_field {A : Type} (name : string) (required partial : bool)
    (data : option (Raw A)) (field : A -> option A) (validate_method : A -> option A)
    : list string * option A :=
  match data with
  | None => if required && negb partial then ([name], None) else ([], None)
  | Some unreadable => ([name], None)
  | Some (readable v) =>
      match field v with
      | None => ([name], None)
      | Some v' =>
          match validate_method v' with
          | None => ([name], None)
          | Some v'' => ([], Some v'')
          end
      end
  end.

(** [Serializer.to_internal_value] of the detail, create and update
    serializers, which read request data (the list serializer only
    renders): the writable fields in the order of [Meta.fields]; the
    errors of all fields together, or the cleaned attributes.  A
    read-only [published_at] is not looked at. *)
Definition to_internal_value (cls : SerializerClass) (partial : bool)
    (instance : option Article) (rows : list Article) (data : Data)
    : list string + Attrs :=
  let '(e1, v_title) :=
    run_field "title" true partial (d_title data) title_field (validate_title instance rows) in
  let '(e2, v_content) :=
    run_field "content" true partial (d_content data) content_field validate_content in
  let '(e3, v_excerpt) :=
    run_field "excerpt" false partial (d_excerpt data) excerpt_field Some in
  let '(e4, v_status) :=
    run_field "status" false partial (d_status data) Some Some in
  let '(e5, v_featured) :=
    run_field "featured" false partial (d_featured data) Some Some in
  let '(e6, v_tags) :=
    run_field "tags" false partial (d_tags data) tags_field validate_tags in
  let '(e7, v_published_at) :=
    if published_at_read_only cls then ([], None)
    else run_field "published_at" false partial (d_published_at data) Some Some in
  match e1 ++ e2 ++ e3 ++ e4 ++ e5 ++ e6 ++ e7 with
  | [] =>
      inr (mkAttrs v_title v_content v_excerpt v_status v_featured v_tags v_published_at)
  | errors => inl errors
  end.

(** [serializer.is_valid(raise_exception=True)] *)
Definition is_valid (cls : SerializerClass) (partial : bool)
    (instance : option Article) (data : Data) : M Attrs :=
  rows <- get_table ;;
  match to_internal_value cls partial instance rows data with
  | inl errors => raise (ValidationError errors)
  | inr attrs => validate instance attrs
  end.

(** [setattr(instance, attr, value)] for every key of [validated_data]. *)
Definition setattrs (instance : Article) (validated_data : Attrs) : Article :=
  let set {A} (v : option A) (f : Article -> A -> Article) (a : Article) :=
    match v with Some x => f a x | None => a end in
  set (a_published_at validated_data) set_published_at
    (set (a_tags validated_data) set_tags
      (set (a_featured validated_data) set_featured
        (set (a_status validated_data) set_status
          (set (a_excerpt validated_data) set_excerpt
            (set (a_content validated_data) set_content
              (set (a_title validated_data) set_title instance)))))).

(** [ArticleDetailSerializer.create], the author taken from the
    request. *)
Definition create (request_user : User) (validated_data : Attrs) : M Article :=
  let blank := new_article "" "" request_user in
  save None (setattrs blank validated_data).

(** [ArticleDetailSerializer.update] *)
Definition update (instance : Article) (validated_data : Attrs) : M Article :=
  let validated_data :=
    match a_status validated_data with
    | Some draft =>
        if status_eqb (status instance) published
        then with_published_at validated_data None
        else validated_data
    | _ => validated_data
    end in
  save None (setattrs instance validated_data).

End Serializers.

(** ** articles/views.py

    The handlers of [ArticleViewSet].  The ordering backend and the
    paginator, which reorder and cut the collection a listing produces,
    and the rendering of the response are left to the transport; a
    listing is the collection they consume. *)

Module Views.
Import Text Handler Models Permissions Serializers.
Local Open Scope handler_scope.

Inductive Action : Type :=
| act_list | act_create | act_retrieve | act_update | act_partial_update
| act_destroy | act_toggle_featured.

(** [ArticleViewSet.get_serializer_class] *)
Definition get_serializer_class (action : Action) : SerializerClass :=
  match action with
  | act_list => ArticleListSerializer
  | act_create => ArticleCreateSerializer
  | act_update | act_partial_update => ArticleUpdateSerializer
  | _ => ArticleDetailSerializer
  end.

(** [ArticleViewSet.get_queryset] *)
Definition get_queryset (who : Identity) (queryset : list Article) : list Article :=
  if negb (is_authenticated who) then
    filter (fun a => status_eqb (status a) published) queryset
  else if negb (user_is_staff who) then
    filter (fun a => status_eqb (status a) published || is_user who (author a)) queryset
  else queryset.

(** [search_fields] of the view set; each is searched with the
    [icontains] lookup. *)
Definition search_fields : list (Article -> string) :=
  [title; content; tags; fun a => username (author a)].

(** [SearchFilter.get_search_terms]: the value of the [search]
    parameter, NUL characters dropped and commas read as blanks, cut at
    the blanks.  (Later releases of the framework also keep a phrase in
    quotation marks together; for a value without quotation marks the
    terms are the same.) *)
Definition get_search_terms (params : Filters.Params) : list string :=
  match Filters.q_search params with
  | None => []
  | Some value =>
      split (replace_char "," " " (keep (fun c => negb (Ascii.eqb c NUL)) value))
  end.

(** [SearchFilter.filter_queryset]: without a term the collection stays
    as it is; otherwise a row is kept when every term is in one of the
    search fields. *)
Definition search_filter (params : Filters.Params) (queryset : list Article)
    : list Article :=
  match get_search_terms params with
  | [] => queryset
  | search_terms =>
      filter (fun a =>
                forallb (fun search_term =>
                           existsb (fun field => icontains (field a) search_term)
                                   search_fields)
                        search_terms)
             queryset
  end.

(** [GenericAPIView.filter_queryset]: the filter backends of the view set
    in turn, [DjangoFilterBackend] with the filterset and [SearchFilter],
    which both read the [search] parameter; [OrderingFilter] selects
    nothing. *)
Definition filter_queryset (params : Filters.Params) (queryset : list Article) : list Article :=
  search_filter params (Filters.qs params queryset).

(** [APIView.check_permissions] with the permission classes of the
    action: [toggle_featured] declares [IsAuthenticated], every other
    action has the classes of the view set. *)
Definition check_permissions (action : Action) (method : Method) (who : Identity) : M unit :=
  let allowed :=
    match action with
    | act_toggle_featured => IsAuthenticated who
    | _ => IsAuthenticatedOrReadOnly method who
    end in
  if allowed then ret tt else raise (permission_denied who).

(** [APIView.check_object_permissions] *)
Definition check_object_permissions (action : Action) (method : Method)
    (who : Identity) (obj : Article) : M unit :=
  let allowed :=
    match action with
    | act_toggle_featured => true
    | _ => IsAuthorOrReadOnly method who obj
    end in
  if allowed then ret tt else raise (permission_denied who).

(** [GenericAPIView.get_object]: the row is looked up in the filtered,
    visibility-narrowed collection, then the object permissions are
    checked. *)
Definition get_object (action : Action) (method : Method) (who : Identity)
    (params : Filters.Params) (k : nat) : M Article :=
  rows <- get_table ;;
  match find (has_pk k) (filter_queryset params (get_queryset who rows)) with
  | None => raise NotFound
  | Some obj => check_object_permissions action method who obj ;;; ret obj
  end.

(** The list action. *)
Definition list_ (who : Identity) (params : Filters.Params) : M (list Article) :=
  check_permissions act_list GET who ;;;
  rows <- get_table ;;
  ret (filter_queryset params (get_queryset who rows)).

(** [Article.objects.filter(pk=pk).update(view_count=F('view_count') + 1)] *)
Definition increment_view_count (k : nat) : M unit :=
  rows <- get_table ;;
  put_table (map (fun row => if has_pk k row then set_view_count row (view_count row + 1) else row) rows).

(** [instance.refresh_from_db()] *)
Definition refresh_from_db (instance : Article) : M Article :=
  rows <- get_table ;;
  match find (fun row => match pk instance with Some k => has_pk k row | None => false end) rows with
  | Some row => ret row
  | None => raise DatabaseError
  end.

(** [ArticleViewSet.retrieve] *)
Definition retrieve (who : Identity) (params : Filters.Params) (k : nat) : M Article :=
  check_permissions act_retrieve GET who ;;;
  instance <- get_object act_retrieve GET who params k ;;
  if status_eqb (status instance) published then
    increment_view_count k ;;;
    refresh_from_db instance
  else ret instance.

(** [ArticleViewSet.perform_create] after the create action has
    validated the request data. *)
Definition create (who : Identity) (data : Data) : M Article :=
  check_permissions act_create POST who ;;;
  match who with
  | AnonymousUser => raise NotAuthenticated
  | Authenticated user =>
      validated_data <- is_valid (get_serializer_class act_create) false None data ;;
      Serializers.create user validated_data
  end.

(** [ArticleViewSet.perform_update] *)
Definition perform_update (instance : Article) (validated_data : Attrs) : M Article :=
  match a_status validated_data with
  | Some published =>
      if negb (status_eqb (status instance) published) then
        t <- timezone_now ;;
        Serializers.update instance (with_published_at validated_data (Some t))
      else Serializers.update instance validated_data
  | _ => Serializers.update instance validated_data
  end.

(** The update ([partial = false], PUT) and partial update
    ([partial = true], PATCH) actions. *)
Definition update (partial : bool) (who : Identity) (params : Filters.Params)
    (k : nat) (data : Data) : M Article :=
  let action := if partial then act_partial_update else act_update in
  let method := if partial then PATCH else PUT in
  check_permissions action method who ;;;
  instance <- get_object action method who params k ;;
  validated_data <- is_valid (get_serializer_class action) partial (Some instance) data ;;
  perform_update instance validated_data.

(** The destroy action: [instance.delete()]. *)
Definition destroy (who : Identity) (params : Filters.Params) (k : nat) : M unit :=
  check_permissions act_destroy DELETE who ;;;
  instance <- get_object act_destroy DELETE who params k ;;
  rows <- get_table ;;
  put_table (filter (fun row => negb (has_pk k row)) rows).

(** [ArticleViewSet.featured] *)
Definition featured_ (who : Identity) : M (list Article) :=
  check_permissions act_list GET who ;;;
  rows <- get_table ;;
  ret (filter (fun a => featured a && status_eqb (status a) published) (get_queryset who rows)).

(** [ArticleViewSet.my_articles]; a request without credentials gets the
    401 response. *)
Definition my_articles (who : Identity) : M (list Article) :=
  check_permissions act_list GET who ;;;
  match who with
  | AnonymousUser => raise NotAuthenticated
  | Authenticated user =>
      rows <- get_table ;;
      ret (filter (fun a => user_eqb (author a) user) rows)
  end.

(** [ArticleViewSet.by_author] *)
Definition by_author (who : Identity) (author_username : option string) : M (list Article) :=
  check_permissions act_list GET who ;;;
  match author_username with
  | None => raise MissingParameter
  | Some name =>
      if negb (truthy name) then raise MissingParameter
      else
        rows <- get_table ;;
        ret (filter (fun a => String.eqb (username (author a)) name
                              && status_eqb (status a) published)
                    (get_queryset who rows))
  end.

(** [ArticleViewSet.by_tag] *)
Definition by_tag (who : Identity) (tag : option string) : M (list Article) :=
  check_permissions act_list GET who ;;;
  match tag with
  | None => raise MissingParameter
  | Some tag =>
      if negb (truthy tag) then raise MissingParameter
      else
        rows <- get_table ;;
        ret (filter (fun a => icontains (tags a) tag && status_eqb (status a) published)
                    (get_queryset who rows))
  end.

(** [ArticleViewSet.toggle_featured]; a caller who is not staff gets the
    403 response. *)
Definition toggle_featured (who : Identity) (params : Filters.Params) (k : nat) : M bool :=
  check_permissions act_toggle_featured POST who ;;;
  if negb (user_is_staff who) then raise PermissionDenied
  else
    article <- get_object act_toggle_featured POST who params k ;;
    let article := set_featured article (negb (featured article)) in
    article <- save (Some [f_featured]) article ;;
    ret (featured article).

End Views.

(** ** The statistics of articles/views.py *)

Module Statistics.
Import Text Handler Models Permissions.
Local Open Scope handler_scope.

(** The dictionary [stats] answers with; the three counts of the
    requester's own articles are there for an authenticated requester. *)
Record Stats : Type := mkStats {
  total_articles : nat;
  published_articles : nat;
  draft_articles : nat;
  featured_articles : nat;
  total_views : nat;
  my_stats : option (nat * nat * nat)
}.

(** [queryset.filter(...).count()] *)
Definition count (f : Article -> bool) (queryset : list Article) : nat :=
  length (filter f queryset).

(** [ArticleViewSet.stats] *)
Definition stats (who : Identity) : M Stats :=
  Views.check_permissions Views.act_list GET who ;;;
  rows <- get_table ;;
  let queryset := Views.get_queryset who rows in
  let mine :=
    match who with
    | AnonymousUser => None
    | Authenticated user =>
        let user_articles := filter (fun a => user_eqb (author a) user) queryset in
        Some (length user_articles,
              count (fun a => status_eqb (status a) published) user_articles,
              count (fun a => status_eqb (status a) draft) user_articles)
    end in
  ret (mkStats (length queryset)
         (count (fun a => status_eqb (status a) published) queryset)
         (count (fun a => status_eqb (status a) draft) queryset)
         (count (fun a => featured a) queryset)
         (list_sum (map view_count queryset))
         mine).

End Statistics.

(** ** articles/filters.py, the filter of published articles *)

Module PublishedFilter.
Import Models.

(** [PublishedArticleFilter]: the queryset is narrowed to the published
    articles when the filter is built, then filtered as [ArticleFilter]
    does. *)
Definition qs (p : Filters.Params) (queryset : list Article) : list Article :=
  Filters.qs p (filter (fun a => status_eqb (status a) published) queryset).

End PublishedFilter.

(** ** articles/admin.py *)

Module Admin.
Import Text Handler Models.
Local Open Scope handler_scope.

(** The queryset an admin action gets: the rows whose keys were ticked. *)
Definition selected (keys : list nat) (row : Article) : bool :=
  existsb (fun k => has_pk k row) keys.

(** [ArticleAdmin.featured_badge]; [true] is the badge, [false] the
    dash. *)
Definition featured_badge (obj : Article) : bool := featured obj.

(** [ArticleAdmin.reading_time_display] *)
Definition reading_time_display (obj : Article) : string :=
  let time := reading_time obj in
  let plural := if negb (time =? 1) then "s" else "" in
  (str_of_nat time ++ " min" ++ plural)%string.

(** [ArticleAdmin.word_count_display] *)
Definition word_count_display (obj : Article) : nat :=
  if truthy (content obj) then length (split (content obj)) else 0.

(** [queryset.update(status='published', published_at=timezone.now())]:
    one statement on the selected rows, which calls no [save]; the
    result is the number of rows. *)
Definition mark_as_published (keys : list nat) : M nat :=
  t <- timezone_now ;;
  rows <- get_table ;;
  put_table (map (fun row => if selected keys row
                             then set_published_at (set_status row published) (Some t)
                             else row) rows) ;;;
  ret (length (filter (selected keys) rows)).

(** [queryset.update(status='draft', published_at=None)] *)
Definition mark_as_draft (keys : list nat) : M nat :=
  rows <- get_table ;;
  put_table (map (fun row => if selected keys row
                             then set_published_at (set_status row draft) None
                             else row) rows) ;;;
  ret (length (filter (selected keys) rows)).

(** The loop of [ArticleAdmin.toggle_featured] over the instances the
    queryset gave. *)
Fixpoint toggle_each (articles : list Article) : M unit :=
  match articles with
  | [] => ret tt
  | article :: rest =>
      save (Some [f_featured]) (set_featured article (negb (featured article))) ;;;
      toggle_each rest
  end.

(** [ArticleAdmin.toggle_featured]; the result is the count of the
    message. *)
Definition toggle_featured (keys : list nat) : M nat :=
  rows <- get_table ;;
  toggle_each (filter (selected keys) rows) ;;;
  rows' <- get_table ;;
  ret (length (filter (selected keys) rows')).

End Admin.

(** ** The row-wise reading of the filterset *)

Module Selection.
Import Text Models Filters.

Definition char_accepts (value : option string) (test : string -> bool) : bool :=
  match value with
  | None => true
  | Some v => if truthy (strip v) then test (strip v) else true
  end.

Definition value_accepts {A} (value : option A) (test : A -> bool) : bool :=
  match value with
  | None => true
  | Some v => test v
  end.

(** The tags condition on one row: one of the terms, when there is one. *)
Definition tags_accepts (a : Article) (value : string) : bool :=
  match tag_terms value with
  | [] => true
  | terms => existsb (fun term => icontains (tags a) term) terms
  end.

Definition search_accepts (a : Article) (value : string) : bool :=
  icontains (title a) value || icontains (content a) value || icontains (tags a) value
  || icontains (username (author a)) value || icontains (first_name (author a)) value
  || icontains (last_name (author a)) value.

(** The row passes every filter the parameters carry. *)
Definition accepts (p : Params) (a : Article) : bool :=
  char_accepts (q_title p) (icontains (title a))
  && char_accepts (q_content p) (icontains (content a))
  && char_accepts (q_author p) (iexact (username (author a)))
  && char_accepts (q_author_contains p) (icontains (username (author a)))
  && value_accepts (q_status p) (status_eqb (status a))
  && value_accepts (q_featured p) (Bool.eqb (featured a))
  && char_accepts (q_tags p) (tags_accepts a)
  && value_accepts (q_created_after p) (fun v => v <=? created_at a)
  && value_accepts (q_created_before p) (fun v => created_at a <=? v)
  && value_accepts (q_published_after p) (fun v => published_cmp (fun t b => b <=? t) v a)
  && value_accepts (q_published_before p) (fun v => published_cmp (fun t b => t <=? b) v a)
  && value_accepts (q_min_views p) (fun v => v <=? view_count a)
  && value_accepts (q_max_views p) (fun v => view_count a <=? v)
  && char_accepts (q_search p) (search_accepts a).

(** The parameters with every text value in lower case. *)
Definition fold_case (p : Params) : Params :=
  mkParams (option_map lower (q_title p)) (option_map lower (q_content p))
    (option_map lower (q_author p)) (option_map lower (q_author_contains p))
    (q_status p) (q_featured p) (option_map lower (q_tags p))
    (q_created_after p) (q_created_before p) (q_published_after p) (q_published_before p)
    (q_min_views p) (q_max_views p) (option_map lower (q_search p)).

(** No two rows share a slug. *)
Definition slug_unique (rows : list Article) : Prop :=
  forall a b, In a rows -> In b rows -> slug a = slug b -> a = b.

(** The text has no character [c]. *)
Fixpoint free_of (c : ascii) (s : string) : bool :=
  match s with
  | EmptyString => true
  | String d s' => negb (Ascii.eqb d c) && free_of c s'
  end.

(** A normal tag: not blank, trimmed, in lower case, without a comma. *)
Definition normal_tag (t : string) : Prop :=
  truthy t = true /\ strip t = t /\ lower t = t /\ free_of "," t = true.

End Selection.

(** ** The fixtures of articles/tests.py *)

Module Fixtures.
Import Models.

Definition testuser : User := mkUser 1 "testuser" "" "" false.
Definition otheruser : User := mkUser 2 "otheruser" "" "" false.
Definition staffuser : User := mkUser 3 "staffuser" "" "" true.

(** [ArticleAPITest.setUp]: a published and a draft article of
    [testuser], as the table holds them after their creation. *)
Definition published_article : Article :=
  mkArticle (Some 1) "Published Test Article" "published-test-article"
    "This is a published test article with enough content."
    "This is a published test article with enough content."
    testuser published false 0 "django,test" 0 1 None.

Definition draft_article : Article :=
  mkArticle (Some 2) "Draft Test Article" "draft-test-article"
    "This is a draft test article with enough content."
    "This is a draft test article with enough content."
    testuser draft false 0 "django,draft" 2 3 None.

Definition empty_world : World := mkWorld [] 0.

Definition world : World := mkWorld [published_article; draft_article] 4.

(** [' '.join(['word'] * n)] *)
Definition words (n : nat) : string := Text.join " " (repeat "word" n).

(** ['a' * n] *)
Definition letters (n : nat) : string := Text.join "" (repeat "a" n).

(** [ArticleSerializerTest.article_data] *)
Definition article_data : Serializers.Data :=
  Serializers.readable_data
    (Serializers.mkAttrs (Some "Test Article")
       (Some "Test content that meets minimum length requirements.")
       None (Some published) None (Some "test,serializer") None).

Definition with_title (data : Serializers.Data) (v : string) : Serializers.Data :=
  Serializers.mkData (Some (Serializers.readable v)) (Serializers.d_content data)
    (Serializers.d_excerpt data) (Serializers.d_status data) (Serializers.d_featured data)
    (Serializers.d_tags data) (Serializers.d_published_at data).

Definition with_content (data : Serializers.Data) (v : string) : Serializers.Data :=
  Serializers.mkData (Serializers.d_title data) (Some (Serializers.readable v))
    (Serializers.d_excerpt data) (Serializers.d_status data) (Serializers.d_featured data)
    (Serializers.d_tags data) (Serializers.d_published_at data).

Definition with_tags (data : Serializers.Data) (v : string) : Serializers.Data :=
  Serializers.mkData (Serializers.d_title data) (Serializers.d_content data)
    (Serializers.d_excerpt data) (Serializers.d_status data) (Serializers.d_featured data)
    (Some (Serializers.readable v)) (Serializers.d_published_at data).

End Fixtures.

(** ** Relations between two versions of a row *)

Module Frame.
Import Models.

(** The attributes a caller sets on an instance: all but the key and
    the two automatic timestamps. *)
Definition same_attrs (a b : Article) : Prop :=
  title a = title b /\ slug a = slug b /\ content a = content b /\
  excerpt a = excerpt b /\ author a = author b /\ status a = status b /\
  featured a = featured b /\ view_count a = view_count b /\
  tags a = tags b /\ published_at a = published_at b.

(** Every column but [featured]. *)
Definition same_but_featured (a b : Article) : Prop :=
  pk a = pk b /\ title a = title b /\ slug a = slug b /\ content a = content b /\
  excerpt a = excerpt b /\ author a = author b /\ status a = status b /\
  view_count a = view_count b /\ tags a = tags b /\
  created_at a = created_at b /\ updated_at a = updated_at b /\
  published_at a = published_at b.

(** Every column but [view_count]. *)
Definition same_but_view_count (a b : Article) : Prop :=
  pk a = pk b /\ title a = title b /\ slug a = slug b /\ content a = content b /\
  excerpt a = excerpt b /\ author a = author b /\ status a = status b /\
  featured a = featured b /\ tags a = tags b /\
  created_at a = created_at b /\ updated_at a = updated_at b /\
  published_at a = published_at b.

(** The row of the table with key [k]. *)
Definition row (k : nat) (w : World) : option Article :=
  find (has_pk k) (table w).

(** The row after one more view. *)
Definition viewed (a : Article) : Article := set_view_count a (view_count a + 1).

(** The row with key [k] given the featured flag [v]; other rows as they
    are. *)
Definition flagged (v : bool) (k : nat) (r : Article) : Article :=
  if has_pk k r then set_featured r v else r.

(** The row with its featured flag negated. *)
Definition toggled (r : Article) : Article := set_featured r (negb (featured r)).

(** What saving the featured flag of the instance [a], negated, writes
    on the row [r]. *)
Definition turn (r a : Article) : Article :=
  match pk a with
  | Some k => flagged (negb (featured a)) k r
  | None => r
  end.

(** The error a mutation of somebody else's article ends with, when the
    request has no query parameters: 401 without credentials, 404 when
    the article is outside the requester's collection, 403 otherwise. *)
Definition refusal (who : Identity) (before : Article) : Error :=
  match who with
  | AnonymousUser => NotAuthenticated
  | Authenticated u =>
      if is_staff u || status_eqb (status before) published
      then PermissionDenied
      else NotFound
  end.

(** The primary key constraint: two rows with the same key are one row. *)
Definition pk_unique (rows : list Article) : Prop :=
  forall a b, In a rows -> In b rows -> pk a = pk b -> a = b.

End Frame.

(** ** The conditions under which request data is refused

    The causes of a validation error, one definition each, stated on the
    request data as the client sent it. *)

Module Rules.
Import Text Models Serializers.

Definition missing {A} (d : option (Raw A)) : bool :=
  match d with None => true | Some _ => false end.

(** A required field is absent from a request that is not partial. *)
Definition required_missing (partial : bool) (data : Data) : bool :=
  negb partial && (missing (d_title data) || missing (d_content data)).

Definition refused {A} (d : option (Raw A)) : bool :=
  match d with Some unreadable => true | _ => false end.

(** A key carries a value that its field cannot read; [published_at]
    counts where the serializer writes it. *)
Definition unreadable_value (cls : SerializerClass) (data : Data) : bool :=
  refused (d_title data) || refused (d_content data) || refused (d_excerpt data)
  || refused (d_status data) || refused (d_featured data) || refused (d_tags data)
  || (negb (published_at_read_only cls) && refused (d_published_at data)).

Definition with_nul (v : option string) : bool :=
  match v with Some s => has_nul s | None => false end.

(** A text has a NUL character. *)
Definition nul_character (data : Data) : bool :=
  with_nul (given (d_title data)) || with_nul (given (d_content data))
  || with_nul (given (d_excerpt data)) || with_nul (given (d_tags data)).

Definition longer_than (n : nat) (v : option string) : bool :=
  match v with Some s => n <? String.length (strip s) | None => false end.

Definition shorter_than (n : nat) (v : option string) : bool :=
  match v with Some s => String.length (strip s) <? n | None => false end.

(** A text is longer than its column: 200 characters for the title, 500
    for the excerpt, 200 for the tags. *)
Definition over_max_length (data : Data) : bool :=
  longer_than 200 (given (d_title data)) || longer_than 500 (given (d_excerpt data))
  || longer_than 200 (given (d_tags data)).

Definition title_too_short (data : Data) : bool := shorter_than 5 (given (d_title data)).

Definition content_too_short (data : Data) : bool := shorter_than 10 (given (d_content data)).

Definition is_instance (instance : option Article) (row : Article) : bool :=
  match instance with
  | Some inst => match pk inst with Some k => has_pk k row | None => false end
  | None => false
  end.

(** Another article has the trimmed title, compared without case. *)
Definition title_taken (instance : option Article) (rows : list Article) (data : Data) : bool :=
  match given (d_title data) with
  | Some t => existsb (fun row => iexact (title row) (strip t) && negb (is_instance instance row)) rows
  | None => false
  end.

(** The tags value has more than 10 entries that are not blank; an entry
    that occurs twice counts twice. *)
Definition too_many_tags (data : Data) : bool :=
  match given (d_tags data) with
  | Some v => 10 <? length (clean_tags v)
  | None => false
  end.

Definition rejected (cls : SerializerClass) (partial : bool) (instance : option Article)
    (rows : list Article) (data : Data) : bool :=
  required_missing partial data || unreadable_value cls data || nul_character data
  || over_max_length data || title_too_short data || title_taken instance rows data
  || content_too_short data || too_many_tags data.

(** The names of the writable fields, in the order of [Meta.fields]. *)
Definition field_names : list string :=
  ["title"; "content"; "excerpt"; "status"; "featured"; "tags"; "published_at"].

End Rules.

(** * Properties *)

Import Text Handler Models Permissions Serializers Frame Rules Selection.

(** ** Text *)

Section TextFacts.

Lemma starts_with_spec (n h : string) :
  starts_with n h = true <-> exists q, h = (n ++ q)%string.
Proof.
  revert h; induction n as [|c n IH]; intros h; simpl.
  - split; [intros _; now exists h | reflexivity].
  - destruct h as [|d h].
    + split; [discriminate | intros [q Hq]; discriminate].
    + rewrite andb_true_iff, Ascii.eqb_eq, IH. split.
      * intros [-> [q Hq]]. exists q. now rewrite Hq.
      * intros [q Hq]. inversion Hq. split; [reflexivity | now exists q].
Qed.

(** [contains] decides the substring relation. *)
Lemma contains_spec (n h : string) :
  contains n h = true <-> exists p q, h = (p ++ n ++ q)%string.
Proof.
  induction h as [|d h IH].
  - simpl. rewrite orb_false_r, starts_with_spec. split.
    + intros [q Hq]. now exists ""%string, q.
    + intros [p [q Hq]]. destruct p; [now exists q | discriminate].
  - simpl. rewrite orb_true_iff, starts_with_spec, IH. split.
    + intros [[q Hq] | [p [q Hq]]].
      * now exists ""%string, q.
      * exists (String d p), q. simpl. now rewrite Hq.
    + intros [p [q Hq]]. destruct p as [|e p]; simpl in Hq.
      * left; now exists q.
      * right. inversion Hq; subst. now exists p, q.
Qed.

Lemma split_blank (c : ascii) (s : string) :
  is_space c = true -> split (String c s) = split s.
Proof. intros H; simpl; now rewrite H. Qed.

Lemma split_cons_nonblank (d e : ascii) (t : string) :
  is_space d = false -> is_space e = false ->
  split (String d (String e t)) =
  match split (String e t) with
  | w :: ws => String d w :: ws
  | [] => [String d EmptyString]
  end.
Proof.
  intros Hd He.
  change (split (String d (String e t))) with
    (if is_space d then split (String e t)
     else if is_space e then String d "" :: split (String e t)
          else match split (String e t) with
               | w :: ws => String d w :: ws
               | [] => [String d EmptyString]
               end).
  now rewrite Hd, He.
Qed.

Lemma token_cons (d : ascii) (w : string) :
  is_token (String d w) = true ->
  is_space d = false /\ (w = EmptyString \/ is_token w = true).
Proof.
  unfold is_token; simpl. intros H.
  apply andb_true_iff in H as [Hd Hw]. apply negb_true_iff in Hd.
  split; [exact Hd|]. destruct w; [now left | right; exact Hw].
Qed.

Lemma token_head (e : ascii) (w : string) :
  is_token (String e w) = true -> is_space e = false.
Proof. intros H. now apply token_cons in H. Qed.

Lemma split_token_blank (w : string) (c : ascii) (rest : string) :
  is_token w = true -> is_space c = true ->
  split (w ++ String c rest) = w :: split rest.
Proof.
  intros Hw Hc. induction w as [|d w IH]; [discriminate|].
  destruct (token_cons _ _ Hw) as [Hd [-> | Hw']].
  - simpl. now rewrite Hd, Hc.
  - destruct w as [|e w]; [discriminate|].
    change (String d (String e w) ++ String c rest)%string
      with (String d (String e (w ++ String c rest))).
    rewrite split_cons_nonblank by (auto; now apply token_head in Hw').
    change (String e (w ++ String c rest)) with (String e w ++ String c rest)%string.
    now rewrite IH.
Qed.

Lemma split_token (w : string) : is_token w = true -> split w = [w].
Proof.
  intros Hw. induction w as [|d w IH]; [discriminate|].
  destruct (token_cons _ _ Hw) as [Hd [-> | Hw']].
  - simpl. now rewrite Hd.
  - destruct w as [|e w]; [discriminate|].
    rewrite split_cons_nonblank by (auto; now apply token_head in Hw').
    now rewrite IH.
Qed.

(** Splitting the tokens joined by single spaces gives the tokens back. *)
Lemma split_join (ws : list string) :
  forallb is_token ws = true -> split (join " " ws) = ws.
Proof.
  induction ws as [|w ws IH]; intros H; [reflexivity|].
  simpl in H. apply andb_true_iff in H as [Hw Hws].
  destruct ws as [|w' ws].
  - simpl. now apply split_token.
  - change (join " " (w :: w' :: ws)) with (w ++ String " " (join " " (w' :: ws)))%string.
    rewrite split_token_blank by (auto; reflexivity).
    now rewrite IH.
Qed.

Lemma repeat_tokens (w : string) (n : nat) :
  is_token w = true -> forallb is_token (repeat w n) = true.
Proof. intros H; induction n; simpl; [reflexivity | now rewrite H]. Qed.

(** The word count of [n] words joined by single spaces is [n]. *)
Lemma word_count_join (ws : list string) :
  forallb is_token ws = true -> length (split (join " " ws)) = length ws.
Proof. intros H; now rewrite split_join. Qed.

End TextFacts.

(** ** Rounding *)

Section Rounding.

Lemma round_div_rounds (n d : nat) :
  0 < d -> rounds_half_even n d (round_div n d).
Proof.
  intros Hd. unfold rounds_half_even, round_div.
  pose proof (Nat.div_mod_eq n d) as E.
  pose proof (Nat.mod_upper_bound n d ltac:(lia)) as B.
  set (q := n / d) in *. set (r := n mod d) in *.
  destruct (2 * r <? d) eqn:H1; [apply Nat.ltb_lt in H1 | apply Nat.ltb_ge in H1].
  - split; [nia | split; [nia |]]. intros H; exfalso; nia.
  - destruct (d <? 2 * r) eqn:H2; [apply Nat.ltb_lt in H2 | apply Nat.ltb_ge in H2].
    + split; [nia | split; [nia |]]. intros H; exfalso; nia.
    + destruct (Nat.even q) eqn:H3.
      * split; [nia | split; [nia |]]. intros _. exact H3.
      * split; [nia | split; [nia |]]. intros _.
        rewrite Nat.even_succ. unfold Nat.odd. now rewrite H3.
Qed.

(** The relation determines the rounded value. *)
Lemma rounds_half_even_unique (n d r r' : nat) :
  0 < d -> rounds_half_even n d r -> rounds_half_even n d r' -> r = r'.
Proof.
  intros Hd (A & B & C) (A' & B' & C').
  destruct (Nat.lt_trichotomy r r') as [L | [E | L]]; [exfalso | exact E | exfalso].
  - assert (r' = S r) by nia. subst r'.
    assert (E1 : 2 * n = 2 * (d * r) + d) by nia.
    assert (E2 : 2 * (d * S r) = 2 * n + d) by nia.
    specialize (C (or_intror E1)). specialize (C' (or_introl E2)).
    rewrite Nat.even_succ in C'. unfold Nat.odd in C'. rewrite C in C'. discriminate.
  - assert (r = S r') by nia. subst r.
    assert (E1 : 2 * n = 2 * (d * r') + d) by nia.
    assert (E2 : 2 * (d * S r') = 2 * n + d) by nia.
    specialize (C' (or_intror E1)). specialize (C (or_introl E2)).
    rewrite Nat.even_succ in C. unfold Nat.odd in C. rewrite C' in C. discriminate.
Qed.

End Rounding.

(** C9. The reading time of an article is [max(1, round(word_count / 200))]
    with [word_count] the number of whitespace-separated tokens of the
    content: the rounded value is the integer nearest to the quotient, the
    even one at a tie.  A content of 200 words reads in 1 minute and a
    content of 450 words in 2. *)
Theorem reading_time_is_rounded_word_count :
  forall self : Article,
    let word_count := length (split (content self)) in
    reading_time self = Nat.max 1 (round_div word_count 200)
    /\ rounds_half_even word_count 200 (round_div word_count 200)
    /\ (forall r, rounds_half_even word_count 200 r -> reading_time self = Nat.max 1 r)
    /\ (word_count = 200 -> reading_time self = 1)
    /\ (word_count = 450 -> reading_time self = 2).
Proof.
  intros self word_count.
  assert (R : rounds_half_even word_count 200 (round_div word_count 200))
    by (apply round_div_rounds; lia).
  split; [reflexivity|]. split; [exact R|]. split; [|split].
  - intros r Hr. unfold reading_time. fold word_count.
    f_equal. apply (rounds_half_even_unique word_count 200); [lia | exact R | exact Hr].
  - intros E. unfold reading_time. fold word_count. rewrite E. reflexivity.
  - intros E. unfold reading_time. fold word_count. rewrite E. reflexivity.
Qed.

(** The test of the reading time: 200 and 450 words joined by spaces. *)
Lemma reading_time_of_test_contents :
  reading_time (new_article "Test Article" (Fixtures.words 200) Fixtures.testuser) = 1
  /\ reading_time (new_article "Test Article" (Fixtures.words 450) Fixtures.testuser) = 2.
Proof.
  split.
  - apply (reading_time_is_rounded_word_count
             (new_article "Test Article" (Fixtures.words 200) Fixtures.testuser)).
    simpl content. unfold Fixtures.words.
    rewrite word_count_join by (now apply repeat_tokens). apply repeat_length.
  - apply (reading_time_is_rounded_word_count
             (new_article "Test Article" (Fixtures.words 450) Fixtures.testuser)).
    simpl content. unfold Fixtures.words.
    rewrite word_count_join by (now apply repeat_tokens). apply repeat_length.
Defined.

(** ** The slug loop *)

Section SlugLoop.

Lemma str_of_nat_inj (a b : nat) : str_of_nat a = str_of_nat b -> a = b.
Proof.
  unfold str_of_nat. intros H.
  apply DecimalNat.Unsigned.to_uint_inj.
  apply (f_equal NilEmpty.uint_of_string) in H.
  rewrite !NilEmpty.usu in H. now inversion H.
Qed.

Lemma length_append (a b : string) :
  String.length (a ++ b) = String.length a + String.length b.
Proof. induction a as [|c a IH]; simpl; [reflexivity | now rewrite IH]. Qed.

Lemma append_inj_l (p x y : string) : (p ++ x = p ++ y)%string -> x = y.
Proof. induction p as [|c p IH]; simpl; intros H; [exact H | inversion H; auto]. Qed.

Lemma numbered_inj (base : string) (a b : nat) :
  numbered base a = numbered base b -> a = b.
Proof.
  unfold numbered. intros H. apply append_inj_l in H.
  simpl in H. inversion H as [H']. now apply str_of_nat_inj.
Qed.

Lemma numbered_not_base (base : string) (k : nat) : numbered base k <> base.
Proof.
  unfold numbered. intros H. apply (f_equal String.length) in H.
  rewrite length_append in H. simpl in H. lia.
Qed.

(** The slugs the loop tries: the base slug, then the numbered ones. *)
Lemma candidates_NoDup (base : string) (n : nat) :
  NoDup (base :: map (numbered base) (seq 1 n)).
Proof.
  constructor.
  - intros H. apply in_map_iff in H as [k [Hk _]]. now apply numbered_not_base in Hk.
  - generalize 1. induction n as [|n IH]; intros c; simpl; constructor.
    + intros H. apply in_map_iff in H as [k [Hk Hin]].
      apply numbered_inj in Hk. apply in_seq in Hin. lia.
    + apply IH.
Qed.

Variable exists_ : string -> bool.
Variable base : string.

(** The loop returns the first slug it tries that is free. *)
Lemma unique_slug_some (fuel : nat) (s : string) (c : nat) (r : string) :
  unique_slug fuel exists_ base s c = Some r ->
  exists_ r = false /\
  ((r = s) \/
   (exists_ s = true /\
    exists k, c <= k /\ r = numbered base k /\
              forall j, c <= j < k -> exists_ (numbered base j) = true)).
Proof.
  revert s c. induction fuel as [|fuel IH]; intros s c H; [discriminate|].
  simpl in H. destruct (exists_ s) eqn:Es.
  - apply IH in H as [Hr [-> | [Hs [k [Hk [-> Hall]]]]]].
    + split; [exact Hr|]. right. split; [reflexivity|].
      exists c. split; [lia|]. split; [reflexivity|]. intros j Hj; lia.
    + split; [exact Hr|]. right. split; [reflexivity|].
      exists k. split; [lia|]. split; [reflexivity|].
      intros j Hj. destruct (Nat.eq_dec j c) as [->|Hne]; [exact Hs | apply Hall; lia].
  - inversion H; subst. split; [exact Es | now left].
Qed.

(** The loop runs out of fuel only when every slug it tried exists. *)
Lemma unique_slug_none (fuel : nat) (s : string) (c : nat) :
  unique_slug (S fuel) exists_ base s c = None ->
  exists_ s = true /\ forall j, c <= j < c + fuel -> exists_ (numbered base j) = true.
Proof.
  revert s c. induction fuel as [|fuel IH]; intros s c H.
  - simpl in H. destruct (exists_ s); [|discriminate]. split; [reflexivity | intros; lia].
  - change (unique_slug (S (S fuel)) exists_ base s c)
      with (if exists_ s then unique_slug (S fuel) exists_ base (numbered base c) (S c)
            else Some s) in H.
    destruct (exists_ s); [|discriminate].
    apply IH in H as [Hc Hall]. split; [reflexivity|].
    intros j Hj. destruct (Nat.eq_dec j c) as [->|Hne]; [exact Hc | apply Hall; lia].
Qed.

End SlugLoop.

Section SlugFuel.

Lemma slug_exists_in (rows : list Article) (self_pk : option nat) (s : string) :
  slug_exists rows self_pk s = true -> In s (map slug rows).
Proof.
  unfold slug_exists. intros H. apply existsb_exists in H as [row [Hin Heq]].
  apply String.eqb_eq in Heq. subst s. apply in_map.
  destruct self_pk as [k|]; simpl in Hin; [apply filter_In in Hin as [Hin _]|]; exact Hin.
Qed.

(** The table is finite, so the loop finds a free slug within as many
    iterations as the table has rows, and one more. *)
Lemma unique_slug_terminates (rows : list Article) (self_pk : option nat) (base : string) :
  exists r, unique_slug (S (length rows)) (slug_exists rows self_pk) base base 1 = Some r.
Proof.
  destruct (unique_slug (S (length rows)) (slug_exists rows self_pk) base base 1) as [r|] eqn:E;
    [now exists r|].
  exfalso. apply unique_slug_none in E as [Hb Hall].
  pose proof (candidates_NoDup base (length rows)) as ND.
  assert (I : incl (base :: map (numbered base) (seq 1 (length rows))) (map slug rows)).
  { intros x [<- | Hx].
    - eapply slug_exists_in; eauto.
    - apply in_map_iff in Hx as [k [<- Hk]]. apply in_seq in Hk.
      eapply slug_exists_in. apply Hall. lia. }
  apply NoDup_incl_length in I; [|exact ND].
  simpl in I. rewrite !length_map, length_seq in I. lia.
Qed.

End SlugFuel.

(** ** Saving *)

Ltac run_handler :=
  unfold Handler.bind, Handler.ret, Handler.raise, Handler.gets, Handler.modify,
    get_table, put_table, timezone_now in *;
  simpl in *.

Section SaveFacts.

Lemma fill_excerpt_keeps (a : Article) :
  pk (fill_excerpt a) = pk a /\ slug (fill_excerpt a) = slug a /\
  title (fill_excerpt a) = title a /\ content (fill_excerpt a) = content a /\
  author (fill_excerpt a) = author a /\ status (fill_excerpt a) = status a /\
  featured (fill_excerpt a) = featured a /\ view_count (fill_excerpt a) = view_count a /\
  tags (fill_excerpt a) = tags a /\ published_at (fill_excerpt a) = published_at a /\
  created_at (fill_excerpt a) = created_at a /\ updated_at (fill_excerpt a) = updated_at a.
Proof. unfold fill_excerpt. destruct (negb (truthy (excerpt a))); simpl; repeat split. Qed.

Lemma fill_excerpt_excerpt (a : Article) :
  excerpt (fill_excerpt a) =
  if truthy (excerpt a) then excerpt a else derive_excerpt (content a).
Proof. unfold fill_excerpt. destruct (truthy (excerpt a)); reflexivity. Qed.

Lemma fill_slug_keeps (rows : list Article) (a a1 : Article) :
  fill_slug rows a = Some a1 ->
  pk a1 = pk a /\ title a1 = title a /\ content a1 = content a /\
  excerpt a1 = excerpt a /\ author a1 = author a /\ status a1 = status a /\
  featured a1 = featured a /\ view_count a1 = view_count a /\
  tags a1 = tags a /\ published_at a1 = published_at a /\
  created_at a1 = created_at a /\ updated_at a1 = updated_at a.
Proof.
  unfold fill_slug. destruct (negb (truthy (slug a))).
  - destruct (unique_slug _ _ _ _ _); [|discriminate].
    intros H; inversion H; subst; simpl; repeat split.
  - intros H; inversion H; subst; repeat split.
Qed.

(** The instance the inherited [save] returns has the attributes of the
    instance it was given. *)
Lemma model_save_returns (uf : option (list Field)) (a a' : Article) (w w' : World) :
  model_save uf a w = (w', inr a') -> same_attrs a a'.
Proof.
  unfold model_save, same_attrs, violates_unique_slug. run_handler.
  destruct uf as [[|f fs]|].
  - intros H; inversion H; subst; repeat split.
  - destruct (pk a) as [k|]; [|discriminate].
    repeat match goal with
           | |- context [if ?b then _ else _] => destruct b; simpl
           end;
      try discriminate; intros H; inversion H; subst; simpl; repeat split.
  - destruct (pk a) as [k|].
    + destruct (existsb (has_pk k) (table w)); simpl;
        (destruct (slug_exists _ _ _); [discriminate|]);
        intros H; inversion H; subst; simpl; repeat split.
    + destruct (slug_exists _ _ _); [discriminate|].
      intros H; inversion H; subst; simpl; repeat split.
Qed.

(** Saving an instance that has no key inserts it as a new row. *)
Lemma model_save_insert (a : Article) (w : World) :
  pk a = None ->
  slug_exists (table w) None (slug a) = false ->
  let a' := set_pk (set_updated_at (set_created_at a (clock w)) (S (clock w)))
              (Some (next_pk (table w))) in
  model_save None a w = (mkWorld (table w ++ [a']) (S (S (clock w))), inr a').
Proof.
  intros Hpk Hfree a'. unfold model_save, violates_unique_slug. run_handler.
  rewrite Hpk, Hfree. reflexivity.
Qed.

(** [Article.save] of a new instance without a slug always succeeds: the
    loop finds a free slug and the row is appended to the table. *)
Lemma save_new (a : Article) (w : World) :
  pk a = None -> slug a = "" ->
  exists r,
    unique_slug (S (length (table w))) (slug_exists (table w) None)
      (Slug.slugify (title a)) (Slug.slugify (title a)) 1 = Some r
    /\ let a' := set_pk (set_updated_at (set_created_at
                    (fill_excerpt (set_slug a r)) (clock w)) (S (clock w)))
                    (Some (next_pk (table w))) in
       save None a w = (mkWorld (table w ++ [a']) (S (S (clock w))), inr a').
Proof.
  intros Hpk Hslug.
  destruct (unique_slug_terminates (table w) None (Slug.slugify (title a))) as [r Hr].
  exists r. split; [exact Hr|]. intros a'.
  pose proof (unique_slug_some _ _ _ _ _ _ Hr) as [Hfree _].
  unfold save, fill_slug, Handler.bind, get_table, Handler.gets.
  rewrite Hslug, Hpk. cbn [truthy negb]. rewrite Hr.
  apply model_save_insert.
  - destruct (fill_excerpt_keeps (set_slug a r)) as [-> _]. exact Hpk.
  - destruct (fill_excerpt_keeps (set_slug a r)) as [_ [-> _]]. exact Hfree.
Qed.


End SaveFacts.

(** ** Slugs *)

Section SlugFacts.








End SlugFacts.



(** ** Excerpts *)

Section ExcerptFacts.




End ExcerptFacts.




(** ** Filters *)

Section FilterFacts.
Import Filters.

Lemma filter_Q_incl (q : Q) (rows : list Article) : incl (filter_Q q rows) rows.
Proof.
  destruct q as [f|]; simpl; [|apply incl_refl].
  intros a H. now apply filter_In in H.
Qed.

(** The condition the loop of [filter_tags] builds from the terms. *)
Lemma fold_Q_or (terms : list string) (q : Q) :
  match fold_left (fun q tag => Q_or q (Q_tags_icontains tag)) terms q with
  | None => q = None /\ terms = []
  | Some g =>
      (q <> None \/ terms <> []) /\
      forall row,
        g row = (match q with Some f => f row | None => false end)
                || existsb (fun tag => icontains (tags row) tag) terms
  end.
Proof.
  revert q. induction terms as [|t terms IH]; intros q; simpl.
  - destruct q as [f|]; [|now split].
    split; [left; discriminate | intros row; now rewrite orb_false_r].
  - specialize (IH (Q_or q (Q_tags_icontains t))).
    destruct (fold_left _ terms (Q_or q (Q_tags_icontains t))) as [g|].
    + destruct IH as [_ IH]. split; [right; discriminate|].
      intros row. rewrite IH. destruct q as [f|]; simpl; [now rewrite orb_assoc | reflexivity].
    + destruct IH as [IH _]. destruct q; discriminate.
Qed.

Lemma filter_tags_incl (rows : list Article) (value : string) :
  incl (filter_tags rows value) rows.
Proof.
  unfold filter_tags. destruct (negb (truthy value)); [apply incl_refl | apply filter_Q_incl].
Qed.

Lemma filter_search_incl (rows : list Article) (value : string) :
  incl (filter_search rows value) rows.
Proof.
  unfold filter_search. destruct (negb (truthy value)); [apply incl_refl|].
  intros a H. now apply filter_In in H.
Qed.

Lemma char_filter_incl (value : option string)
    (apply : string -> list Article -> list Article) (rows : list Article) :
  (forall v q, incl (apply v q) q) -> incl (char_filter value apply rows) rows.
Proof.
  intros H. unfold char_filter. destruct value as [v|]; [|apply incl_refl].
  destruct (truthy (strip v)); [apply H | apply incl_refl].
Qed.

Lemma value_filter_incl {A} (value : option A) (keep : A -> Article -> bool)
    (rows : list Article) :
  incl (value_filter value keep rows) rows.
Proof.
  unfold value_filter. destruct value as [v|]; [|apply incl_refl].
  intros a H. now apply filter_In in H.
Qed.

Lemma filter_incl_rows (f : Article -> bool) (rows : list Article) :
  incl (filter f rows) rows.
Proof. intros a H. now apply filter_In in H. Qed.

(** The filterset only selects rows of the collection it is given. *)
Lemma qs_incl (p : Params) (rows : list Article) : incl (qs p rows) rows.
Proof.
  unfold qs.
  repeat (first
    [ apply incl_refl
    | eapply incl_tran;
      [ first [ apply char_filter_incl; intros;
                first [ apply filter_incl_rows | apply filter_tags_incl
                      | apply filter_search_incl ]
              | apply value_filter_incl ] | ] ]).
Qed.

Lemma qs_no_params (rows : list Article) : qs no_params rows = rows.
Proof. reflexivity. Qed.

(** The search backend only selects rows of the collection it is given,
    and selects all of them when the request has no [search] parameter. *)
Lemma search_filter_incl (p : Params) (rows : list Article) :
  incl (Views.search_filter p rows) rows.
Proof.
  unfold Views.search_filter. destruct (Views.get_search_terms p); [apply incl_refl|].
  apply filter_incl_rows.
Qed.

Lemma filter_queryset_incl_qs (p : Params) (rows : list Article) :
  incl (Views.filter_queryset p rows) (qs p rows).
Proof. apply search_filter_incl. Qed.

Lemma filter_queryset_incl (p : Params) (rows : list Article) :
  incl (Views.filter_queryset p rows) rows.
Proof. eapply incl_tran; [apply filter_queryset_incl_qs | apply qs_incl]. Qed.

Lemma filter_queryset_no_search (p : Params) (rows : list Article) :
  q_search p = None -> Views.filter_queryset p rows = qs p rows.
Proof.
  intros H. unfold Views.filter_queryset, Views.search_filter, Views.get_search_terms.
  now rewrite H.
Qed.

Lemma filter_queryset_no_params (rows : list Article) :
  Views.filter_queryset no_params rows = rows.
Proof. reflexivity. Qed.

End FilterFacts.

(** ** Visibility *)

Section VisibilityFacts.
Import Views.

Lemma status_eqb_eq (a b : Status) : status_eqb a b = true <-> a = b.
Proof. destruct a, b; simpl; split; congruence. Qed.

Lemma user_eqb_eq (a b : User) : user_eqb a b = true <-> user_id a = user_id b.
Proof. unfold user_eqb. apply Nat.eqb_eq. Qed.

Lemma get_queryset_incl (who : Identity) (rows : list Article) :
  incl (get_queryset who rows) rows.
Proof.
  unfold get_queryset.
  destruct (negb (is_authenticated who)); [apply filter_incl_rows|].
  destruct (negb (user_is_staff who)); [apply filter_incl_rows | apply incl_refl].
Qed.

(** Published articles are in every identity's collection. *)
Lemma get_queryset_published (who : Identity) (rows : list Article) (a : Article) :
  In a rows -> status a = published -> In a (get_queryset who rows).
Proof.
  intros Hin Hs. unfold get_queryset.
  destruct (negb (is_authenticated who)).
  - apply filter_In. split; [exact Hin | now apply status_eqb_eq].
  - destruct (negb (user_is_staff who)); [|exact Hin].
    apply filter_In. split; [exact Hin|]. apply orb_true_iff. left. now apply status_eqb_eq.
Qed.

End VisibilityFacts.

(** C1. The collection every listing starts from is narrowed by the
    requester's identity before the filters run: without credentials it is
    exactly the published articles; for a user who is not staff exactly the
    articles that are published or whose author is that user; for staff
    every article.  The list action hands that collection to the filter
    backends, the filterset and the search, which only select: whatever
    the query parameters, the articles it shows are articles of that
    collection that the filterset keeps, and without a [search] parameter
    they are all of those.  The featured, by-author and by-tag listings
    show only articles of the collection, and so does the listing of one's
    own articles. *)
Theorem listing_is_narrowed_by_identity :
  forall (rows : list Article),
    (Views.get_queryset AnonymousUser rows
       = filter (fun a => status_eqb (status a) published) rows
     /\ forall a, In a (Views.get_queryset AnonymousUser rows)
                  <-> In a rows /\ status a = published)
    /\ (forall u, is_staff u = false ->
          Views.get_queryset (Authenticated u) rows
            = filter (fun a => status_eqb (status a) published || user_eqb (author a) u) rows
          /\ forall a, In a (Views.get_queryset (Authenticated u) rows)
                       <-> In a rows /\ (status a = published \/ user_id (author a) = user_id u))
    /\ (forall u, is_staff u = true -> Views.get_queryset (Authenticated u) rows = rows)
    /\ (forall who params clock_,
          exists shown,
            Views.list_ who params (mkWorld rows clock_) = (mkWorld rows clock_, inr shown)
            /\ incl shown (Filters.qs params (Views.get_queryset who rows))
            /\ incl (Filters.qs params (Views.get_queryset who rows))
                    (Views.get_queryset who rows)
            /\ (Filters.q_search params = None ->
                shown = Filters.qs params (Views.get_queryset who rows)))
    /\ (forall who clock_ w' shown,
          (Views.featured_ who (mkWorld rows clock_) = (w', inr shown)
           \/ Views.my_articles who (mkWorld rows clock_) = (w', inr shown)
           \/ (exists name, Views.by_author who name (mkWorld rows clock_) = (w', inr shown))
           \/ (exists tag, Views.by_tag who tag (mkWorld rows clock_) = (w', inr shown))) ->
          w' = mkWorld rows clock_ /\ incl shown (Views.get_queryset who rows)).
Proof.
  intros rows. split; [|split; [|split; [|split]]].
  - split; [reflexivity|]. intros a. unfold Views.get_queryset. simpl.
    rewrite filter_In, status_eqb_eq. reflexivity.
  - intros u Hu. unfold Views.get_queryset. simpl. rewrite Hu. simpl. split; [reflexivity|].
    intros a. rewrite filter_In, orb_true_iff, status_eqb_eq, user_eqb_eq. reflexivity.
  - intros u Hu. unfold Views.get_queryset. simpl. now rewrite Hu.
  - intros who params clock_.
    exists (Views.filter_queryset params (Views.get_queryset who rows)).
    split; [|split; [apply filter_queryset_incl_qs | split; [apply qs_incl|]]].
    + unfold Views.list_, Views.check_permissions. run_handler. reflexivity.
    + intros H. now apply filter_queryset_no_search.
  - intros who clock_ w' shown H.
    unfold Views.featured_, Views.my_articles, Views.by_author, Views.by_tag,
      Views.check_permissions in H. run_handler.
    destruct H as [H | [H | [[name H] | [tag H]]]].
    + inversion H; subst. split; [reflexivity | apply filter_incl_rows].
    + destruct who as [|u]; [discriminate|]. inversion H; subst. split; [reflexivity|].
      intros a Ha. apply filter_In in Ha as [Hin Hau]. unfold Views.get_queryset. simpl.
      destruct (is_staff u); simpl; [exact Hin|].
      apply filter_In. split; [exact Hin|]. rewrite Hau. apply orb_true_r.
    + destruct name as [name|]; [|discriminate].
      destruct (truthy name); simpl in H; [|discriminate].
      inversion H; subst. split; [reflexivity | apply filter_incl_rows].
    + destruct tag as [tag|]; [|discriminate].
      destruct (truthy tag); simpl in H; [|discriminate].
      inversion H; subst. split; [reflexivity | apply filter_incl_rows].
Qed.

(** The listing tests: of a published and a draft article of the same
    author, a request without credentials lists the published one, the
    author both, another user the published one and staff both. *)
Lemma listing_tests :
  Views.get_queryset AnonymousUser (table Fixtures.world) = [Fixtures.published_article]
  /\ Views.get_queryset (Authenticated Fixtures.testuser) (table Fixtures.world)
       = [Fixtures.published_article; Fixtures.draft_article]
  /\ Views.get_queryset (Authenticated Fixtures.otheruser) (table Fixtures.world)
       = [Fixtures.published_article]
  /\ Views.get_queryset (Authenticated Fixtures.staffuser) (table Fixtures.world)
       = [Fixtures.published_article; Fixtures.draft_article].
Proof. repeat split. Qed.

(** C8 (as the code has it).  For a tags value with at least one non-blank
    term, the tag filter keeps exactly the articles whose tags contain at
    least one of the terms, compared without case, as a substring: the
    terms are alternatives.  A value without any non-blank term, such as a
    lone comma, leaves the collection as it is. *)
Theorem tag_filter_matches_any_term :
  forall (value : string) (queryset : list Article),
    let terms := Filters.tag_terms value in
    (terms <> [] ->
       Filters.filter_tags queryset value
         = filter (fun a => existsb (fun term => icontains (tags a) term) terms) queryset
       /\ forall a,
            In a (Filters.filter_tags queryset value) <->
            In a queryset /\
            exists term, In term terms /\
                         exists p q, lower (tags a) = (p ++ lower term ++ q)%string)
    /\ (terms = [] -> Filters.filter_tags queryset value = queryset).
Proof.
  intros value queryset terms.
  assert (Htruthy : terms <> [] -> truthy value = true).
  { intros H. destruct value; [|reflexivity]. now contradiction H. }
  pose proof (fold_Q_or terms Filters.Q_empty) as F.
  split.
  - intros Hne.
    assert (E : Filters.filter_tags queryset value
                = filter (fun a => existsb (fun term => icontains (tags a) term) terms) queryset).
    { unfold Filters.filter_tags. rewrite (Htruthy Hne). simpl. fold terms.
      destruct (fold_left _ terms Filters.Q_empty) as [g|].
      - destruct F as [_ F]. simpl. apply filter_ext. intros a. now rewrite F.
      - destruct F as [_ F]. now contradiction Hne. }
    split; [exact E|]. intros a. rewrite E, filter_In, existsb_exists.
    split; intros [Hin [term [Ht Hc]]]; (split; [exact Hin|]); exists term; (split; [exact Ht|]).
    + now apply contains_spec in Hc.
    + now apply contains_spec.
  - intros Hnil. unfold Filters.filter_tags.
    destruct (negb (truthy value)); [reflexivity|]. simpl. fold terms.
    rewrite Hnil. reflexivity.
Qed.

(** The terms [Django] and [test] are alternatives: an article tagged
    [django,draft] matches although it has no [test]. *)
Lemma tag_filter_alternatives :
  Filters.tag_terms " Django, test" = ["django"; "test"]
  /\ In Fixtures.draft_article
       (Filters.filter_tags (table Fixtures.world) " Django, test").
Proof.
  split; [reflexivity|].
  apply (proj1 (tag_filter_matches_any_term " Django, test" (table Fixtures.world))).
  - discriminate.
  - split; [right; now left|]. exists "django"%string. split; [now left|].
    exists ""%string, ",draft"%string. reflexivity.
Defined.

(** C8 as stated fails: the value [,] supplies no term, so no article
    contains one of its terms, yet the filter keeps the article. *)
Lemma tag_filter_without_terms_keeps_all :
  Filters.tag_terms "," = []
  /\ In Fixtures.published_article (Filters.filter_tags [Fixtures.published_article] ",")
  /\ ~ (exists term, In term (Filters.tag_terms ",")
                     /\ icontains (tags Fixtures.published_article) term = true).
Proof.
  split; [reflexivity|]. split; [now left|].
  intros [term [[] _]].
Qed.

(** ** Rows and keys *)

Section RowFacts.

Lemma find_filter_some (p f : Article -> bool) (rows : list Article) (a : Article) :
  find p (filter f rows) = Some a -> In a rows /\ p a = true /\ f a = true.
Proof.
  intros H. apply find_some in H as [Hin Hp]. apply filter_In in Hin as [Hin Hf]. auto.
Qed.

Lemma find_filter_keep (p f : Article -> bool) (rows : list Article) (a : Article) :
  find p rows = Some a -> f a = true -> find p (filter f rows) = Some a.
Proof.
  induction rows as [|x rows IH]; simpl; [discriminate|].
  destruct (p x) eqn:Px.
  - intros E Hf. inversion E; subst. rewrite Hf. simpl. now rewrite Px.
  - intros E Hf. destruct (f x); simpl; [rewrite Px|]; auto.
Qed.

Lemma has_pk_iff (k : nat) (a : Article) : has_pk k a = true <-> pk a = Some k.
Proof.
  unfold has_pk. destruct (pk a) as [j|]; [|split; discriminate].
  rewrite Nat.eqb_eq. split; congruence.
Qed.

(** Under the key constraint a row with key [k] is the row with key [k]. *)
Lemma row_of_member (k : nat) (w : World) (a : Article) :
  pk_unique (table w) -> In a (table w) -> has_pk k a = true -> row k w = Some a.
Proof.
  intros U Hin Hk. unfold row.
  destruct (find (has_pk k) (table w)) as [b|] eqn:E.
  - apply find_some in E as [Hb Hkb]. f_equal. apply U; auto.
    apply has_pk_iff in Hk, Hkb. congruence.
  - exfalso. eapply find_none in E; eauto. congruence.
Qed.

Lemma row_member (k : nat) (w : World) (a : Article) :
  row k w = Some a -> In a (table w) /\ has_pk k a = true.
Proof. apply find_some. Qed.

(** Rewriting the rows with key [k] by a function that keeps the key. *)
Lemma find_map_rewrite (g : Article -> Article) (j k : nat) (rows : list Article) :
  (forall r, pk (g r) = pk r) ->
  find (has_pk j) (map (fun r => if has_pk k r then g r else r) rows)
  = option_map (fun r => if has_pk k r then g r else r) (find (has_pk j) rows).
Proof.
  intros Hg. induction rows as [|x rows IH]; simpl; [reflexivity|].
  assert (E : has_pk j (if has_pk k x then g x else x) = has_pk j x).
  { destruct (has_pk k x); [|reflexivity]. unfold has_pk. now rewrite Hg. }
  rewrite E. destruct (has_pk j x); [reflexivity | exact IH].
Qed.

Lemma has_pk_other (j k : nat) (a : Article) :
  j <> k -> has_pk j a = true -> has_pk k a = false.
Proof.
  intros Hne Hj. apply has_pk_iff in Hj. unfold has_pk. rewrite Hj.
  apply Nat.eqb_neq. congruence.
Qed.

Lemma row_rewrite_same (g : Article -> Article) (k : nat) (rows : list Article) (c : Time) (a : Article) :
  (forall r, pk (g r) = pk r) ->
  find (has_pk k) rows = Some a ->
  row k (mkWorld (map (fun r => if has_pk k r then g r else r) rows) c) = Some (g a).
Proof.
  intros Hg E. unfold row. simpl. rewrite find_map_rewrite by exact Hg.
  rewrite E. simpl. apply find_some in E as [_ ->]. reflexivity.
Qed.

Lemma row_rewrite_other (g : Article -> Article) (j k : nat) (rows : list Article) (c : Time) :
  (forall r, pk (g r) = pk r) -> j <> k ->
  row j (mkWorld (map (fun r => if has_pk k r then g r else r) rows) c) = find (has_pk j) rows.
Proof.
  intros Hg Hne. unfold row. simpl. rewrite find_map_rewrite by exact Hg.
  destruct (find (has_pk j) rows) as [a|] eqn:E; [|reflexivity].
  simpl. apply find_some in E as [_ Hj]. now rewrite (has_pk_other j k a Hne Hj).
Qed.

End RowFacts.

(** ** Looking an article up *)

Section ObjectFacts.
Import Views.

Lemma check_permissions_safe (action : Action) (who : Identity) (w : World) :
  action <> act_toggle_featured ->
  check_permissions action GET who w = (w, inr tt).
Proof. intros H. destruct action; try reflexivity. now contradiction H. Qed.

(** A successful lookup returns a row with the key that the requester
    may see, and leaves the world as it is. *)
Lemma get_object_ok (action : Action) (method : Method) (who : Identity)
    (params : Filters.Params) (k : nat) (w w' : World) (obj : Article) :
  get_object action method who params k w = (w', inr obj) ->
  w' = w /\ In obj (table w) /\ has_pk k obj = true
  /\ In obj (get_queryset who (table w))
  /\ (action <> act_toggle_featured -> IsAuthorOrReadOnly method who obj = true).
Proof.
  unfold get_object, check_object_permissions. run_handler.
  destruct (find (has_pk k) (filter_queryset params (get_queryset who (table w))))
    as [o|] eqn:E; [|discriminate].
  apply find_some in E as [Hin Hk]. apply filter_queryset_incl in Hin.
  pose proof (get_queryset_incl _ _ _ Hin) as Hin'.
  destruct action; simpl;
    try (destruct (IsAuthorOrReadOnly method who o) eqn:P; simpl; [|discriminate]);
    intros H; inversion H; subst; repeat split; auto; intros; congruence.
Qed.

Lemma get_object_err (action : Action) (method : Method) (who : Identity)
    (params : Filters.Params) (k : nat) (w w' : World) (e : Error) :
  get_object action method who params k w = (w', inl e) ->
  w' = w /\ (e = NotFound \/ e = permission_denied who).
Proof.
  unfold get_object, check_object_permissions. run_handler.
  destruct (find (has_pk k) _) as [o|]; [|intros H; inversion H; auto].
  destruct action; simpl;
    try (destruct (IsAuthorOrReadOnly method who o); simpl);
    intros H; inversion H; auto.
Qed.

(** Without query parameters a row the requester may see is found. *)
Lemma get_object_visible (action : Action) (method : Method) (who : Identity)
    (k : nat) (w : World) (a : Article) :
  row k w = Some a -> In a (get_queryset who (table w)) ->
  get_object action method who Filters.no_params k w
  = match check_object_permissions action method who a w with
    | (w', inl e) => (w', inl e)
    | (w', inr _) => (w', inr a)
    end.
Proof.
  intros Hrow Hvis.
  assert (E : find (has_pk k) (get_queryset who (table w)) = Some a).
  { unfold row in Hrow. unfold get_queryset in *.
    destruct (negb (is_authenticated who)).
    - apply find_filter_keep; [exact Hrow | now apply filter_In in Hvis].
    - destruct (negb (user_is_staff who)); [|exact Hrow].
      apply find_filter_keep; [exact Hrow | now apply filter_In in Hvis]. }
  unfold get_object, Handler.bind, get_table, Handler.gets.
  rewrite filter_queryset_no_params, E. unfold check_object_permissions.
  destruct (match action with act_toggle_featured => true | _ => IsAuthorOrReadOnly method who a end);
    reflexivity.
Qed.

End ObjectFacts.

(** ** Retrieval *)

Section RetrieveFacts.
Import Views.

(** What [retrieve] does once the article is found. *)
Lemma retrieve_found (who : Identity) (params : Filters.Params) (k : nat)
    (w w1 : World) (obj : Article) :
  get_object act_retrieve GET who params k w = (w1, inr obj) ->
  row k w = Some obj ->
  retrieve who params k w
  = if status_eqb (status obj) published
    then (mkWorld (map (fun r => if has_pk k r then viewed r else r) (table w)) (clock w),
          inr (viewed obj))
    else (w, inr obj).
Proof.
  intros G Hrow. pose proof (get_object_ok _ _ _ _ _ _ _ _ G) as (-> & _ & Hk & _).
  unfold retrieve, Handler.bind.
  rewrite check_permissions_safe by discriminate. rewrite G.
  destruct (status_eqb (status obj) published); [|reflexivity].
  unfold increment_view_count, refresh_from_db, Handler.bind, get_table, put_table,
    Handler.gets, Handler.modify.
  cbn [table clock].
  apply has_pk_iff in Hk. rewrite Hk.
  pose proof (row_rewrite_same viewed k (table w) (clock w) obj (fun r => eq_refl) Hrow) as R.
  unfold row in R. cbn [table] in R.
  change (fun row : Article => has_pk k row) with (has_pk k).
  change (fun row : Article =>
            if has_pk k row then set_view_count row (view_count row + 1) else row)
    with (fun r : Article => if has_pk k r then viewed r else r).
  rewrite R. reflexivity.
Qed.

Lemma retrieve_not_found (who : Identity) (params : Filters.Params) (k : nat)
    (w w1 : World) (e : Error) :
  get_object act_retrieve GET who params k w = (w1, inl e) ->
  retrieve who params k w = (w, inl e).
Proof.
  intros G. pose proof (get_object_err _ _ _ _ _ _ _ _ G) as [-> _].
  unfold retrieve, Handler.bind.
  rewrite check_permissions_safe by discriminate. now rewrite G.
Qed.

End RetrieveFacts.

(** C2. Retrieving one article adds exactly 1 to its [view_count] if and
    only if its status is published when it is read, and changes nothing
    else; retrieving an article that is not published, or failing to
    retrieve one, leaves the table as it is.  A published article is
    retrieved, and counted, for every identity. *)
Theorem retrieve_counts_published_reads :
  (forall (who : Identity) (params : Filters.Params) (k : nat) (w : World) (before : Article),
      pk_unique (table w) ->
      row k w = Some before ->
      forall w' result,
        Views.retrieve who params k w = (w', result) ->
        (status before <> published -> w' = w)
        /\ (forall e, result = inl e -> w' = w)
        /\ (forall shown, result = inr shown ->
              row k w' = Some shown
              /\ same_but_view_count before shown
              /\ (view_count shown = view_count before + 1 <-> status before = published)
              /\ (status before <> published -> view_count shown = view_count before))
        /\ (forall j, j <> k -> row j w' = row j w)
        /\ clock w' = clock w)
  /\
  (forall (who : Identity) (k : nat) (w : World) (before : Article),
      row k w = Some before ->
      status before = published ->
      exists w' shown,
        Views.retrieve who Filters.no_params k w = (w', inr shown)
        /\ row k w' = Some shown
        /\ view_count shown = view_count before + 1).
Proof.
  split.
  - intros who params k w before U Hrow w' result R.
    destruct (Views.get_object Views.act_retrieve GET who params k w) as [w1 [e|obj]] eqn:G.
    + rewrite (retrieve_not_found _ _ _ _ _ _ G) in R. inversion R; subst.
      repeat split; auto; intros; discriminate.
    + pose proof (get_object_ok _ _ _ _ _ _ _ _ G) as (_ & Hin & Hk & _).
      pose proof (row_of_member k w obj U Hin Hk) as Hrow'.
      rewrite Hrow in Hrow'. inversion Hrow'; subst obj.
      rewrite (retrieve_found _ _ _ _ _ _ G Hrow) in R.
      destruct (status_eqb (status before) published) eqn:S.
      * apply status_eqb_eq in S. inversion R; subst. clear R.
        split; [congruence|]. split; [intros; discriminate|]. split; [|split].
        -- intros shown E. inversion E; subst shown.
           split; [apply row_rewrite_same; [reflexivity | exact Hrow]|].
           split; [unfold same_but_view_count, viewed; simpl; repeat split|].
           split; [split; [intros; exact S | intros; reflexivity] | congruence].
        -- intros j Hj. apply row_rewrite_other; [reflexivity | exact Hj].
        -- reflexivity.
      * assert (Hnp : status before <> published).
        { intros E. apply status_eqb_eq in E. congruence. }
        inversion R; subst. clear R.
        split; [reflexivity|]. split; [reflexivity|]. split; [|split; reflexivity].
        intros shown E. inversion E; subst shown.
        split; [exact Hrow|]. split; [unfold same_but_view_count; repeat split|].
        split; [split; [intros; lia | intros; contradiction] | reflexivity].
  - intros who k w before Hrow Hpub.
    pose proof (row_member _ _ _ Hrow) as [Hin Hk].
    pose proof (get_queryset_published who _ _ Hin Hpub) as Hvis.
    pose proof (get_object_visible Views.act_retrieve GET who k w before Hrow Hvis) as G.
    unfold Views.check_object_permissions in G. simpl in G.
    unfold Handler.ret in G.
    rewrite (retrieve_found _ _ _ _ _ _ G Hrow).
    apply status_eqb_eq in Hpub. rewrite Hpub.
    eexists _, _. split; [reflexivity|].
    split; [apply row_rewrite_same; [reflexivity | exact Hrow] | reflexivity].
Qed.

(** The retrieval test: the published article is read without credentials
    and its view count goes from 0 to 1; the draft is not shown. *)
Lemma retrieve_test :
  (exists w' shown,
      Views.retrieve AnonymousUser Filters.no_params 1 Fixtures.world = (w', inr shown)
      /\ row 1 w' = Some shown /\ view_count shown = 1)
  /\ Views.retrieve AnonymousUser Filters.no_params 2 Fixtures.world
     = (Fixtures.world, inl NotFound)
  /\ (exists shown,
        Views.retrieve (Authenticated Fixtures.testuser) Filters.no_params 2 Fixtures.world
        = (Fixtures.world, inr shown) /\ view_count shown = 0).
Proof.
  split; [|split].
  - exact (proj2 retrieve_counts_published_reads AnonymousUser 1 Fixtures.world
             Fixtures.published_article eq_refl eq_refl).
  - reflexivity.
  - eexists. split; reflexivity.
Defined.

Lemma fixtures_pk_unique : pk_unique (table Fixtures.world).
Proof.
  intros a b [<- | [<- | []]] [<- | [<- | []]] H; try reflexivity; discriminate.
Qed.

(** ** The featured flag *)

Section ToggleFacts.
Import Views.

Lemma fill_slug_total (rows : list Article) (a : Article) :
  exists a1, fill_slug rows a = Some a1.
Proof.
  unfold fill_slug. destruct (negb (truthy (slug a))); [|now exists a].
  destruct (unique_slug_terminates rows (pk a) (Slug.slugify (title a))) as [r ->].
  now eexists.
Qed.

(** Saving with [update_fields=['featured']] writes that column only. *)
Lemma save_featured_only (a : Article) (k : nat) (w : World) :
  pk a = Some k -> existsb (has_pk k) (table w) = true ->
  exists a',
    save (Some [f_featured]) a w
    = (mkWorld (map (flagged (featured a) k) (table w)) (clock w), inr a')
    /\ featured a' = featured a.
Proof.
  intros Hpk Hex.
  destruct (fill_slug_total (table w) a) as [a1 H1].
  pose proof (fill_slug_keeps _ _ _ H1) as (Hpk1 & _ & _ & _ & _ & _ & Hf1 & _).
  destruct (fill_excerpt_keeps a1) as (Hpk2 & _ & _ & _ & _ & _ & Hf2 & _).
  exists (fill_excerpt a1). split; [|congruence].
  unfold save, Handler.bind, get_table, Handler.gets. rewrite H1.
  unfold model_save, Handler.bind, get_table, Handler.gets.
  rewrite Hpk2, Hpk1, Hpk. cbn [existsb field_eqb orb andb Handler.ret].
  rewrite Hex. unfold put_table, Handler.modify, Handler.ret.
  cbn [table clock write_fields fold_left write_field].
  rewrite Hf2, Hf1. reflexivity.
Qed.

Lemma staff_is_authenticated (who : Identity) :
  user_is_staff who = true -> is_authenticated who = true.
Proof. destruct who; [discriminate | reflexivity]. Qed.

(** What [toggle_featured] does for staff once the article is found. *)
Lemma toggle_found (who : Identity) (params : Filters.Params) (k : nat)
    (w w1 : World) (obj : Article) :
  user_is_staff who = true ->
  get_object act_toggle_featured POST who params k w = (w1, inr obj) ->
  toggle_featured who params k w
  = (mkWorld (map (flagged (negb (featured obj)) k) (table w)) (clock w),
     inr (negb (featured obj))).
Proof.
  intros Hstaff G.
  pose proof (get_object_ok _ _ _ _ _ _ _ _ G) as (-> & Hin & Hk & _).
  unfold toggle_featured, Handler.bind, check_permissions, IsAuthenticated.
  rewrite (staff_is_authenticated _ Hstaff), Hstaff. cbn [negb Handler.ret]. rewrite G.
  destruct (save_featured_only (set_featured obj (negb (featured obj))) k w) as [a' [S F]].
  - simpl. now apply has_pk_iff.
  - apply existsb_exists. now exists obj.
  - simpl in S. rewrite S. unfold Handler.ret. simpl in F. now rewrite F.
Qed.

Lemma toggle_failed (who : Identity) (params : Filters.Params) (k : nat)
    (w w' : World) (e : Error) :
  toggle_featured who params k w = (w', inl e) -> w' = w.
Proof.
  unfold toggle_featured, Handler.bind, check_permissions, IsAuthenticated.
  destruct (is_authenticated who); [|intros H; now inversion H].
  cbn [Handler.ret]. destruct (user_is_staff who) eqn:Hstaff; [|intros H; now inversion H].
  cbn [negb].
  destruct (get_object act_toggle_featured POST who params k w) as [w1 [e1|obj]] eqn:G.
  - apply get_object_err in G as [-> _]. intros H; now inversion H.
  - pose proof (toggle_found who params k w w1 obj Hstaff G) as T.
    unfold toggle_featured, Handler.bind, check_permissions, IsAuthenticated in T.
    rewrite (staff_is_authenticated _ Hstaff), Hstaff in T. cbn [negb Handler.ret] in T.
    rewrite G in T. rewrite T. discriminate.
Qed.

Lemma toggle_needs_staff (who : Identity) (params : Filters.Params) (k : nat)
    (w w' : World) (answer : bool) :
  toggle_featured who params k w = (w', inr answer) -> user_is_staff who = true.
Proof.
  unfold toggle_featured, Handler.bind, check_permissions, IsAuthenticated.
  destruct (is_authenticated who); [|discriminate].
  cbn [Handler.ret]. destruct (user_is_staff who); [reflexivity | discriminate].
Qed.

Lemma set_featured_back (a : Article) (v : bool) :
  set_featured (set_featured a v) (featured a) = a.
Proof. now destruct a. Qed.

(** Two flips of the row with key [k] give the table back. *)
Lemma flagged_twice (k : nat) (rows : list Article) (before : Article) (v : bool) :
  pk_unique rows -> In before rows -> has_pk k before = true ->
  map (flagged (featured before) k) (map (flagged v k) rows) = rows.
Proof.
  intros U Hin Hk. rewrite map_map. rewrite <- (map_id rows) at 2.
  apply map_ext_in. intros r Hr. unfold flagged.
  destruct (has_pk k r) eqn:Hkr.
  - assert (r = before) as ->.
    { apply U; auto. apply has_pk_iff in Hk, Hkr. congruence. }
    simpl. unfold has_pk in *. simpl. rewrite Hk. apply set_featured_back.
  - now rewrite Hkr.
Qed.

End ToggleFacts.

(** C10. The featured toggle, which only staff can run, flips the
    [featured] column of the article and nothing else: title, slug,
    content, excerpt, status, author, view count, tags and the three
    timestamps of the row are as before, and so is every other row.
    Running it a second time gives the table back as it was, the flag
    included.  For staff the toggle of an existing article always
    succeeds; a toggle that fails changes nothing. *)
Theorem toggle_featured_flips_only_featured :
  forall (who : Identity) (params : Filters.Params) (k : nat) (w : World) (before : Article),
    pk_unique (table w) ->
    row k w = Some before ->
    (forall w' answer,
        Views.toggle_featured who params k w = (w', inr answer) ->
        user_is_staff who = true
        /\ answer = negb (featured before)
        /\ (exists after,
              row k w' = Some after
              /\ same_but_featured before after
              /\ featured after = negb (featured before))
        /\ (forall j, j <> k -> row j w' = row j w)
        /\ clock w' = clock w
        /\ (forall w'' answer',
              Views.toggle_featured who params k w' = (w'', inr answer') ->
              w'' = w /\ answer' = featured before))
    /\ (user_is_staff who = true ->
        exists w' w'',
          Views.toggle_featured who Filters.no_params k w = (w', inr (negb (featured before)))
          /\ Views.toggle_featured who Filters.no_params k w' = (w'', inr (featured before))
          /\ w'' = w)
    /\ (forall w' e, Views.toggle_featured who params k w = (w', inl e) -> w' = w).
Proof.
  intros who params k w before U Hrow.
  pose proof (row_member _ _ _ Hrow) as [Hin Hk].
  assert (Second : forall params' w'' answer',
             Views.toggle_featured who params' k
               (mkWorld (map (flagged (negb (featured before)) k) (table w)) (clock w))
             = (w'', inr answer') ->
             w'' = w /\ answer' = featured before).
  { intros params' w'' answer' T2.
    pose proof (toggle_needs_staff _ _ _ _ _ _ T2) as Hstaff.
    destruct (Views.get_object Views.act_toggle_featured POST who params' k
                (mkWorld (map (flagged (negb (featured before)) k) (table w)) (clock w)))
      as [w2 [e|obj]] eqn:G.
    - exfalso. unfold Views.toggle_featured, Handler.bind, Views.check_permissions,
        IsAuthenticated in T2.
      rewrite (staff_is_authenticated _ Hstaff), Hstaff in T2.
      cbn [negb Handler.ret] in T2. rewrite G in T2. discriminate.
    - rewrite (toggle_found _ _ _ _ _ _ Hstaff G) in T2.
      pose proof (get_object_ok _ _ _ _ _ _ _ _ G) as (_ & Hin2 & Hk2 & _).
      cbn [table] in Hin2. apply in_map_iff in Hin2 as [r [Hr Hrin]].
      assert (r = before) as ->.
      { apply U; auto. unfold flagged in Hr.
        destruct (has_pk k r) eqn:Hkr.
        - apply has_pk_iff in Hk, Hkr. congruence.
        - subst obj. congruence. }
      unfold flagged in Hr. rewrite Hk in Hr. subst obj. simpl in T2.
      rewrite negb_involutive in T2. inversion T2; subst. clear T2.
      split; [|reflexivity].
      rewrite (flagged_twice k (table w) before _ U Hin Hk). now destruct w. }
  split; [|split].
  - intros w' answer T.
    pose proof (toggle_needs_staff _ _ _ _ _ _ T) as Hstaff.
    split; [exact Hstaff|].
    destruct (Views.get_object Views.act_toggle_featured POST who params k w)
      as [w1 [e|obj]] eqn:G.
    + exfalso. unfold Views.toggle_featured, Handler.bind, Views.check_permissions,
        IsAuthenticated in T.
      rewrite (staff_is_authenticated _ Hstaff), Hstaff in T.
      cbn [negb Handler.ret] in T. rewrite G in T. discriminate.
    + pose proof (get_object_ok _ _ _ _ _ _ _ _ G) as (_ & Hino & Hko & _).
      pose proof (row_of_member k w obj U Hino Hko) as Hrow'.
      rewrite Hrow in Hrow'. inversion Hrow'; subst obj.
      rewrite (toggle_found _ _ _ _ _ _ Hstaff G) in T. inversion T; subst. clear T.
      split; [reflexivity|]. split; [|split; [|split]].
      * exists (set_featured before (negb (featured before))).
        split; [apply (row_rewrite_same (fun r => set_featured r (negb (featured before))));
                [reflexivity | exact Hrow]|].
        split; [unfold same_but_featured; simpl; repeat split | reflexivity].
      * intros j Hj.
        apply (row_rewrite_other (fun r => set_featured r (negb (featured before))));
          [reflexivity | exact Hj].
      * reflexivity.
      * intros w'' answer'. apply Second.
  - intros Hstaff.
    assert (Hvis : In before (Views.get_queryset who (table w))).
    { unfold Views.get_queryset. rewrite (staff_is_authenticated _ Hstaff), Hstaff. exact Hin. }
    pose proof (get_object_visible Views.act_toggle_featured POST who k w before Hrow Hvis) as G.
    unfold Views.check_object_permissions, Handler.ret in G.
    pose proof (toggle_found _ _ _ _ _ _ Hstaff G) as T1.
    set (w1 := mkWorld (map (flagged (negb (featured before)) k) (table w)) (clock w)) in *.
    set (after := set_featured before (negb (featured before))).
    assert (Hrow1 : row k w1 = Some after).
    { apply (row_rewrite_same (fun r => set_featured r (negb (featured before))));
        [reflexivity | exact Hrow]. }
    assert (Hvis1 : In after (Views.get_queryset who (table w1))).
    { unfold Views.get_queryset. rewrite (staff_is_authenticated _ Hstaff), Hstaff.
      cbn [negb]. now apply row_member in Hrow1. }
    pose proof (get_object_visible Views.act_toggle_featured POST who k w1 after Hrow1 Hvis1) as G1.
    unfold Views.check_object_permissions, Handler.ret in G1.
    pose proof (toggle_found _ _ _ _ _ _ Hstaff G1) as T2.
    exists w1. eexists. split; [exact T1|].
    unfold after in T2 at 2. simpl featured in T2. rewrite negb_involutive in T2.
    split; [exact T2|].
    destruct (Second Filters.no_params _ _ T2) as [E _]. exact E.
  - intros w' e. apply toggle_failed.
Qed.

(** The draft of the fixtures, featured by staff and unfeatured again; a
    user who is not staff is refused. *)
Lemma toggle_featured_test :
  (exists w' w'',
      Views.toggle_featured (Authenticated Fixtures.staffuser) Filters.no_params 2 Fixtures.world
      = (w', inr true)
      /\ Views.toggle_featured (Authenticated Fixtures.staffuser) Filters.no_params 2 w'
         = (w'', inr false)
      /\ w'' = Fixtures.world)
  /\ Views.toggle_featured (Authenticated Fixtures.testuser) Filters.no_params 2 Fixtures.world
     = (Fixtures.world, inl PermissionDenied).
Proof.
  split; [|reflexivity].
  exact (proj1 (proj2 (toggle_featured_flips_only_featured
                         (Authenticated Fixtures.staffuser) Filters.no_params 2
                         Fixtures.world Fixtures.draft_article
                         fixtures_pk_unique eq_refl)) eq_refl).
Defined.

(** ** Validation and update *)

Section UpdateFacts.
Import Views.

(** Accepted data went through every field without an error; the
    attributes are what the fields gave. *)
Lemma to_internal_value_fields (cls : SerializerClass) (partial : bool)
    (inst : option Article) (rows : list Article) (data : Data) (attrs : Attrs) :
  to_internal_value cls partial inst rows data = inr attrs ->
  run_field "title" true partial (d_title data) title_field (validate_title inst rows)
  = ([], a_title attrs)
  /\ run_field "content" true partial (d_content data) content_field validate_content
     = ([], a_content attrs)
  /\ run_field "excerpt" false partial (d_excerpt data) excerpt_field Some
     = ([], a_excerpt attrs)
  /\ run_field "status" false partial (d_status data) Some Some = ([], a_status attrs)
  /\ run_field "featured" false partial (d_featured data) Some Some = ([], a_featured attrs)
  /\ run_field "tags" false partial (d_tags data) tags_field validate_tags
     = ([], a_tags attrs)
  /\ (if published_at_read_only cls then a_published_at attrs = None
      else run_field "published_at" false partial (d_published_at data) Some Some
           = ([], a_published_at attrs)).
Proof.
  unfold to_internal_value.
  destruct (run_field "title" _ _ _ _ _) as [e1 v1].
  destruct (run_field "content" _ _ _ _ _) as [e2 v2].
  destruct (run_field "excerpt" _ _ _ _ _) as [e3 v3].
  destruct (run_field "status" _ _ _ _ _) as [e4 v4].
  destruct (run_field "featured" _ _ _ _ _) as [e5 v5].
  destruct (run_field "tags" _ _ _ _ _) as [e6 v6].
  destruct (published_at_read_only cls).
  - destruct (e1 ++ e2 ++ e3 ++ e4 ++ e5 ++ e6 ++ []) eqn:E; [|discriminate].
    apply app_eq_nil in E as [-> E]. apply app_eq_nil in E as [-> E].
    apply app_eq_nil in E as [-> E]. apply app_eq_nil in E as [-> E].
    apply app_eq_nil in E as [-> E]. apply app_eq_nil in E as [-> _].
    intros H; inversion H; subst; simpl. repeat split.
  - destruct (run_field "published_at" _ _ _ _ _) as [e7 v7].
    destruct (e1 ++ e2 ++ e3 ++ e4 ++ e5 ++ e6 ++ e7) eqn:E; [|discriminate].
    apply app_eq_nil in E as [-> E]. apply app_eq_nil in E as [-> E].
    apply app_eq_nil in E as [-> E]. apply app_eq_nil in E as [-> E].
    apply app_eq_nil in E as [-> E]. apply app_eq_nil in E as [-> ->].
    intros H; inversion H; subst; simpl. repeat split.
Qed.

(** A field without checks gives the value the key carries. *)
Lemma run_field_plain {A : Type} (name : string) (required partial : bool)
    (d : option (Raw A)) (v : option A) :
  run_field name required partial d Some Some = ([], v) -> v = given d.
Proof.
  unfold run_field. destruct d as [[x|]|]; simpl.
  - intros H; now inversion H.
  - discriminate.
  - destruct (required && negb partial); intros H; now inversion H.
Qed.

Lemma to_internal_value_ok (cls : SerializerClass) (partial : bool)
    (inst : option Article) (rows : list Article) (data : Data) (attrs : Attrs) :
  to_internal_value cls partial inst rows data = inr attrs ->
  a_status attrs = given (d_status data)
  /\ a_featured attrs = given (d_featured data)
  /\ a_published_at attrs = (if published_at_read_only cls then None else given (d_published_at data)).
Proof.
  intros H. apply to_internal_value_fields in H as (_ & _ & _ & Hs & Hf & _ & Hp).
  split; [now apply run_field_plain in Hs|]. split; [now apply run_field_plain in Hf|].
  destruct (published_at_read_only cls); [exact Hp | now apply run_field_plain in Hp].
Qed.

Lemma setattrs_keeps (a : Article) (attrs : Attrs) :
  pk (setattrs a attrs) = pk a
  /\ slug (setattrs a attrs) = slug a
  /\ author (setattrs a attrs) = author a
  /\ view_count (setattrs a attrs) = view_count a
  /\ created_at (setattrs a attrs) = created_at a
  /\ status (setattrs a attrs)
     = match a_status attrs with Some s => s | None => status a end
  /\ featured (setattrs a attrs)
     = match a_featured attrs with Some v => v | None => featured a end
  /\ published_at (setattrs a attrs)
     = match a_published_at attrs with Some v => v | None => published_at a end.
Proof.
  unfold setattrs.
  destruct (a_published_at attrs), (a_tags attrs), (a_featured attrs), (a_status attrs),
    (a_excerpt attrs), (a_content attrs), (a_title attrs); simpl; repeat split.
Qed.

(** [Article.save] fails only in the storage layer, or for an instance
    without a key that is saved with [update_fields]. *)
Lemma model_save_errors (uf : option (list Field)) (a : Article) (w w' : World) (e : Error) :
  model_save uf a w = (w', inl e) ->
  e = IntegrityError \/ e = DatabaseError \/ (e = ValueError /\ uf <> None /\ pk a = None).
Proof.
  unfold model_save, violates_unique_slug. run_handler.
  destruct uf as [[|f fs]|].
  - discriminate.
  - destruct (pk a) as [k|].
    + repeat match goal with
             | |- context [if ?b then _ else _] => destruct b; simpl
             end;
        intros H; inversion H; auto.
    + intros H; inversion H. right. right. repeat split. discriminate.
  - destruct (pk a) as [k|].
    + destruct (existsb (has_pk k) (table w)); simpl;
        (destruct (slug_exists _ _ _); intros H; inversion H; auto).
    + destruct (slug_exists _ _ _); intros H; inversion H; auto.
Qed.

Lemma save_errors (uf : option (list Field)) (a : Article) (w w' : World) (e : Error) :
  save uf a w = (w', inl e) ->
  e = IntegrityError \/ e = DatabaseError \/ (e = ValueError /\ uf <> None /\ pk a = None).
Proof.
  unfold save, Handler.bind, get_table, Handler.gets.
  destruct (fill_slug_total (table w) a) as [a1 F]. rewrite F. intros H.
  apply model_save_errors in H as [H | [H | (H & Hu & Hk)]]; auto.
  right. right. repeat split; auto.
  destruct (fill_excerpt_keeps a1) as (E1 & _).
  apply fill_slug_keeps in F as (E2 & _). congruence.
Qed.

Lemma find_map_replace (k : nat) (s : Article) (rows : list Article) :
  existsb (has_pk k) rows = true -> has_pk k s = true ->
  find (has_pk k) (map (fun r => if has_pk k r then s else r) rows) = Some s.
Proof.
  intros Hex Hs. induction rows as [|x rows IH]; simpl in *; [discriminate|].
  destruct (has_pk k x) eqn:Hx; simpl.
  - now rewrite Hs.
  - rewrite Hx. apply IH. exact Hex.
Qed.

Lemma find_snoc (k : nat) (s : Article) (rows : list Article) :
  existsb (has_pk k) rows = false -> has_pk k s = true ->
  find (has_pk k) (rows ++ [s]) = Some s.
Proof.
  intros Hex Hs. induction rows as [|x rows IH]; simpl in *.
  - now rewrite Hs.
  - apply orb_false_iff in Hex as [Hx Hex]. rewrite Hx. now apply IH.
Qed.

(** A full save of an instance with key [k] leaves it as the row [k]. *)
Lemma model_save_row (a saved : Article) (k : nat) (w w' : World) :
  pk a = Some k ->
  model_save None a w = (w', inr saved) ->
  row k w' = Some saved
  /\ clock w < clock w'
  /\ same_attrs a saved.
Proof.
  intros Hpk H. pose proof (model_save_returns _ _ _ _ _ H) as Hsame.
  revert H. unfold model_save, violates_unique_slug, row. run_handler.
  rewrite Hpk.
  destruct (existsb (has_pk k) (table w)) eqn:Hex; simpl;
    (destruct (slug_exists _ _ _); [discriminate|]);
    intros H; inversion H; subst; simpl; (split; [|split; [lia | exact Hsame]]).
  - apply find_map_replace; [exact Hex|]. apply has_pk_iff. simpl. exact Hpk.
  - apply find_snoc; [exact Hex|]. apply has_pk_iff. simpl. exact Hpk.
Qed.

Lemma save_row (a saved : Article) (k : nat) (w w' : World) :
  pk a = Some k ->
  save None a w = (w', inr saved) ->
  row k w' = Some saved
  /\ clock w < clock w'
  /\ status saved = status a /\ published_at saved = published_at a
  /\ featured saved = featured a.
Proof.
  intros Hpk. unfold save, Handler.bind, get_table, Handler.gets.
  destruct (fill_slug (table w) a) as [a1|] eqn:F; [|discriminate].
  pose proof (fill_slug_keeps _ _ _ F) as (Hpk1 & _ & _ & _ & _ & Hs1 & Hf1 & _ & _ & Hp1 & _).
  destruct (fill_excerpt_keeps a1) as (Hpk2 & _ & _ & _ & _ & Hs2 & Hf2 & _ & _ & Hp2 & _).
  intros H. apply (model_save_row _ _ k) in H; [|congruence].
  destruct H as (Hrow & Hclock & Hsame).
  destruct Hsame as (_ & _ & _ & _ & _ & Hs & Hf & _ & _ & Hp).
  repeat split; auto; congruence.
Qed.

End UpdateFacts.

Section UpdateRun.
Import Views.

(** A successful update: the article was found, the requester is its
    author, the data passed validation, and the instance with the
    validated attributes, [published_at] decided by the status change, was
    saved. *)
Lemma update_runs (partial : bool) (who : Identity) (params : Filters.Params)
    (k : nat) (data : Data) (w w' : World) (saved : Article) :
  update partial who params k data w = (w', inr saved) ->
  exists obj attrs w2,
    In obj (table w) /\ has_pk k obj = true
    /\ is_user who (author obj) = true
    /\ save None (setattrs obj attrs) w2 = (w', inr saved)
    /\ clock w <= clock w2
    /\ a_status attrs = given (d_status data)
    /\ (given (d_status data) = Some published -> status obj <> published ->
        exists t, a_published_at attrs = Some (Some t) /\ clock w <= t < clock w2)
    /\ (given (d_status data) = Some draft -> status obj = published ->
        a_published_at attrs = Some None)
    /\ (~ (given (d_status data) = Some published /\ status obj <> published) ->
        ~ (given (d_status data) = Some draft /\ status obj = published) ->
        a_published_at attrs = given (d_published_at data)).
Proof.
  unfold update, Handler.bind.
  set (action := if partial then act_partial_update else act_update).
  set (method := if partial then PATCH else PUT).
  assert (Hact : action <> act_toggle_featured) by (unfold action; destruct partial; discriminate).
  assert (Hmeth : SAFE_METHODS method = false) by (unfold method; destruct partial; reflexivity).
  assert (Hcls : get_serializer_class action = ArticleUpdateSerializer)
    by (unfold action; destruct partial; reflexivity).
  destruct (check_permissions action method who w) as [w0 [e|[]]] eqn:P; [discriminate|].
  assert (w0 = w) as ->.
  { unfold check_permissions in P. destruct action, (IsAuthenticatedOrReadOnly method who),
      (IsAuthenticated who); inversion P; reflexivity. }
  destruct (get_object action method who params k w) as [w1 [e|obj]] eqn:G; [discriminate|].
  pose proof (get_object_ok _ _ _ _ _ _ _ _ G) as (-> & Hin & Hk & _ & Hperm).
  specialize (Hperm Hact). unfold IsAuthorOrReadOnly in Hperm. rewrite Hmeth in Hperm.
  rewrite Hcls. unfold is_valid, Handler.bind, get_table, Handler.gets.
  destruct (to_internal_value ArticleUpdateSerializer partial (Some obj) (table w) data)
    as [errors|attrs0] eqn:V; [discriminate|].
  pose proof (to_internal_value_ok _ _ _ _ _ _ V) as (Hs0 & _ & Hp0). simpl in Hp0.
  unfold validate, perform_update, Serializers.update, timezone_now, Handler.bind, Handler.ret.
  rewrite Hs0.
  destruct (given (d_status data)) as [[| |]|] eqn:Sd;
    destruct (status_eqb (status obj) published) eqn:So; simpl;
    intros H;
    first [ assert (Hso : status obj = published) by (now apply status_eqb_eq)
          | assert (Hso : status obj <> published)
              by (intros E; apply status_eqb_eq in E; congruence) ];
    repeat (rewrite ?Hs0, ?So in H; simpl in H);
    eexists obj, _, _;
    (split; [exact Hin|]); (split; [exact Hk|]); (split; [exact Hperm|]);
    (split; [exact H|]); simpl;
    (split; [lia|]); (split; [try exact Hs0|]);
    (split; [intros E1 E2; try congruence; (eexists; split; [reflexivity | lia])|]);
    (split; [intros E1 E2; try congruence|]);
    try (intros N1 N2; first [ exact Hp0
                             | exfalso; apply N1; split; [reflexivity | exact Hso]
                             | exfalso; apply N2; split; [reflexivity | exact Hso] ]).
Qed.
End UpdateRun.

(** C3 (as the code has it).  A successful update that changes the status
    into published from another status sets [published_at] to a reading of
    the clock taken during the update; one that changes it from published
    into draft clears [published_at]; both whatever the request carries for
    [published_at].  Every other update, the changes from published to
    archived and from archived to draft included, leaves [published_at] as
    it was unless the request itself carries a value for [published_at],
    which is then written. *)
Theorem update_decides_published_at :
  forall (partial : bool) (who : Identity) (params : Filters.Params) (k : nat)
         (data : Data) (w w' : World) (saved : Article),
    pk_unique (table w) ->
    Views.update partial who params k data w = (w', inr saved) ->
    exists before,
      row k w = Some before
      /\ row k w' = Some saved
      /\ status saved = match given (d_status data) with Some s => s | None => status before end
      /\ (given (d_status data) = Some published -> status before <> published ->
          exists t, published_at saved = Some t /\ clock w <= t < clock w')
      /\ (given (d_status data) = Some draft -> status before = published ->
          published_at saved = None)
      /\ (~ (given (d_status data) = Some published /\ status before <> published) ->
          ~ (given (d_status data) = Some draft /\ status before = published) ->
          published_at saved
          = match given (d_published_at data) with Some v => v | None => published_at before end).
Proof.
  intros partial who params k data w w' saved U H.
  apply update_runs in H
    as (obj & attrs & w2 & Hin & Hk & _ & Hsave & Hclock & Hs & Hpub & Hdraft & Hother).
  exists obj. split; [now apply row_of_member|].
  destruct (setattrs_keeps obj attrs) as (Hpk & _ & _ & _ & _ & Hst & _ & Hp).
  apply (save_row _ _ k) in Hsave; [|rewrite Hpk; now apply has_pk_iff].
  destruct Hsave as (Hrow & Hlt & Hs' & Hp' & _).
  split; [exact Hrow|]. rewrite Hs', Hp', Hst, Hp, Hs.
  split; [reflexivity|]. split; [|split].
  - intros E1 E2. destruct (Hpub E1 E2) as [t [-> Ht]]. exists t. split; [reflexivity | lia].
  - intros E1 E2. now rewrite (Hdraft E1 E2).
  - intros N1 N2. now rewrite (Hother N1 N2).
Qed.

(** The author publishes the draft of the fixtures: [published_at] is
    stamped with a reading of the clock taken during the update. *)
Lemma publish_draft_test :
  exists w1 saved1 t,
    Views.update true (Authenticated Fixtures.testuser) Filters.no_params 2
      (readable_data (mkAttrs None None None (Some published) None None None)) Fixtures.world
    = (w1, inr saved1)
    /\ status saved1 = published
    /\ published_at saved1 = Some t /\ clock Fixtures.world <= t < clock w1.
Proof.
  destruct (Views.update true (Authenticated Fixtures.testuser) Filters.no_params 2
              (readable_data (mkAttrs None None None (Some published) None None None)) Fixtures.world)
    as [w1 [e|saved1]] eqn:E1; [vm_compute in E1; discriminate|].
  destruct (update_decides_published_at _ _ _ _ _ _ _ _ fixtures_pk_unique E1)
    as (before & Hb & _ & Hs1 & Hpub & _).
  change (Some Fixtures.draft_article = Some before) in Hb.
  inversion Hb; subst before.
  destruct (Hpub eq_refl ltac:(discriminate)) as [t [Ht Hc]].
  exists w1, saved1, t. repeat split; try assumption; lia.
Defined.

(** Taking a published article back to draft clears [published_at], also
    when the request carries a value for it. *)
Lemma unpublish_test :
  exists w' saved,
    Views.update true (Authenticated Fixtures.testuser) Filters.no_params 1
      (readable_data (mkAttrs None None None (Some draft) None None (Some (Some 7))))
      (mkWorld [set_published_at Fixtures.published_article (Some 1)] 4)
    = (w', inr saved)
    /\ status saved = draft /\ published_at saved = None.
Proof.
  eexists _, _. split; [vm_compute; reflexivity|]. split; reflexivity.
Qed.

(** C3 as stated fails: the author archives the draft with a request that
    also carries [published_at]; the status does not cross the published
    boundary, yet [published_at] changes from absent to the given value. *)
Lemma archiving_with_published_at_writes_it :
  exists w' saved,
    Views.update true (Authenticated Fixtures.testuser) Filters.no_params 2
      (readable_data (mkAttrs None None None (Some archived) None None (Some (Some 7)))) Fixtures.world
    = (w', inr saved)
    /\ row 2 Fixtures.world = Some Fixtures.draft_article
    /\ row 2 w' = Some saved
    /\ status Fixtures.draft_article = draft
    /\ status saved = archived
    /\ published_at Fixtures.draft_article = None
    /\ published_at saved = Some 7.
Proof.
  eexists _, _. split; [vm_compute; reflexivity|]. repeat split.
Qed.

(** ** Who may change an article *)

Section MutationFacts.
Import Views.

(** A row outside the requester's collection is not found, whatever the
    action. *)
Lemma get_object_invisible (action : Action) (method : Method) (who : Identity)
    (params : Filters.Params) (k : nat) (w : World) (before : Article) :
  pk_unique (table w) -> row k w = Some before ->
  ~ In before (get_queryset who (table w)) ->
  get_object action method who params k w = (w, inl NotFound).
Proof.
  intros U Hrow Hinv.
  destruct (get_object action method who params k w) as [w1 [e|obj]] eqn:G.
  - unfold get_object, Handler.bind, get_table, Handler.gets in *.
    destruct (find (has_pk k) (filter_queryset params (get_queryset who (table w))))
      as [o|] eqn:F.
    + exfalso. apply find_some in F as [Hin Hk]. apply filter_queryset_incl in Hin.
      pose proof (row_of_member k w o U (get_queryset_incl _ _ _ Hin) Hk) as R.
      rewrite Hrow in R. inversion R; subst. contradiction.
    + unfold Handler.raise in G. now inversion G.
  - exfalso. pose proof (get_object_ok _ _ _ _ _ _ _ _ G) as (_ & Hin & Hk & Hvis & _).
    pose proof (row_of_member k w obj U Hin Hk) as R.
    rewrite Hrow in R. inversion R; subst. contradiction.
Qed.

Lemma non_author_get_object (action : Action) (method : Method) (u : User)
    (k : nat) (w : World) (before : Article) :
  action <> act_toggle_featured -> SAFE_METHODS method = false ->
  pk_unique (table w) -> row k w = Some before ->
  user_eqb (author before) u = false ->
  get_object action method (Authenticated u) Filters.no_params k w
  = (w, inl (refusal (Authenticated u) before)).
Proof.
  intros Hact Hmeth U Hrow Hna. unfold refusal.
  pose proof (row_member _ _ _ Hrow) as [Hin Hk].
  destruct (is_staff u || status_eqb (status before) published) eqn:V.
  - assert (Hvis : In before (get_queryset (Authenticated u) (table w))).
    { unfold get_queryset. simpl. destruct (is_staff u); simpl; [exact Hin|].
      simpl in V. apply filter_In. split; [exact Hin|]. now rewrite V. }
    rewrite (get_object_visible action method _ k w before Hrow Hvis).
    unfold check_object_permissions, IsAuthorOrReadOnly. rewrite Hmeth. simpl. rewrite Hna.
    destruct action; try reflexivity. now contradiction Hact.
  - apply orb_false_iff in V as [Hs Hp].
    apply (get_object_invisible _ _ _ _ _ _ before U Hrow).
    unfold get_queryset. simpl. rewrite Hs. simpl. intros H.
    apply filter_In in H as [_ H]. rewrite Hp, Hna in H. discriminate.
Qed.

(** Nobody but the author changes or deletes an article: the attempt ends
    with an error and leaves the world as it is. *)
Lemma non_author_cannot_mutate (who : Identity) (k : nat) (w : World) (before : Article) :
  pk_unique (table w) -> row k w = Some before ->
  is_user who (author before) = false ->
  (forall partial data,
      update partial who Filters.no_params k data w = (w, inl (refusal who before)))
  /\ destroy who Filters.no_params k w = (w, inl (refusal who before)).
Proof.
  intros U Hrow Hna. split.
  - intros partial data. unfold update, Handler.bind.
    destruct who as [|u]; [destruct partial; reflexivity|].
    assert (P : forall action method,
               action <> act_toggle_featured ->
               check_permissions action method (Authenticated u) w = (w, inr tt)).
    { intros action method Hact. unfold check_permissions, IsAuthenticatedOrReadOnly.
      simpl. rewrite orb_true_r. destruct action; reflexivity. }
    destruct partial.
    + rewrite P by discriminate.
      now rewrite (non_author_get_object _ _ u k w before) by (auto; discriminate).
    + rewrite P by discriminate.
      now rewrite (non_author_get_object _ _ u k w before) by (auto; discriminate).
  - unfold destroy, Handler.bind. destruct who as [|u]; [reflexivity|].
    unfold check_permissions, IsAuthenticatedOrReadOnly. simpl.
    now rewrite (non_author_get_object _ _ u k w before) by (auto; discriminate).
Qed.

End MutationFacts.

(** C4.  The update test of the repository, a user who is neither author
    nor staff patching the draft of another user, ends with 404 Not Found
    where the claim and the test expect the 403 of an authorization
    failure; so does the deletion.  The table is unchanged.  The same
    requests against the published article, and those of staff against
    the draft, end with 403; the featured toggle of staff succeeds. *)
Theorem update_of_others_draft_is_not_found :
  Views.update true (Authenticated Fixtures.otheruser) Filters.no_params 2
    (readable_data (mkAttrs (Some "Hacked Title") None None None None None None)) Fixtures.world
  = (Fixtures.world, inl NotFound)
  /\ Views.destroy (Authenticated Fixtures.otheruser) Filters.no_params 2 Fixtures.world
     = (Fixtures.world, inl NotFound)
  /\ Views.update true (Authenticated Fixtures.otheruser) Filters.no_params 1
       (readable_data (mkAttrs (Some "Hacked Title") None None None None None None)) Fixtures.world
     = (Fixtures.world, inl PermissionDenied)
  /\ Views.update true (Authenticated Fixtures.staffuser) Filters.no_params 2
       (readable_data (mkAttrs (Some "Hacked Title") None None None None None None)) Fixtures.world
     = (Fixtures.world, inl PermissionDenied)
  /\ Views.destroy (Authenticated Fixtures.staffuser) Filters.no_params 2 Fixtures.world
     = (Fixtures.world, inl PermissionDenied)
  /\ (exists w', Views.toggle_featured (Authenticated Fixtures.staffuser) Filters.no_params 2
                   Fixtures.world = (w', inr true)).
Proof.
  repeat split. eexists. vm_compute. reflexivity.
Qed.

(** ** Stripping *)

Section StripFacts.
Variable p : ascii -> bool.

Lemma lstrip_by_head (s : string) :
  lstrip_by p s = EmptyString
  \/ exists c s', lstrip_by p s = String c s' /\ p c = false.
Proof.
  induction s as [|c s IH]; simpl; [now left|].
  destruct (p c) eqn:Pc; [exact IH | right; now exists c, s].
Qed.

Lemma rstrip_by_cons (c : ascii) (s : string) :
  p c = false -> rstrip_by p (String c s) = String c (rstrip_by p s).
Proof. intros Pc. simpl. destruct (rstrip_by p s); [now rewrite Pc | reflexivity]. Qed.

Lemma rstrip_by_idempotent (s : string) :
  rstrip_by p (rstrip_by p s) = rstrip_by p s.
Proof.
  induction s as [|c s IH]; [reflexivity|].
  simpl. destruct (rstrip_by p s) as [|d r] eqn:R.
  - destruct (p c) eqn:Pc; [reflexivity|]. simpl. now rewrite Pc.
  - change (rstrip_by p (String c (String d r)))
      with (match rstrip_by p (String d r) with
            | EmptyString => if p c then EmptyString else String c EmptyString
            | r' => String c r'
            end).
    now rewrite IH.
Qed.

Lemma strip_by_idempotent (s : string) :
  strip_by p (strip_by p s) = strip_by p s.
Proof.
  unfold strip_by. destruct (lstrip_by_head s) as [-> | [c [s' [-> Pc]]]]; [reflexivity|].
  rewrite (rstrip_by_cons c s' Pc). simpl. rewrite Pc.
  rewrite <- (rstrip_by_cons c s' Pc). apply rstrip_by_idempotent.
Qed.

End StripFacts.

Lemma strip_idempotent (s : string) : strip (strip s) = strip s.
Proof. apply strip_by_idempotent. Qed.

Lemma truthy_length (s : string) : truthy s = false <-> String.length s = 0.
Proof. destruct s; simpl; split; congruence. Qed.

(** ** The pieces of a tags value *)

Section TagPieces.

Lemma lstrip_rstrip_comm (p : ascii -> bool) (s : string) :
  lstrip_by p (rstrip_by p s) = rstrip_by p (lstrip_by p s).
Proof.
  induction s as [|c s IH]; [reflexivity|].
  destruct (p c) eqn:Pc.
  - simpl. rewrite Pc. destruct (rstrip_by p s) as [|d r] eqn:R.
    + simpl in IH. now rewrite <- IH.
    + rewrite <- IH. simpl. now rewrite Pc.
  - rewrite (rstrip_by_cons p c s Pc). simpl. rewrite Pc.
    now rewrite (rstrip_by_cons p c s Pc).
Qed.

(** The stripped piece is decided by the piece stripped on the right. *)
Lemma strip_of_rstrip (w : string) : strip w = lstrip_by is_space (rstrip_by is_space w).
Proof. unfold strip, strip_by. symmetry. apply lstrip_rstrip_comm. Qed.

Lemma split_on_nonempty (sep : ascii) (s : string) : split_on sep s <> [].
Proof.
  destruct s as [|c s]; simpl; [discriminate|].
  destruct (Ascii.eqb c sep); [discriminate|].
  destruct (split_on sep s); discriminate.
Qed.

Lemma comma_not_space : is_space "," = false.
Proof. reflexivity. Qed.

(** A blank in front of the value only pads its first piece. *)
Lemma split_on_blank_head (c : ascii) (s : string) :
  is_space c = true ->
  map strip (split_on "," (String c s)) = map strip (split_on "," s).
Proof.
  intros Hc. simpl.
  destruct (Ascii.eqb c ",") eqn:E.
  - apply Ascii.eqb_eq in E. subst c. discriminate.
  - pose proof (split_on_nonempty "," s) as Hne.
    destruct (split_on "," s) as [|w ws]; [contradiction|].
    simpl. f_equal. unfold strip, strip_by. simpl. now rewrite Hc.
Qed.

Lemma split_on_lstrip (s : string) :
  map strip (split_on "," (lstrip_by is_space s)) = map strip (split_on "," s).
Proof.
  induction s as [|c s IH]; [reflexivity|].
  simpl lstrip_by. destruct (is_space c) eqn:Hc; [|reflexivity].
  now rewrite IH, split_on_blank_head.
Qed.

Lemma rstrip_empty_no_comma (s : string) :
  rstrip_by is_space s = EmptyString -> split_on "," s = [s].
Proof.
  induction s as [|c s IH]; [reflexivity|].
  simpl. destruct (rstrip_by is_space s) eqn:R; [|discriminate].
  destruct (is_space c) eqn:Hc; [|discriminate]. intros _.
  destruct (Ascii.eqb c ",") eqn:E.
  - apply Ascii.eqb_eq in E. subst c. discriminate.
  - now rewrite IH.
Qed.

Lemma split_on_cons_rstrip (c : ascii) (s1 s2 : string) :
  map (rstrip_by is_space) (split_on "," s1) = map (rstrip_by is_space) (split_on "," s2) ->
  map (rstrip_by is_space) (split_on "," (String c s1))
  = map (rstrip_by is_space) (split_on "," (String c s2)).
Proof.
  intros H. simpl. destruct (Ascii.eqb c ","); [simpl; now rewrite H|].
  pose proof (split_on_nonempty "," s1) as N1. pose proof (split_on_nonempty "," s2) as N2.
  destruct (split_on "," s1) as [|w1 ws1]; [contradiction|].
  destruct (split_on "," s2) as [|w2 ws2]; [contradiction|].
  simpl in *. inversion H as [[Hw Hws]]. now rewrite Hw.
Qed.

Lemma split_on_rstrip (s : string) :
  map (rstrip_by is_space) (split_on "," (rstrip_by is_space s))
  = map (rstrip_by is_space) (split_on "," s).
Proof.
  induction s as [|c s IH]; [reflexivity|].
  destruct (rstrip_by is_space s) as [|d r] eqn:R.
  - pose proof (rstrip_empty_no_comma s R) as Hs.
    simpl rstrip_by. rewrite R.
    destruct (is_space c) eqn:Hc.
    + assert (E : Ascii.eqb c "," = false).
      { destruct (Ascii.eqb c ",") eqn:E; [|reflexivity].
        apply Ascii.eqb_eq in E. subst c. discriminate. }
      simpl. rewrite E, Hs. simpl. rewrite R, Hc. reflexivity.
    + apply (split_on_cons_rstrip c EmptyString s). rewrite Hs. simpl. now rewrite R.
  - assert (E : rstrip_by is_space (String c s) = String c (rstrip_by is_space s)).
    { simpl. now rewrite R. }
    rewrite E, R. apply split_on_cons_rstrip. exact IH.
Qed.

Lemma map_strip_of_rstrip (l1 l2 : list string) :
  map (rstrip_by is_space) l1 = map (rstrip_by is_space) l2 -> map strip l1 = map strip l2.
Proof.
  revert l2. induction l1 as [|a l1 IH]; intros [|b l2] H; try discriminate; [reflexivity|].
  simpl in *. inversion H as [[Ha Hl]]. rewrite !strip_of_rstrip, Ha. f_equal. now apply IH.
Qed.

(** Stripping the value changes no piece once the pieces are stripped. *)
Lemma split_on_strip (s : string) :
  map strip (split_on "," (strip s)) = map strip (split_on "," s).
Proof.
  unfold strip at 2, strip_by.
  rewrite (map_strip_of_rstrip _ _ (split_on_rstrip (lstrip_by is_space s))).
  apply split_on_lstrip.
Qed.

Lemma filter_map_strip (l : list string) :
  map (fun tag => lower (strip tag)) (filter (fun tag => truthy (strip tag)) l)
  = map lower (filter truthy (map strip l)).
Proof.
  induction l as [|a l IH]; simpl; [reflexivity|].
  destruct (truthy (strip a)); simpl; now rewrite IH.
Qed.

(** The cleaned tags of a value are those of the stripped value. *)
Lemma clean_tags_strip (v : string) : clean_tags (strip v) = clean_tags v.
Proof. unfold clean_tags. now rewrite !filter_map_strip, split_on_strip. Qed.

End TagPieces.

(** ** Field validation *)

Section FieldFacts.

Lemma run_field_errors {A : Type} (name : string) (required partial : bool)
    (data : option (Raw A)) (field validate_method : A -> option A) :
  fst (run_field name required partial data field validate_method)
  = if match data with
       | None => required && negb partial
       | Some unreadable => true
       | Some (readable v) =>
           match field v with
           | None => true
           | Some v' => match validate_method v' with None => true | Some _ => false end
           end
       end
    then [name] else [].
Proof.
  unfold run_field. destruct data as [[v|]|].
  - destruct (field v) as [v'|]; [|reflexivity].
    destruct (validate_method v'); reflexivity.
  - reflexivity.
  - destruct (required && negb partial); reflexivity.
Qed.

(** A field without checks refuses only what it cannot read. *)
Lemma plain_errors {A : Type} (name : string) (partial : bool) (data : option (Raw A)) :
  fst (run_field name false partial data Some Some)
  = if refused data then [name] else [].
Proof. destruct data as [[v|]|]; reflexivity. Qed.

Lemma char_field_result (allow_blank : bool) (mx mn : option nat) (v : string) :
  char_field allow_blank mx mn v
  = if negb (truthy (strip v)) then (if allow_blank then Some (strip v) else None)
    else if match mx with Some n => n <? String.length (strip v) | None => false end
            || match mn with Some n => String.length (strip v) <? n | None => false end
            || has_nul (strip v)
         then None else Some (strip v).
Proof. reflexivity. Qed.

(** Stripping takes blanks away, never a NUL character. *)
Lemma has_nul_lstrip (s : string) : has_nul (lstrip_by is_space s) = has_nul s.
Proof.
  induction s as [|c s IH]; [reflexivity|].
  simpl. destruct (is_space c) eqn:Hc; [|reflexivity].
  rewrite IH. destruct (Ascii.eqb c NUL) eqn:E; [|reflexivity].
  apply Ascii.eqb_eq in E. subst c. discriminate.
Qed.

Lemma has_nul_rstrip (s : string) : has_nul (rstrip_by is_space s) = has_nul s.
Proof.
  induction s as [|c s IH]; [reflexivity|].
  simpl. destruct (rstrip_by is_space s) as [|d r] eqn:R.
  - rewrite <- IH. simpl. destruct (is_space c) eqn:Hc; [|reflexivity].
    simpl. destruct (Ascii.eqb c NUL) eqn:E; [|reflexivity].
    apply Ascii.eqb_eq in E. subst c. discriminate.
  - rewrite <- IH. reflexivity.
Qed.

Lemma has_nul_strip (s : string) : has_nul (strip s) = has_nul s.
Proof. unfold strip, strip_by. now rewrite has_nul_rstrip, has_nul_lstrip. Qed.

Lemma blank_has_no_nul (s : string) : truthy (strip s) = false -> has_nul s = false.
Proof.
  intros T. rewrite <- has_nul_strip. destruct (strip s); [reflexivity | discriminate].
Qed.

Lemma filter_nonempty (f : Article -> bool) (rows : list Article) :
  match filter f rows with [] => false | _ :: _ => true end = existsb f rows.
Proof.
  induction rows as [|x rows IH]; simpl; [reflexivity|].
  destruct (f x); simpl; [reflexivity | exact IH].
Qed.

Lemma filter_filter (f g : Article -> bool) (rows : list Article) :
  filter g (filter f rows) = filter (fun r => f r && g r) rows.
Proof.
  induction rows as [|x rows IH]; simpl; [reflexivity|].
  destruct (f x); simpl; [destruct (g x); now rewrite IH | exact IH].
Qed.

(** [validate_title] refuses a title that is too short or taken. *)
Lemma validate_title_result (instance : option Article) (rows : list Article) (t : string) :
  validate_title instance rows t
  = if (String.length (strip t) <? 5)
       || existsb (fun row => iexact (title row) (strip t) && negb (is_instance instance row)) rows
    then None else Some (strip t).
Proof.
  unfold validate_title. destruct (String.length (strip t) <? 5); [reflexivity|]. simpl.
  rewrite <- filter_nonempty.
  assert (E : match instance with
              | Some inst => exclude_pk (pk inst) (filter (fun row => iexact (title row) (strip t)) rows)
              | None => filter (fun row => iexact (title row) (strip t)) rows
              end
              = filter (fun row => iexact (title row) (strip t) && negb (is_instance instance row)) rows).
  { destruct instance as [inst|]; simpl.
    - unfold exclude_pk. destruct (pk inst) as [k|].
      + apply filter_filter.
      + apply filter_ext. intros r. now rewrite andb_true_r.
    - apply filter_ext. intros r. now rewrite andb_true_r. }
  rewrite E.
  destruct (filter (fun row => iexact (title row) (strip t) && negb (is_instance instance row))
              rows); reflexivity.
Qed.

Lemma title_errors (partial : bool) (instance : option Article) (rows : list Article)
    (data : Data) :
  fst (run_field "title" true partial (d_title data) title_field (validate_title instance rows))
  = if (negb partial && missing (d_title data)) || refused (d_title data)
       || with_nul (given (d_title data)) || longer_than 200 (given (d_title data))
       || title_too_short data || title_taken instance rows data
    then ["title"] else [].
Proof.
  rewrite run_field_errors.
  unfold title_too_short, title_taken, longer_than, shorter_than, missing, refused, with_nul.
  destruct (d_title data) as [[t|]|]; simpl.
  - rewrite andb_false_r. simpl. unfold title_field. rewrite char_field_result.
    destruct (truthy (strip t)) eqn:T; simpl.
    + rewrite has_nul_strip. destruct (has_nul t); simpl.
      * now rewrite !orb_true_r.
      * rewrite !orb_false_r.
        destruct (200 <? String.length (strip t)); simpl; [reflexivity|].
        destruct (String.length (strip t) <? 5) eqn:L; simpl; [reflexivity|].
        rewrite validate_title_result, strip_idempotent, L. simpl.
        destruct (existsb _ rows); reflexivity.
    + rewrite (blank_has_no_nul t T). apply truthy_length in T. rewrite T. reflexivity.
  - now rewrite andb_false_r.
  - rewrite andb_true_r, !orb_false_r. reflexivity.
Qed.

Lemma content_errors (partial : bool) (data : Data) :
  fst (run_field "content" true partial (d_content data) content_field validate_content)
  = if (negb partial && missing (d_content data)) || refused (d_content data)
       || with_nul (given (d_content data)) || content_too_short data
    then ["content"] else [].
Proof.
  rewrite run_field_errors. unfold content_too_short, shorter_than, missing, refused, with_nul.
  destruct (d_content data) as [[c|]|]; simpl.
  - rewrite andb_false_r. simpl. unfold content_field. rewrite char_field_result.
    destruct (truthy (strip c)) eqn:T; simpl.
    + rewrite has_nul_strip. destruct (has_nul c); simpl.
      * now rewrite !orb_true_r.
      * rewrite !orb_false_r.
        destruct (String.length (strip c) <? 10) eqn:L; simpl; [reflexivity|].
        unfold validate_content. now rewrite strip_idempotent, L.
    + rewrite (blank_has_no_nul c T). apply truthy_length in T. rewrite T. reflexivity.
  - now rewrite andb_false_r.
  - rewrite andb_true_r, !orb_false_r. reflexivity.
Qed.

Lemma excerpt_errors (partial : bool) (data : Data) :
  fst (run_field "excerpt" false partial (d_excerpt data) excerpt_field Some)
  = if refused (d_excerpt data) || with_nul (given (d_excerpt data))
       || longer_than 500 (given (d_excerpt data))
    then ["excerpt"] else [].
Proof.
  rewrite run_field_errors. unfold longer_than, refused, with_nul.
  destruct (d_excerpt data) as [[v|]|]; simpl; [|reflexivity|reflexivity].
  unfold excerpt_field. rewrite char_field_result.
  destruct (truthy (strip v)) eqn:T; simpl.
  - rewrite has_nul_strip. destruct (has_nul v); simpl.
    + now rewrite !orb_true_r.
    + rewrite !orb_false_r. destruct (500 <? String.length (strip v)); reflexivity.
  - rewrite (blank_has_no_nul v T). apply truthy_length in T. rewrite T. reflexivity.
Qed.

Lemma tags_errors (partial : bool) (data : Data) :
  fst (run_field "tags" false partial (d_tags data) tags_field validate_tags)
  = if refused (d_tags data) || with_nul (given (d_tags data))
       || longer_than 200 (given (d_tags data)) || too_many_tags data
    then ["tags"] else [].
Proof.
  rewrite run_field_errors. unfold longer_than, too_many_tags, refused, with_nul.
  destruct (d_tags data) as [[v|]|]; simpl; [|reflexivity|reflexivity].
  unfold tags_field. rewrite char_field_result.
  destruct (truthy (strip v)) eqn:T; simpl.
  - rewrite has_nul_strip. destruct (has_nul v); simpl.
    + now rewrite !orb_true_r.
    + rewrite !orb_false_r. destruct (200 <? String.length (strip v)); simpl; [reflexivity|].
      unfold validate_tags. rewrite T, clean_tags_strip.
      destruct (10 <? length (clean_tags v)); reflexivity.
  - rewrite (blank_has_no_nul v T). unfold validate_tags. rewrite T.
    rewrite <- (clean_tags_strip v).
    destruct (strip v); [reflexivity | discriminate].
Qed.

Lemma published_at_errors (cls : SerializerClass) (partial : bool) (data : Data) :
  fst (if published_at_read_only cls then ([], None)
       else run_field "published_at" false partial (d_published_at data) Some Some)
  = if negb (published_at_read_only cls) && refused (d_published_at data)
    then ["published_at"] else [].
Proof.
  destruct (published_at_read_only cls); [reflexivity|]. simpl. apply plain_errors.
Qed.

(** The errors of [to_internal_value], field by field. *)
Lemma to_internal_value_errors (cls : SerializerClass) (partial : bool)
    (instance : option Article) (rows : list Article) (data : Data) :
  let errors :=
    fst (run_field "title" true partial (d_title data) title_field (validate_title instance rows))
    ++ fst (run_field "content" true partial (d_content data) content_field validate_content)
    ++ fst (run_field "excerpt" false partial (d_excerpt data) excerpt_field Some)
    ++ fst (run_field "status" false partial (d_status data) Some Some)
    ++ fst (run_field "featured" false partial (d_featured data) Some Some)
    ++ fst (run_field "tags" false partial (d_tags data) tags_field validate_tags)
    ++ fst (if published_at_read_only cls then ([], None)
            else run_field "published_at" false partial (d_published_at data) Some Some) in
  match to_internal_value cls partial instance rows data with
  | inl fields => fields = errors /\ errors <> []
  | inr _ => errors = []
  end.
Proof.
  unfold to_internal_value.
  destruct (run_field "title" _ _ _ _ _) as [e1 v1].
  destruct (run_field "content" _ _ _ _ _) as [e2 v2].
  destruct (run_field "excerpt" _ _ _ _ _) as [e3 v3].
  destruct (run_field "status" _ _ _ _ _) as [e4 v4].
  destruct (run_field "featured" _ _ _ _ _) as [e5 v5].
  destruct (run_field "tags" _ _ _ _ _) as [e6 v6].
  destruct (if published_at_read_only cls then _ else _) as [e7 v7].
  simpl. destruct (e1 ++ e2 ++ e3 ++ e4 ++ e5 ++ e6 ++ e7);
    [reflexivity | split; [reflexivity | discriminate]].
Qed.

End FieldFacts.

(** ** Validation in the handlers *)

Section ValidationFacts.
Import Views.

Lemma errors_nonempty (a b c d e f g : bool) (x y z t u v r : string) :
  ((if a then [x] else []) ++ (if b then [y] else []) ++ (if c then [z] else [])
   ++ (if d then [t] else []) ++ (if e then [u] else []) ++ (if f then [v] else [])
   ++ (if g then [r] else []) = [])
  <-> a || b || c || d || e || f || g = false.
Proof. destruct a, b, c, d, e, f, g; simpl; split; congruence. Qed.

Lemma rejected_fields (cls : SerializerClass) (partial : bool) (instance : option Article)
    (rows : list Article) (data : Data) :
  ((negb partial && missing (d_title data)) || refused (d_title data)
   || with_nul (given (d_title data)) || longer_than 200 (given (d_title data))
   || title_too_short data || title_taken instance rows data)
  || ((negb partial && missing (d_content data)) || refused (d_content data)
      || with_nul (given (d_content data)) || content_too_short data)
  || (refused (d_excerpt data) || with_nul (given (d_excerpt data))
      || longer_than 500 (given (d_excerpt data)))
  || refused (d_status data)
  || refused (d_featured data)
  || (refused (d_tags data) || with_nul (given (d_tags data))
      || longer_than 200 (given (d_tags data)) || too_many_tags data)
  || (negb (published_at_read_only cls) && refused (d_published_at data))
  = rejected cls partial instance rows data.
Proof.
  unfold rejected, required_missing, unreadable_value, nul_character, over_max_length.
  apply eq_true_iff_eq.
  rewrite ?orb_true_iff, ?andb_true_iff, ?orb_true_iff. tauto.
Qed.

(** The serializer refuses the data exactly in the cases of [rejected],
    and names the fields at fault. *)
Lemma to_internal_value_rejects (cls : SerializerClass) (partial : bool)
    (instance : option Article) (rows : list Article) (data : Data) :
  match to_internal_value cls partial instance rows data with
  | inl fields =>
      rejected cls partial instance rows data = true
      /\ fields <> [] /\ incl fields field_names
  | inr _ => rejected cls partial instance rows data = false
  end.
Proof.
  pose proof (to_internal_value_errors cls partial instance rows data) as H.
  cbv zeta in H.
  rewrite title_errors, content_errors, excerpt_errors, !plain_errors, tags_errors,
    published_at_errors in H.
  rewrite <- rejected_fields.
  destruct (to_internal_value cls partial instance rows data) as [fields|attrs].
  - destruct H as [-> Hne]. split; [|split; [exact Hne|]].
    + match goal with |- ?X = true => destruct X eqn:E end; [reflexivity|].
      exfalso. apply Hne. now apply errors_nonempty.
    + intros f Hf. unfold field_names.
      repeat (apply in_app_or in Hf as [Hf | Hf]);
        match type of Hf with
        | In _ (if ?b then _ else _) => destruct b; simpl in Hf
        end;
        repeat (destruct Hf as [<- | Hf]); simpl; tauto.
  - now apply errors_nonempty in H.
Qed.

(** [is_valid] raises exactly the errors of [to_internal_value], before
    anything is written and before the clock is read. *)
Lemma is_valid_result (cls : SerializerClass) (partial : bool)
    (instance : option Article) (data : Data) (w : World) :
  match to_internal_value cls partial instance (table w) data with
  | inl fields => is_valid cls partial instance data w = (w, inl (ValidationError fields))
  | inr attrs => is_valid cls partial instance data w = validate instance attrs w
  end.
Proof.
  unfold is_valid, Handler.bind, get_table, Handler.gets.
  destruct (to_internal_value cls partial instance (table w) data); reflexivity.
Qed.

Lemma validate_succeeds (instance : option Article) (attrs : Attrs) (w : World) :
  exists w1 attrs1, validate instance attrs w = (w1, inr attrs1) /\ table w1 = table w.
Proof.
  unfold validate, timezone_now, Handler.bind, Handler.ret.
  destruct (a_status attrs) as [[| |]|]; try (eexists _, _; split; reflexivity).
  destruct (match instance with
            | Some inst => negb (status_eqb (status inst) published)
            | None => true
            end); eexists _, _; split; reflexivity.
Qed.

(** The create action of an authenticated user. *)
Lemma create_validates (user : User) (data : Data) (w : World) :
  (rejected ArticleCreateSerializer false None (table w) data = true ->
   exists fields,
     Views.create (Authenticated user) data w = (w, inl (ValidationError fields))
     /\ fields <> [] /\ incl fields field_names)
  /\ (rejected ArticleCreateSerializer false None (table w) data = false ->
      exists w' created,
        Views.create (Authenticated user) data w = (w', inr created)
        /\ In created (table w') /\ author created = user).
Proof.
  pose proof (to_internal_value_rejects ArticleCreateSerializer false None (table w) data) as R.
  pose proof (is_valid_result ArticleCreateSerializer false None data w) as V.
  unfold Views.create, Handler.bind, check_permissions. simpl.
  destruct (to_internal_value ArticleCreateSerializer false None (table w) data)
    as [fields|attrs].
  - destruct R as (Hr & Hne & Hincl). split; [|congruence].
    intros _. exists fields. rewrite V. auto.
  - split; [congruence|]. intros _. rewrite V.
    destruct (validate_succeeds None attrs w) as (w1 & attrs1 & -> & _).
    unfold Serializers.create.
    destruct (setattrs_keeps (new_article "" "" user) attrs1)
      as (Hpk & Hslug & Hauthor & _).
    destruct (save_new (setattrs (new_article "" "" user) attrs1) w1 Hpk Hslug)
      as [r [_ S]].
    rewrite S. eexists _, _. split; [reflexivity|]. split.
    + simpl. apply in_or_app. right. now left.
    + simpl. destruct (fill_excerpt_keeps (set_slug (setattrs (new_article "" "" user) attrs1) r))
        as (_ & _ & _ & _ & -> & _). simpl. exact Hauthor.
Qed.

End ValidationFacts.

Section UpdateValidation.
Import Views.

Lemma perform_update_errors (obj : Article) (attrs : Attrs) (w w' : World) (e : Error) :
  perform_update obj attrs w = (w', inl e) -> e = IntegrityError \/ e = DatabaseError.
Proof.
  unfold perform_update, Serializers.update, timezone_now, Handler.bind.
  destruct (a_status attrs) as [[| |]|]; simpl;
    try destruct (status_eqb (status obj) published); simpl;
    intros H; apply save_errors in H as [H | [H | (_ & Hu & _)]];
    first [ now contradiction Hu | auto ].
Qed.

Lemma update_steps (partial : bool) (who : Identity) (params : Filters.Params)
    (k : nat) (data : Data) (w : World) :
  let action := if partial then act_partial_update else act_update in
  let method := if partial then PATCH else PUT in
  update partial who params k data w
  = if is_authenticated who then
      match get_object action method who params k w with
      | (w1, inl e) => (w1, inl e)
      | (w1, inr obj) =>
          match is_valid ArticleUpdateSerializer partial (Some obj) data w1 with
          | (w2, inl e) => (w2, inl e)
          | (w2, inr attrs) => perform_update obj attrs w2
          end
      end
    else (w, inl NotAuthenticated).
Proof.
  unfold update, Handler.bind, check_permissions, IsAuthenticatedOrReadOnly, permission_denied.
  destruct partial; simpl; destruct (is_authenticated who); reflexivity.
Qed.

(** An update that ends with a validation error has written nothing, and
    the data is refused for the article it addresses. *)
Lemma update_validation_error (partial : bool) (who : Identity) (params : Filters.Params)
    (k : nat) (data : Data) (w w' : World) (fields : list string) :
  update partial who params k data w = (w', inl (ValidationError fields)) ->
  w' = w /\ fields <> [] /\ incl fields field_names
  /\ exists obj, In obj (table w) /\ has_pk k obj = true
                 /\ rejected ArticleUpdateSerializer partial (Some obj) (table w) data = true.
Proof.
  rewrite update_steps. cbv zeta.
  destruct (is_authenticated who); [|discriminate].
  destruct (get_object _ _ who params k w) as [w1 [e|obj]] eqn:G.
  - apply get_object_err in G as [_ [-> | ->]]; [discriminate|].
    unfold permission_denied. destruct (is_authenticated who); discriminate.
  - pose proof (get_object_ok _ _ _ _ _ _ _ _ G) as (-> & Hin & Hk & _).
    pose proof (to_internal_value_rejects ArticleUpdateSerializer partial (Some obj) (table w) data) as R.
    pose proof (is_valid_result ArticleUpdateSerializer partial (Some obj) data w) as V.
    destruct (to_internal_value ArticleUpdateSerializer partial (Some obj) (table w) data)
      as [errors|attrs].
    + rewrite V. intros H. inversion H; subst. destruct R as (Hr & Hne & Hincl).
      repeat split; auto. now exists obj.
    + rewrite V. destruct (validate_succeeds (Some obj) attrs w) as (w1 & attrs1 & -> & _).
      intros H. apply perform_update_errors in H as [H | H]; discriminate.
Qed.

(** The author's update without query parameters ends with a validation
    error exactly when the data is refused. *)
Lemma author_update_validates (partial : bool) (user : User) (k : nat) (data : Data)
    (w : World) (before : Article) :
  row k w = Some before -> user_eqb (author before) user = true ->
  (rejected ArticleUpdateSerializer partial (Some before) (table w) data = true ->
   exists fields,
     update partial (Authenticated user) Filters.no_params k data w
     = (w, inl (ValidationError fields)))
  /\ (rejected ArticleUpdateSerializer partial (Some before) (table w) data = false ->
      forall w' fields,
        update partial (Authenticated user) Filters.no_params k data w
        <> (w', inl (ValidationError fields))).
Proof.
  intros Hrow Hauthor.
  pose proof (row_member _ _ _ Hrow) as [Hin Hk].
  assert (Hvis : In before (get_queryset (Authenticated user) (table w))).
  { unfold get_queryset. simpl. destruct (is_staff user); simpl; [exact Hin|].
    apply filter_In. split; [exact Hin|]. rewrite Hauthor. apply orb_true_r. }
  rewrite update_steps. cbv zeta. simpl is_authenticated. cbv iota.
  assert (G : get_object (if partial then act_partial_update else act_update)
                (if partial then PATCH else PUT) (Authenticated user) Filters.no_params k w
              = (w, inr before)).
  { rewrite (get_object_visible _ _ _ k w before Hrow Hvis).
    unfold check_object_permissions, IsAuthorOrReadOnly.
    destruct partial; simpl; rewrite Hauthor; reflexivity. }
  rewrite G.
  pose proof (to_internal_value_rejects ArticleUpdateSerializer partial (Some before) (table w) data) as R.
  pose proof (is_valid_result ArticleUpdateSerializer partial (Some before) data w) as V.
  destruct (to_internal_value ArticleUpdateSerializer partial (Some before) (table w) data)
    as [errors|attrs].
  - destruct R as (Hr & _). split; [|congruence]. intros _. exists errors. now rewrite V.
  - split; [congruence|]. intros _ w' fields. rewrite V.
    destruct (validate_succeeds (Some before) attrs w) as (w1 & attrs1 & -> & _).
    intros H. apply perform_update_errors in H as [H | H]; discriminate.
Qed.

End UpdateValidation.

(** C6 (as the code has it).  Request data for an article is refused with
    a validation error that names the fields at fault exactly when a
    required field (title, content) is missing from a request that is not
    partial, a key carries a value its field cannot read (a status that is
    no choice, a featured value that is no boolean, a text that is none,
    and in an update a [published_at] that is no date), a text has a NUL
    character, a text is longer than its column (title 200, excerpt 500,
    tags 200 characters after trimming), the trimmed title is shorter than
    5 characters, another article has the trimmed title up to case, the
    trimmed content is shorter than 10 characters, or the tags value has
    more than 10 entries that are not blank, duplicates counted.  A create
    or update that ends with a validation error has written nothing; an
    authenticated create ends with one exactly when its data is refused,
    and so does the author's update of an article. *)
Theorem validation_error_exactly_when_rejected :
  (forall (cls : SerializerClass) (partial : bool) (instance : option Article)
          (rows : list Article) (data : Data),
      cls <> ArticleListSerializer ->
      ((exists fields, to_internal_value cls partial instance rows data = inl fields)
       <-> rejected cls partial instance rows data = true))
  /\
  (forall (user : User) (data : Data) (w : World),
      (rejected ArticleCreateSerializer false None (table w) data = true <->
       exists fields,
         Views.create (Authenticated user) data w = (w, inl (ValidationError fields)))
      /\ (forall w' fields,
            Views.create (Authenticated user) data w = (w', inl (ValidationError fields)) ->
            w' = w /\ fields <> [] /\ incl fields field_names)
      /\ (rejected ArticleCreateSerializer false None (table w) data = false ->
          exists w' created,
            Views.create (Authenticated user) data w = (w', inr created)
            /\ In created (table w')))
  /\
  (forall (partial : bool) (who : Identity) (params : Filters.Params) (k : nat)
          (data : Data) (w w' : World) (fields : list string),
      Views.update partial who params k data w = (w', inl (ValidationError fields)) ->
      w' = w /\ fields <> [] /\ incl fields field_names
      /\ exists obj, In obj (table w) /\ has_pk k obj = true
                     /\ rejected ArticleUpdateSerializer partial (Some obj) (table w) data = true)
  /\
  (forall (partial : bool) (user : User) (k : nat) (data : Data) (w : World)
          (before : Article),
      row k w = Some before -> user_eqb (author before) user = true ->
      (rejected ArticleUpdateSerializer partial (Some before) (table w) data = true <->
       exists fields,
         Views.update partial (Authenticated user) Filters.no_params k data w
         = (w, inl (ValidationError fields)))).
Proof.
  split; [|split; [|split]].
  - intros cls partial instance rows data _.
    pose proof (to_internal_value_rejects cls partial instance rows data) as R.
    destruct (to_internal_value cls partial instance rows data) as [fields|attrs].
    + destruct R as [R _]. split; [intros _; exact R | intros _; now exists fields].
    + split; [intros [fields H]; discriminate | congruence].
  - intros user data w.
    destruct (create_validates user data w) as [Hrej Hok].
    assert (Hconv : forall w' fields,
               Views.create (Authenticated user) data w = (w', inl (ValidationError fields)) ->
               rejected ArticleCreateSerializer false None (table w) data = true).
    { intros w' fields H.
      destruct (rejected ArticleCreateSerializer false None (table w) data) eqn:E; [reflexivity|].
      destruct (Hok eq_refl) as (w2 & created & H2 & _). congruence. }
    split; [|split].
    + split.
      * intros E. destruct (Hrej E) as (fields & H & _). now exists fields.
      * intros [fields H]. eapply Hconv; eauto.
    + intros w' fields H. pose proof (Hconv _ _ H) as E.
      destruct (Hrej E) as (fields' & H' & Hne & Hincl).
      rewrite H in H'. inversion H'; subst. auto.
    + intros E. destruct (Hok E) as (w' & created & H & Hin & _). now exists w', created.
  - intros partial who params k data w w' fields.
    apply update_validation_error.
  - intros partial user k data w before Hrow Hauthor.
    destruct (author_update_validates partial user k data w before Hrow Hauthor) as [Hrej Hok].
    split; [exact Hrej|]. intros [fields H].
    destruct (rejected ArticleUpdateSerializer partial (Some before) (table w) data) eqn:E; [reflexivity|].
    exfalso. exact (Hok eq_refl _ _ H).
Qed.

(** The validation tests: the title [Hi] and the content [Short] are
    refused at creation; tags with duplicates and capitals are accepted. *)
Lemma validation_tests :
  (exists fields,
      Views.create (Authenticated Fixtures.testuser)
        (Fixtures.with_title Fixtures.article_data "Hi") Fixtures.empty_world
      = (Fixtures.empty_world, inl (ValidationError fields)))
  /\ (exists fields,
        Views.create (Authenticated Fixtures.testuser)
          (Fixtures.with_content Fixtures.article_data "Short") Fixtures.empty_world
        = (Fixtures.empty_world, inl (ValidationError fields)))
  /\ (exists w' created,
        Views.create (Authenticated Fixtures.testuser)
          (Fixtures.with_tags Fixtures.article_data "tag1, tag2, tag1, TAG2")
          Fixtures.empty_world
        = (w', inr created)
        /\ In created (table w')).
Proof.
  destruct validation_error_exactly_when_rejected as (_ & C & _).
  split; [|split].
  - apply (C Fixtures.testuser (Fixtures.with_title Fixtures.article_data "Hi")
             Fixtures.empty_world). reflexivity.
  - apply (C Fixtures.testuser (Fixtures.with_content Fixtures.article_data "Short")
             Fixtures.empty_world). reflexivity.
  - apply (C Fixtures.testuser
             (Fixtures.with_tags Fixtures.article_data "tag1, tag2, tag1, TAG2")
             Fixtures.empty_world). reflexivity.
Defined.

(** C6 as stated fails: a title of 201 letters is refused at creation,
    although it is not shorter than 5 characters, no article has it, the
    content is not shorter than 10 characters and there are two tags. *)
Lemma long_title_is_refused :
  let data := Fixtures.with_title Fixtures.article_data (Fixtures.letters 201) in
  Views.create (Authenticated Fixtures.testuser) data Fixtures.empty_world
  = (Fixtures.empty_world, inl (ValidationError ["title"]))
  /\ title_too_short data = false
  /\ title_taken None (table Fixtures.empty_world) data = false
  /\ content_too_short data = false
  /\ too_many_tags data = false
  /\ option_map (fun v => length (unique_tags [] (clean_tags v))) (given (d_tags data)) = Some 2.
Proof. vm_compute. repeat split. Qed.

(** The tags are counted before duplicates are removed: eleven times the
    same tag is refused, although one tag would remain. *)
Lemma repeated_tag_is_refused :
  let data := Fixtures.with_tags Fixtures.article_data "a,a,a,a,a,a,a,a,a,a,a" in
  Views.create (Authenticated Fixtures.testuser) data Fixtures.empty_world
  = (Fixtures.empty_world, inl (ValidationError ["tags"]))
  /\ option_map (fun v => unique_tags [] (clean_tags v)) (given (d_tags data)) = Some ["a"].
Proof. vm_compute. repeat split. Qed.

(** A title with a NUL character, a status that is no choice and a
    featured value that is no boolean are refused at creation, each with
    the name of its field; a [published_at] that is no date is refused by
    an update and not looked at by a creation. *)
Lemma unreadable_values_are_refused :
  let data := Fixtures.article_data in
  let nul_title := String "T" (String "i" (String NUL "tle")) in
  Views.create (Authenticated Fixtures.testuser) (Fixtures.with_title data nul_title)
    Fixtures.empty_world
  = (Fixtures.empty_world, inl (ValidationError ["title"]))
  /\ Views.create (Authenticated Fixtures.testuser)
       (mkData (d_title data) (d_content data) None (Some unreadable) (Some unreadable)
          None None) Fixtures.empty_world
     = (Fixtures.empty_world, inl (ValidationError ["status"; "featured"]))
  /\ Views.update true (Authenticated Fixtures.testuser) Filters.no_params 2
       (mkData None None None None None None (Some unreadable)) Fixtures.world
     = (Fixtures.world, inl (ValidationError ["published_at"]))
  /\ (exists w' created,
        Views.create (Authenticated Fixtures.testuser)
          (mkData (d_title data) (d_content data) None None None None (Some unreadable))
          Fixtures.empty_world
        = (w', inr created)).
Proof. vm_compute. repeat split. eexists _, _. reflexivity. Qed.

(** ** The key constraint is kept *)

Section KeyInvariant.

Lemma next_pk_above (rows : list Article) (a : Article) (k : nat) :
  In a rows -> pk a = Some k -> k < next_pk rows.
Proof.
  unfold next_pk. induction rows as [|x rows IH]; simpl; [contradiction|].
  intros [-> | Hin] Hk.
  - rewrite Hk. lia.
  - specialize (IH Hin Hk). destruct (pk x); lia.
Qed.

Lemma pk_unique_insert (rows : list Article) (a : Article) :
  pk_unique rows -> pk a = Some (next_pk rows) -> pk_unique (rows ++ [a]).
Proof.
  intros U Ha x y Hx Hy E.
  apply in_app_or in Hx as [Hx | [<- | []]]; apply in_app_or in Hy as [Hy | [<- | []]].
  - now apply U.
  - exfalso. rewrite Ha in E. pose proof (next_pk_above rows x _ Hx E). lia.
  - exfalso. rewrite Ha in E. symmetry in E. pose proof (next_pk_above rows y _ Hy E). lia.
  - reflexivity.
Qed.

Lemma pk_unique_map (f : Article -> Article) (rows : list Article) :
  (forall r, pk (f r) = pk r) -> pk_unique rows -> pk_unique (map f rows).
Proof.
  intros Hf U x y Hx Hy E.
  apply in_map_iff in Hx as [a [<- Ha]]. apply in_map_iff in Hy as [b [<- Hb]].
  rewrite !Hf in E. now rewrite (U a b Ha Hb E).
Qed.

Lemma pk_unique_filter (f : Article -> bool) (rows : list Article) :
  pk_unique rows -> pk_unique (filter f rows).
Proof.
  intros U x y Hx Hy. apply filter_In in Hx as [Hx _]. apply filter_In in Hy as [Hy _].
  now apply U.
Qed.

(** A created article gets a key no row has: the table stays a table. *)
Lemma create_keeps_pk_unique (user : User) (data : Data) (w w' : World) (created : Article) :
  pk_unique (table w) ->
  Views.create (Authenticated user) data w = (w', inr created) ->
  pk_unique (table w').
Proof.
  intros U. unfold Views.create, Handler.bind, Views.check_permissions. simpl.
  pose proof (is_valid_result ArticleCreateSerializer false None data w) as V.
  destruct (to_internal_value ArticleCreateSerializer false None (table w) data) as [e|attrs];
    rewrite V; [discriminate|].
  destruct (validate_succeeds None attrs w) as (w1 & attrs1 & -> & Ht).
  unfold Serializers.create.
  destruct (setattrs_keeps (new_article "" "" user) attrs1) as (Hpk & Hslug & _).
  destruct (save_new (setattrs (new_article "" "" user) attrs1) w1 Hpk Hslug) as [r [_ S]].
  rewrite S. intros H. inversion H; subst. simpl. rewrite Ht in *.
  apply pk_unique_insert; [exact U | reflexivity].
Qed.

Lemma retrieve_keeps_pk_unique (who : Identity) (params : Filters.Params) (k : nat)
    (w w' : World) (shown : Article) :
  pk_unique (table w) ->
  Views.retrieve who params k w = (w', inr shown) ->
  pk_unique (table w').
Proof.
  intros U H.
  destruct (Views.get_object Views.act_retrieve GET who params k w) as [w1 [e|obj]] eqn:G.
  - rewrite (retrieve_not_found _ _ _ _ _ _ G) in H. discriminate.
  - pose proof (get_object_ok _ _ _ _ _ _ _ _ G) as (_ & Hin & Hk & _).
    rewrite (retrieve_found _ _ _ _ _ _ G (row_of_member k w obj U Hin Hk)) in H.
    destruct (status_eqb (status obj) published); inversion H; subst; [|exact U].
    simpl. apply pk_unique_map; [|exact U].
    intros r. destruct (has_pk k r); reflexivity.
Qed.

End KeyInvariant.

(** ** The tests of the model *)

Example slug_auto_generation :
  Slug.slugify "My Amazing Django Tutorial" = "my-amazing-django-tutorial".
Proof. reflexivity. Qed.

Example slugify_drops_punctuation :
  Slug.slugify "  Same Title!! -- x_ " = "same-title-x".
Proof. reflexivity. Qed.

Example split_on_blanks :
  split "  my   amazing tutorial " = ["my"; "amazing"; "tutorial"].
Proof. reflexivity. Qed.

Example split_on_commas : split_on "," "a,,b," = ["a"; ""; "b"; ""].
Proof. reflexivity. Qed.

Example tags_list_test :
  get_tags_list
    (set_tags (new_article "Test Article" "Content here." Fixtures.testuser)
       "django, python, api, rest")
  = ["django"; "python"; "api"; "rest"].
Proof. reflexivity. Qed.

Example tags_validation_test : validate_tags "tag1, tag2, tag1, TAG2" = Some "tag1,tag2".
Proof. reflexivity. Qed.

Example round_ties_to_even :
  round_div 300 200 = 2 /\ round_div 500 200 = 2 /\ round_div 700 200 = 4
  /\ round_div 99 200 = 0 /\ round_div 101 200 = 1.
Proof. repeat split. Qed.

(** The fixtures are what the two creations of [setUp] leave in the
    table. *)
Example fixtures_are_created :
  let first :=
    set_tags (set_status
      (new_article "Published Test Article"
         "This is a published test article with enough content." Fixtures.testuser)
      published) "django,test" in
  let second :=
    set_tags
      (new_article "Draft Test Article"
         "This is a draft test article with enough content." Fixtures.testuser)
      "django,draft" in
  exists w1 a1 a2,
    save None first Fixtures.empty_world = (w1, inr a1)
    /\ save None second w1 = (Fixtures.world, inr a2).
Proof. eexists _, _, _. split; vm_compute; reflexivity. Qed.

(** * Further properties *)

(** ** Tags *)

Section TagNormalisation.

Lemma lower_char_space (c : ascii) : is_space (lower_char c) = is_space c.
Proof.
  destruct c as [b0 b1 b2 b3 b4 b5 b6 b7];
    destruct b0, b1, b2, b3, b4, b5, b6, b7; reflexivity.
Qed.

Lemma lower_char_comma (c : ascii) : Ascii.eqb (lower_char c) "," = Ascii.eqb c ",".
Proof.
  destruct c as [b0 b1 b2 b3 b4 b5 b6 b7];
    destruct b0, b1, b2, b3, b4, b5, b6, b7; reflexivity.
Qed.

Lemma lower_char_idempotent (c : ascii) : lower_char (lower_char c) = lower_char c.
Proof.
  destruct c as [b0 b1 b2 b3 b4 b5 b6 b7];
    destruct b0, b1, b2, b3, b4, b5, b6, b7; reflexivity.
Qed.

Lemma lower_idempotent (s : string) : lower (lower s) = lower s.
Proof. induction s as [|c s IH]; simpl; [reflexivity | now rewrite lower_char_idempotent, IH]. Qed.

Lemma lower_lstrip (s : string) :
  lower (lstrip_by is_space s) = lstrip_by is_space (lower s).
Proof.
  induction s as [|c s IH]; simpl; [reflexivity|].
  rewrite lower_char_space. destruct (is_space c); [exact IH | reflexivity].
Qed.

Lemma lower_rstrip (s : string) :
  lower (rstrip_by is_space s) = rstrip_by is_space (lower s).
Proof.
  induction s as [|c s IH]; simpl; [reflexivity|].
  rewrite <- IH, lower_char_space.
  destruct (rstrip_by is_space s); simpl; [destruct (is_space c); reflexivity | reflexivity].
Qed.

Lemma lower_strip (s : string) : lower (strip s) = strip (lower s).
Proof. unfold strip, strip_by. now rewrite lower_rstrip, lower_lstrip. Qed.

Lemma lower_truthy (s : string) : truthy (lower s) = truthy s.
Proof. destruct s; reflexivity. Qed.

Lemma free_of_lower (s : string) : free_of "," (lower s) = free_of "," s.
Proof. induction s as [|c s IH]; simpl; [reflexivity | now rewrite lower_char_comma, IH]. Qed.

Lemma free_of_lstrip (p : ascii -> bool) (c : ascii) (s : string) :
  free_of c s = true -> free_of c (lstrip_by p s) = true.
Proof.
  induction s as [|d s IH]; simpl; [reflexivity|].
  intros H. destruct (p d); [|exact H].
  apply andb_true_iff in H as [_ H]. now apply IH.
Qed.

Lemma free_of_rstrip (p : ascii -> bool) (c : ascii) (s : string) :
  free_of c s = true -> free_of c (rstrip_by p s) = true.
Proof.
  induction s as [|d s IH]; simpl; [reflexivity|].
  intros H. apply andb_true_iff in H as [Hd H]. specialize (IH H).
  destruct (rstrip_by p s) eqn:R.
  - destruct (p d); simpl; [reflexivity | now rewrite Hd].
  - simpl in *. now rewrite Hd, IH.
Qed.

Lemma free_of_strip (c : ascii) (s : string) :
  free_of c s = true -> free_of c (strip s) = true.
Proof. intros H. unfold strip, strip_by. now apply free_of_rstrip, free_of_lstrip. Qed.

(** The pieces between the commas have no comma. *)
Lemma split_on_pieces (s : string) :
  Forall (fun w => free_of "," w = true) (split_on "," s).
Proof.
  induction s as [|c s IH]; simpl; [repeat constructor|].
  destruct (Ascii.eqb c ",") eqn:E; [constructor; [reflexivity | exact IH]|].
  destruct (split_on "," s) as [|w ws]; [repeat constructor; simpl; now rewrite E|].
  inversion IH; subst. constructor; [simpl; now rewrite E | assumption].
Qed.

(** Every cleaned tag is a normal tag. *)
Lemma clean_tags_normal (v : string) : Forall normal_tag (clean_tags v).
Proof.
  unfold clean_tags. pose proof (split_on_pieces v) as P.
  induction (split_on "," v) as [|w ws IH]; simpl; [constructor|].
  inversion P; subst. destruct (truthy (strip w)) eqn:T; [|now apply IH].
  simpl. constructor; [|now apply IH].
  repeat split.
  - now rewrite lower_truthy.
  - now rewrite <- lower_strip, strip_idempotent.
  - apply lower_idempotent.
  - rewrite free_of_lower. now apply free_of_strip.
Qed.

Lemma unique_tags_spec (seen l : list string) :
  NoDup (unique_tags seen l)
  /\ (forall t, In t (unique_tags seen l) <-> In t l /\ ~ In t seen)
  /\ length (unique_tags seen l) <= length l.
Proof.
  revert seen. induction l as [|x l IH]; intros seen; simpl.
  - split; [constructor|]. split; [intros t; tauto | lia].
  - destruct (existsb (String.eqb x) seen) eqn:E.
    + apply existsb_exists in E as [y [Hy Exy]]. apply String.eqb_eq in Exy. subst y.
      destruct (IH seen) as (N & M & L). split; [exact N|]. split; [|lia].
      intros t. rewrite M. split; [tauto|].
      intros [[<- | Hin] Hns]; [contradiction | tauto].
    + assert (Hx : ~ In x seen).
      { intros Hin. assert (existsb (String.eqb x) seen = true).
        { apply existsb_exists. exists x. split; [exact Hin | apply String.eqb_refl]. }
        congruence. }
      destruct (IH (x :: seen)) as (N & M & L). split; [|split; [|simpl; lia]].
      * constructor; [|exact N]. rewrite M. simpl. tauto.
      * intros t. simpl. rewrite M. simpl. split.
        -- intros [<- | [Hin Hns]]; [tauto|]. split; [tauto|]. tauto.
        -- intros [[<- | Hin] Hns]; [now left|].
           destruct (string_dec x t) as [<- | Hne]; [now left|]. right. tauto.
Qed.

Lemma unique_tags_fixed (seen l : list string) :
  NoDup l -> (forall t, In t l -> ~ In t seen) -> unique_tags seen l = l.
Proof.
  revert seen. induction l as [|x l IH]; intros seen N H; simpl; [reflexivity|].
  inversion N; subst.
  destruct (existsb (String.eqb x) seen) eqn:E.
  - exfalso. apply existsb_exists in E as [y [Hy Exy]]. apply String.eqb_eq in Exy. subst y.
    apply (H x); [now left | exact Hy].
  - f_equal. apply IH; [assumption|].
    intros t Ht [<- | Hs]; [contradiction|]. apply (H t); [now right | exact Hs].
Qed.

Lemma split_on_free (w : string) : free_of "," w = true -> split_on "," w = [w].
Proof.
  induction w as [|c w IH]; simpl; [reflexivity|].
  intros H. apply andb_true_iff in H as [Hc H]. apply negb_true_iff in Hc.
  now rewrite Hc, IH.
Qed.

Lemma split_on_free_comma (w rest : string) :
  free_of "," w = true ->
  split_on "," (w ++ String "," rest) = w :: split_on "," rest.
Proof.
  induction w as [|c w IH]; simpl; [reflexivity|].
  intros H. apply andb_true_iff in H as [Hc H]. apply negb_true_iff in Hc.
  now rewrite Hc, IH.
Qed.

(** Joining with commas and splitting at the commas gives the tags back. *)
Lemma split_on_join (ts : list string) :
  ts <> [] -> Forall (fun w => free_of "," w = true) ts ->
  split_on "," (join "," ts) = ts.
Proof.
  induction ts as [|t ts IH]; intros Hne F; [contradiction|].
  inversion F; subst. destruct ts as [|t' ts].
  - simpl. now apply split_on_free.
  - change (join "," (t :: t' :: ts)) with (t ++ String "," (join "," (t' :: ts)))%string.
    rewrite split_on_free_comma by assumption. f_equal. apply IH; [discriminate | assumption].
Qed.

Lemma normal_tags_kept (ts : list string) :
  Forall normal_tag ts ->
  map strip (filter (fun tag => truthy (strip tag)) ts) = ts
  /\ map (fun tag => lower (strip tag)) (filter (fun tag => truthy (strip tag)) ts) = ts.
Proof.
  induction 1 as [|t ts (T & S & L & _) _ [IH1 IH2]]; simpl; [split; reflexivity|].
  rewrite S, T. simpl. rewrite S, L, IH1, IH2. split; reflexivity.
Qed.

Lemma normal_free (ts : list string) :
  Forall normal_tag ts -> Forall (fun w => free_of "," w = true) ts.
Proof. induction 1 as [|t ts (_ & _ & _ & F) _ IH]; constructor; assumption. Qed.

Lemma Forall_unique_tags (P : string -> Prop) (l : list string) :
  Forall P l -> Forall P (unique_tags [] l).
Proof.
  intros F. apply Forall_forall. intros t Ht.
  apply (proj1 (proj2 (unique_tags_spec [] l))) in Ht as [Ht _].
  revert t Ht. now apply Forall_forall.
Qed.

(** The pieces of a joined list of normal tags are the tags. *)
Lemma pieces_of_joined (ts : list string) :
  Forall normal_tag ts ->
  filter (fun tag => truthy (strip tag)) (split_on "," (join "," ts))
  = filter (fun tag => truthy (strip tag)) ts.
Proof.
  intros F. destruct ts as [|t ts]; [reflexivity|].
  now rewrite split_on_join by (try discriminate; now apply normal_free).
Qed.

(** The value [validate_tags] returns. *)
Lemma validate_tags_value (v out : string) :
  validate_tags v = Some out -> out = join "," (unique_tags [] (clean_tags v)).
Proof.
  unfold validate_tags. destruct (truthy v) eqn:T.
  - destruct (10 <? length (clean_tags v)); intros H; now inversion H.
  - destruct v; [|discriminate]. intros H; now inversion H.
Qed.

End TagNormalisation.

(** X1. [validate_tags] refuses a value exactly when it has more than 10
    entries that are not blank.  The value it returns is the list of the
    cleaned tags without repetitions, joined by commas: at most 10 tags,
    each one not blank, trimmed, in lower case; and [get_tags_list] of an
    article that stores the value gives exactly these tags. *)
Theorem validate_tags_normal_form :
  forall v : string,
    let ts := unique_tags [] (clean_tags v) in
    match validate_tags v with
    | None => 10 < length (clean_tags v)
    | Some out =>
        length (clean_tags v) <= 10
        /\ out = join "," ts
        /\ NoDup ts /\ length ts <= 10 /\ Forall normal_tag ts
        /\ (forall t, In t ts <-> In t (clean_tags v))
        /\ (forall a, get_tags_list (set_tags a out) = ts)
    end.
Proof.
  intros v ts.
  pose proof (unique_tags_spec [] (clean_tags v)) as (N & M & L). fold ts in N, M, L.
  assert (F : Forall normal_tag ts) by (apply Forall_unique_tags, clean_tags_normal).
  assert (G : forall a, get_tags_list (set_tags a (join "," ts)) = ts).
  { intros a. unfold get_tags_list. simpl tags.
    rewrite pieces_of_joined by exact F. now apply normal_tags_kept. }
  unfold validate_tags. destruct (truthy v) eqn:T.
  - destruct (10 <? length (clean_tags v)) eqn:E;
      [now apply Nat.ltb_lt in E | apply Nat.ltb_ge in E].
    fold ts. repeat split; auto; try lia; try (now apply M).
    intros H. apply M. split; [exact H | intros []].
  - destruct v; [|discriminate]. simpl. repeat split; auto; try lia; try constructor.
Qed.

(** The tags of the serializer test. *)
Lemma validate_tags_test :
  validate_tags "tag1, tag2, tag1, TAG2" = Some "tag1,tag2"
  /\ forall a, get_tags_list (set_tags a "tag1,tag2") = ["tag1"; "tag2"].
Proof.
  split; [reflexivity|].
  exact (proj2 (proj2 (proj2 (proj2 (proj2 (proj2
           (validate_tags_normal_form "tag1, tag2, tag1, TAG2"))))))).
Defined.

(** X2. A tags value that [validate_tags] returned is returned unchanged
    when it is validated again. *)
Theorem validate_tags_idempotent :
  forall v out : string, validate_tags v = Some out -> validate_tags out = Some out.
Proof.
  intros v out H. pose proof (validate_tags_value v out H) as ->.
  pose proof (unique_tags_spec [] (clean_tags v)) as (N & _ & L0).
  assert (F : Forall normal_tag (unique_tags [] (clean_tags v)))
    by (apply Forall_unique_tags, clean_tags_normal).
  assert (L : length (unique_tags [] (clean_tags v)) <= 10).
  { revert H. unfold validate_tags. destruct (truthy v) eqn:T.
    - destruct (10 <? length (clean_tags v)) eqn:E; [discriminate|].
      apply Nat.ltb_ge in E. lia.
    - destruct v; [|discriminate]. simpl. lia. }
  set (ts := unique_tags [] (clean_tags v)) in *.
  unfold validate_tags. destruct (truthy (join "," ts)) eqn:T; [|reflexivity].
  assert (C : clean_tags (join "," ts) = ts).
  { unfold clean_tags. rewrite pieces_of_joined by exact F. now apply normal_tags_kept. }
  rewrite C. destruct (10 <? length ts) eqn:E; [apply Nat.ltb_lt in E; lia|].
  rewrite unique_tags_fixed; [reflexivity | exact N | intros t _ []].
Qed.

Lemma validate_tags_twice_test :
  validate_tags "tag1,tag2" = Some "tag1,tag2".
Proof. exact (validate_tags_idempotent "tag1, tag2, tag1, TAG2" "tag1,tag2" eq_refl). Defined.

(** ** The filterset, row by row *)

Section FiltersetFacts.
Import Filters.

Lemma filter_all (rows : list Article) : filter (fun _ => true) rows = rows.
Proof. induction rows as [|x rows IH]; simpl; [reflexivity | now rewrite IH]. Qed.

Lemma char_filter_rowwise (value : option string)
    (apply : string -> list Article -> list Article) (test : Article -> string -> bool)
    (rows : list Article) :
  (forall v q, truthy v = true -> apply v q = filter (fun a => test a v) q) ->
  char_filter value apply rows = filter (fun a => char_accepts value (test a)) rows.
Proof.
  intros H. unfold char_filter, char_accepts. destruct value as [v|]; [|now rewrite filter_all].
  destruct (truthy (strip v)) eqn:T; [now apply H | now rewrite filter_all].
Qed.

Lemma value_filter_rowwise {A} (value : option A) (keep : A -> Article -> bool)
    (rows : list Article) :
  value_filter value keep rows = filter (fun a => value_accepts value (fun v => keep v a)) rows.
Proof.
  unfold value_filter, value_accepts. destruct value as [v|]; [reflexivity | now rewrite filter_all].
Qed.

Lemma filter_tags_rowwise (rows : list Article) (v : string) :
  truthy v = true -> filter_tags rows v = filter (fun a => tags_accepts a v) rows.
Proof.
  intros T. unfold filter_tags, tags_accepts. rewrite T. simpl.
  pose proof (fold_Q_or (tag_terms v) Q_empty) as F.
  destruct (fold_left _ (tag_terms v) Q_empty) as [g|].
  - destruct F as [[F | F] G]; [now contradiction F|].
    simpl. apply filter_ext. intros a. rewrite G. simpl.
    destruct (tag_terms v); [now contradiction F | reflexivity].
  - destruct F as [_ ->]. simpl. now rewrite filter_all.
Qed.

Lemma filter_search_rowwise (rows : list Article) (v : string) :
  truthy v = true -> filter_search rows v = filter (fun a => search_accepts a v) rows.
Proof. intros T. unfold filter_search. now rewrite T. Qed.

(** The filterset keeps exactly the rows that pass every filter. *)
Lemma qs_rowwise (p : Params) (rows : list Article) :
  qs p rows = filter (accepts p) rows.
Proof.
  unfold qs.
  rewrite (char_filter_rowwise (q_title p) _ (fun a v => icontains (title a) v)) by reflexivity.
  rewrite (char_filter_rowwise (q_content p) _ (fun a v => icontains (content a) v)) by reflexivity.
  rewrite (char_filter_rowwise (q_author p) _ (fun a v => iexact (username (author a)) v))
    by reflexivity.
  rewrite (char_filter_rowwise (q_author_contains p) _
             (fun a v => icontains (username (author a)) v)) by reflexivity.
  rewrite (char_filter_rowwise (q_tags p) _ tags_accepts)
    by (intros; now apply filter_tags_rowwise).
  rewrite (char_filter_rowwise (q_search p) _ search_accepts)
    by (intros; now apply filter_search_rowwise).
  rewrite !value_filter_rowwise.
  rewrite !filter_filter. apply filter_ext. intros a.
  unfold accepts. now rewrite !andb_assoc.
Qed.

End FiltersetFacts.

(** X3. The filterset decides row by row: a row is kept exactly when it
    passes every filter the parameters carry.  So filtering a collection
    made of two parts filters each part, two filtersets can be applied in
    either order, and applying one twice changes nothing more. *)
Theorem filterset_is_rowwise_conjunction :
  forall (p q : Filters.Params) (rows rows' : list Article),
    (forall a, In a (Filters.qs p rows) <-> In a rows /\ accepts p a = true)
    /\ Filters.qs p (rows ++ rows') = (Filters.qs p rows ++ Filters.qs p rows')%list
    /\ Filters.qs p (Filters.qs q rows) = Filters.qs q (Filters.qs p rows)
    /\ Filters.qs p (Filters.qs p rows) = Filters.qs p rows.
Proof.
  intros p q rows rows'. rewrite !qs_rowwise. split; [|split; [|split]].
  - intros a. apply filter_In.
  - apply filter_app.
  - rewrite !filter_filter. apply filter_ext. intros a. apply andb_comm.
  - rewrite filter_filter. apply filter_ext. intros a. apply andb_diag.
Qed.

(** X4. The filter of published articles shows what the filterset shows
    of the published articles, which is what is published of what the
    filterset shows: only published articles of the collection. *)
Theorem published_filter_shows_published_only :
  forall (p : Filters.Params) (rows : list Article),
    PublishedFilter.qs p rows
    = filter (fun a => status_eqb (status a) published) (Filters.qs p rows)
    /\ forall a, In a (PublishedFilter.qs p rows) ->
                 status a = published /\ In a (Filters.qs p rows).
Proof.
  intros p rows.
  assert (E : PublishedFilter.qs p rows
              = filter (fun a => status_eqb (status a) published) (Filters.qs p rows)).
  { unfold PublishedFilter.qs. rewrite !qs_rowwise, !filter_filter.
    apply filter_ext. intros a. apply andb_comm. }
  split; [exact E|]. intros a. rewrite E, filter_In, status_eqb_eq. tauto.
Qed.

Section CaseFacts.
Import Filters.

Lemma icontains_lower_term (f v : string) : icontains f (lower v) = icontains f v.
Proof. unfold icontains. now rewrite lower_idempotent. Qed.

Lemma iexact_lower_term (f v : string) : iexact f (lower v) = iexact f v.
Proof. unfold iexact. now rewrite lower_idempotent. Qed.

Lemma char_accepts_lower (v : option string) (test : string -> bool) :
  (forall x, test (lower x) = test x) ->
  char_accepts (option_map lower v) test = char_accepts v test.
Proof.
  intros H. destruct v as [v|]; [|reflexivity]. simpl.
  now rewrite <- lower_strip, lower_truthy, H.
Qed.

Lemma split_on_lower (v : string) : split_on "," (lower v) = map lower (split_on "," v).
Proof.
  induction v as [|c v IH]; [reflexivity|].
  simpl. rewrite lower_char_comma, IH.
  destruct (Ascii.eqb c ","); [reflexivity|].
  destruct (split_on "," v); reflexivity.
Qed.

Lemma tag_terms_lower (v : string) : tag_terms (lower v) = tag_terms v.
Proof.
  unfold tag_terms. rewrite split_on_lower.
  induction (split_on "," v) as [|w ws IH]; [reflexivity|].
  simpl. rewrite <- lower_strip, lower_truthy.
  destruct (truthy (strip w)); simpl; rewrite <- ?lower_strip, ?lower_idempotent;
    now rewrite IH.
Qed.

Lemma tags_accepts_lower (a : Article) (v : string) :
  tags_accepts a (lower v) = tags_accepts a v.
Proof. unfold tags_accepts. now rewrite tag_terms_lower. Qed.

Lemma search_accepts_lower (a : Article) (v : string) :
  search_accepts a (lower v) = search_accepts a v.
Proof. unfold search_accepts. now rewrite !icontains_lower_term. Qed.

Lemma accepts_fold_case (p : Params) (a : Article) : accepts (fold_case p) a = accepts p a.
Proof.
  unfold accepts, fold_case. simpl.
  rewrite !char_accepts_lower; try reflexivity; intros x.
  - apply search_accepts_lower.
  - apply tags_accepts_lower.
  - apply icontains_lower_term.
  - apply iexact_lower_term.
  - apply icontains_lower_term.
  - apply icontains_lower_term.
Qed.

End CaseFacts.

(** X5. The text filters (title, content, author, author_contains, tags,
    search) ignore the case of the query values: the parameters in lower
    case select the same rows. *)
Theorem filterset_ignores_case_of_values :
  forall (p : Filters.Params) (rows : list Article),
    Filters.qs (fold_case p) rows = Filters.qs p rows.
Proof.
  intros p rows. rewrite !qs_rowwise. apply filter_ext. intros a. apply accepts_fold_case.
Qed.

(** ** Named listings and statistics *)

Section ListingFacts.
Import Views.

Lemma filter_published_visible (who : Identity) (g : Article -> bool) (rows : list Article) :
  (forall a, g a = true -> status a = published) ->
  filter g (get_queryset who rows) = filter g rows.
Proof.
  intros H. unfold get_queryset.
  destruct (negb (is_authenticated who)); [|destruct (negb (user_is_staff who)); [|reflexivity]];
    rewrite filter_filter; apply filter_ext_in; intros a _;
    destruct (g a) eqn:G; rewrite ?andb_false_r; try reflexivity;
    apply H, status_eqb_eq in G; rewrite G; reflexivity.
Qed.

Lemma filter_own_visible (u : User) (rows : list Article) :
  filter (fun a => user_eqb (author a) u) (get_queryset (Authenticated u) rows)
  = filter (fun a => user_eqb (author a) u) rows.
Proof.
  unfold get_queryset. simpl. destruct (is_staff u); simpl; [reflexivity|].
  rewrite filter_filter. apply filter_ext. intros a.
  destruct (user_eqb (author a) u); [now rewrite orb_true_r | now rewrite andb_false_r].
Qed.

Lemma count_disjoint (f g : Article -> bool) (rows : list Article) :
  (forall a, f a = true -> g a = false) ->
  length (filter f rows) + length (filter g rows) <= length rows.
Proof.
  intros H. induction rows as [|x rows IH]; simpl; [lia|].
  destruct (f x) eqn:F; [rewrite (H x F); simpl; lia|].
  destruct (g x); simpl; lia.
Qed.

End ListingFacts.

(** X6. The featured, by-author and by-tag listings show the same
    articles to every identity, the author and staff included: the
    published articles of the table that are featured, that have the
    author's exact username, that contain the tag; never a draft or an
    archived article.  A missing or empty parameter is refused before any
    query, and no listing changes the world. *)
Theorem named_listings_show_published_only :
  forall (who : Identity) (w : World),
    Views.featured_ who w
    = (w, inr (filter (fun a => featured a && status_eqb (status a) published) (table w)))
    /\ (forall name,
          Views.by_author who name w
          = match name with
            | Some (String c n) =>
                (w, inr (filter (fun a => String.eqb (username (author a)) (String c n)
                                          && status_eqb (status a) published) (table w)))
            | _ => (w, inl MissingParameter)
            end)
    /\ (forall tag,
          Views.by_tag who tag w
          = match tag with
            | Some (String c t) =>
                (w, inr (filter (fun a => icontains (tags a) (String c t)
                                          && status_eqb (status a) published) (table w)))
            | _ => (w, inl MissingParameter)
            end).
Proof.
  intros who w.
  assert (P : forall g : Article -> bool,
             filter (fun a => g a && status_eqb (status a) published)
               (Views.get_queryset who (table w))
             = filter (fun a => g a && status_eqb (status a) published) (table w)).
  { intros g. apply filter_published_visible. intros a H.
    apply andb_true_iff in H as [_ H]. now apply status_eqb_eq. }
  unfold Views.featured_, Views.by_author, Views.by_tag, Views.check_permissions.
  run_handler. split; [|split].
  - now rewrite (P featured).
  - intros [[|c n]|]; simpl; try reflexivity.
    now rewrite (P (fun a => String.eqb (username (author a)) (String c n))).
  - intros [[|c t]|]; simpl; try reflexivity.
    now rewrite (P (fun a => icontains (tags a) (String c t))).
Qed.

(** X7. The statistics are a read of the requester's collection: the
    total is its size, published and draft articles together are at most
    the total, and a request without credentials counts no draft and gets
    no counts of its own.  For an authenticated requester the own counts
    cover the requester's articles of the whole table, which is the size
    of the my-articles listing; for a requester who is not staff every
    draft counted is an own draft. *)
Theorem stats_count_the_visible_collection :
  forall (who : Identity) (w : World),
    exists s,
      Statistics.stats who w = (w, inr s)
      /\ Statistics.total_articles s = length (Views.get_queryset who (table w))
      /\ Statistics.published_articles s + Statistics.draft_articles s
         <= Statistics.total_articles s
      /\ Statistics.featured_articles s <= Statistics.total_articles s
      /\ match who with
         | AnonymousUser =>
             Statistics.draft_articles s = 0
             /\ Statistics.published_articles s = Statistics.total_articles s
             /\ Statistics.my_stats s = None
         | Authenticated u =>
             exists mine my_published my_drafts,
               Statistics.my_stats s = Some (mine, my_published, my_drafts)
               /\ mine = length (filter (fun a => user_eqb (author a) u) (table w))
               /\ Views.my_articles who w
                  = (w, inr (filter (fun a => user_eqb (author a) u) (table w)))
               /\ my_published + my_drafts <= mine
               /\ (is_staff u = false -> my_drafts = Statistics.draft_articles s)
         end.
Proof.
  intros who w. unfold Statistics.stats, Handler.bind.
  rewrite check_permissions_safe by discriminate.
  unfold get_table, Handler.gets, Handler.ret. cbv zeta.
  eexists. split; [reflexivity|]. cbn [Statistics.total_articles Statistics.published_articles
    Statistics.draft_articles Statistics.featured_articles Statistics.my_stats].
  split; [reflexivity|]. split; [|split].
  - apply count_disjoint. intros a H. apply status_eqb_eq in H. now rewrite H.
  - apply filter_length_le.
  - destruct who as [|u].
    + unfold Statistics.count, Views.get_queryset. simpl. rewrite !filter_filter.
      split; [|split; [|reflexivity]].
      * induction (table w) as [|x rows IH]; simpl; [reflexivity|].
        destruct (status x); simpl; exact IH.
      * f_equal. apply filter_ext. intros a. apply andb_diag.
    + eexists _, _, _. split; [reflexivity|]. rewrite filter_own_visible.
      split; [reflexivity|]. split; [reflexivity|]. split.
      * apply count_disjoint. intros a H. apply status_eqb_eq in H. now rewrite H.
      * intros Hs. unfold Statistics.count, Views.get_queryset. simpl. rewrite Hs. simpl.
        rewrite !filter_filter. f_equal. apply filter_ext. intros a.
        destruct (status a), (user_eqb (author a) u); reflexivity.
Qed.

(** ** Deleting and hiding *)

Section DestroyFacts.
Import Views.

Lemma find_filter_none (p f : Article -> bool) (rows : list Article) :
  (forall a, p a = true -> f a = false) -> find p (filter f rows) = None.
Proof.
  intros H. destruct (find p (filter f rows)) as [a|] eqn:E; [|reflexivity].
  apply find_filter_some in E as (_ & Hp & Hf). rewrite (H a Hp) in Hf. discriminate.
Qed.

Lemma find_filter_same (p f : Article -> bool) (rows : list Article) :
  (forall a, p a = true -> f a = true) -> find p (filter f rows) = find p rows.
Proof.
  intros H. induction rows as [|x rows IH]; simpl; [reflexivity|].
  destruct (p x) eqn:Px.
  - rewrite (H x Px). simpl. now rewrite Px.
  - destruct (f x); simpl; [rewrite Px|]; exact IH.
Qed.

(** A key without a row is not found, whatever the action. *)
Lemma get_object_missing (action : Action) (method : Method) (who : Identity)
    (params : Filters.Params) (k : nat) (w : World) :
  row k w = None -> get_object action method who params k w = (w, inl NotFound).
Proof.
  intros Hrow. unfold get_object, Handler.bind, get_table, Handler.gets.
  destruct (find (has_pk k) (filter_queryset params (get_queryset who (table w))))
    as [o|] eqn:F; [|reflexivity].
  exfalso. apply find_some in F as [Hin Hk].
  apply filter_queryset_incl, get_queryset_incl in Hin.
  unfold row in Hrow. eapply find_none in Hrow; eauto. congruence.
Qed.

Lemma destroy_steps (who : Identity) (params : Filters.Params) (k : nat) (w : World) :
  destroy who params k w
  = if is_authenticated who then
      match get_object act_destroy DELETE who params k w with
      | (w1, inl e) => (w1, inl e)
      | (w1, inr _) =>
          (mkWorld (filter (fun r => negb (has_pk k r)) (table w1)) (clock w1), inr tt)
      end
    else (w, inl NotAuthenticated).
Proof.
  unfold destroy, Handler.bind, check_permissions, IsAuthenticatedOrReadOnly, permission_denied,
    Handler.ret, Handler.raise, get_table, put_table, Handler.gets, Handler.modify.
  cbn [SAFE_METHODS orb]. destruct (is_authenticated who); [|reflexivity].
  destruct (get_object act_destroy DELETE who params k w) as [w1 [e|obj]]; reflexivity.
Qed.

End DestroyFacts.

(** X8. A deletion that succeeds was asked by the author of the article;
    it removes the row with that key and no other, and from then on the
    retrieval of the key answers Not Found to every identity, staff
    included.  The author's deletion of an existing article, without query
    parameters, always succeeds. *)
Theorem destroy_removes_the_article :
  (forall (who : Identity) (params : Filters.Params) (k : nat) (w w' : World),
      Views.destroy who params k w = (w', inr tt) ->
      (exists obj, In obj (table w) /\ has_pk k obj = true
                   /\ is_user who (author obj) = true)
      /\ row k w' = None
      /\ (forall j, j <> k -> row j w' = row j w)
      /\ clock w' = clock w
      /\ (forall who' params', Views.retrieve who' params' k w' = (w', inl NotFound)))
  /\
  (forall (user : User) (k : nat) (w : World) (before : Article),
      row k w = Some before -> user_eqb (author before) user = true ->
      exists w', Views.destroy (Authenticated user) Filters.no_params k w = (w', inr tt)).
Proof.
  split.
  - intros who params k w w' H. rewrite destroy_steps in H.
    destruct (is_authenticated who); [|discriminate].
    destruct (Views.get_object Views.act_destroy DELETE who params k w) as [w1 [e|obj]] eqn:G;
      [discriminate|].
    pose proof (get_object_ok _ _ _ _ _ _ _ _ G) as (-> & Hin & Hk & _ & Hperm).
    specialize (Hperm ltac:(discriminate)). unfold IsAuthorOrReadOnly in Hperm. simpl in Hperm.
    inversion H; subst. clear H.
    assert (Hgone : row k (mkWorld (filter (fun r => negb (has_pk k r)) (table w)) (clock w))
                    = None).
    { unfold row. simpl. apply find_filter_none. intros a Ha. now rewrite Ha. }
    split; [now exists obj|]. split; [exact Hgone|]. split; [|split; [reflexivity|]].
    + intros j Hj. unfold row. simpl. apply find_filter_same.
      intros a Ha. now rewrite (has_pk_other j k a Hj Ha).
    + intros who' params'.
      eapply retrieve_not_found. now apply get_object_missing.
  - intros user k w before Hrow Hauthor. rewrite destroy_steps. simpl is_authenticated. cbv iota.
    pose proof (row_member _ _ _ Hrow) as [Hin Hk].
    assert (Hvis : In before (Views.get_queryset (Authenticated user) (table w))).
    { unfold Views.get_queryset. simpl. destruct (is_staff user); simpl; [exact Hin|].
      apply filter_In. split; [exact Hin|]. rewrite Hauthor. apply orb_true_r. }
    rewrite (get_object_visible _ _ _ k w before Hrow Hvis).
    unfold Views.check_object_permissions, IsAuthorOrReadOnly. simpl. rewrite Hauthor.
    eexists. reflexivity.
Qed.

(** The deletion test: the author deletes the draft of the fixtures. *)
Lemma destroy_test :
  exists w',
    Views.destroy (Authenticated Fixtures.testuser) Filters.no_params 2 Fixtures.world
    = (w', inr tt)
    /\ row 2 w' = None
    /\ row 1 w' = Some Fixtures.published_article
    /\ Views.retrieve (Authenticated Fixtures.staffuser) Filters.no_params 2 w'
       = (w', inl NotFound).
Proof.
  destruct (proj2 destroy_removes_the_article Fixtures.testuser 2 Fixtures.world
              Fixtures.draft_article eq_refl eq_refl) as [w' H].
  exists w'.
  destruct (proj1 destroy_removes_the_article _ _ _ _ _ H) as (_ & Hgone & Hrest & _ & Hret).
  split; [exact H|]. split; [exact Hgone|]. split; [|apply Hret].
  rewrite (Hrest 1) by discriminate. reflexivity.
Defined.



(** X10. Without credentials nothing can be written: creation, update,
    deletion and the featured toggle end with Not Authenticated, and so
    does the listing of one's own articles; the world stays as it is. *)
Theorem anonymous_cannot_write :
  forall (params : Filters.Params) (k : nat) (partial : bool) (data : Data) (w : World),
    Views.create AnonymousUser data w = (w, inl NotAuthenticated)
    /\ Views.update partial AnonymousUser params k data w = (w, inl NotAuthenticated)
    /\ Views.destroy AnonymousUser params k w = (w, inl NotAuthenticated)
    /\ Views.toggle_featured AnonymousUser params k w = (w, inl NotAuthenticated)
    /\ Views.my_articles AnonymousUser w = (w, inl NotAuthenticated).
Proof.
  intros params k partial data w.
  split; [reflexivity|]. split; [now rewrite update_steps|].
  split; [now rewrite destroy_steps|]. split; reflexivity.
Qed.

(** ** What is stored *)

Section StoredValues.
Import Views.

Lemma char_field_some (allow_blank : bool) (mx mn : option nat) (v v' : string) :
  char_field allow_blank mx mn v = Some v' -> v' = strip v.
Proof.
  rewrite char_field_result.
  destruct (negb (truthy (strip v))); [destruct allow_blank|destruct (_ || _)];
    intros H; inversion H; reflexivity.
Qed.

Lemma validate_title_some (instance : option Article) (rows : list Article) (t t' : string) :
  validate_title instance rows t = Some t' -> t' = strip t.
Proof.
  rewrite validate_title_result. destruct (_ || _); intros H; inversion H; reflexivity.
Qed.

Lemma validate_content_some (c c' : string) : validate_content c = Some c' -> c' = strip c.
Proof.
  unfold validate_content. destruct (_ <? _); intros H; inversion H; reflexivity.
Qed.

Lemma validate_tags_some (v out : string) :
  validate_tags v = Some out -> out = join "," (unique_tags [] (clean_tags v)).
Proof.
  apply validate_tags_value.
Qed.

Lemma run_field_value (name : string) (required partial : bool)
    (data : option (Raw string))
    (field vm : string -> option string) (val : option string) (f : string -> string) :
  (forall v v' v'', field v = Some v' -> vm v' = Some v'' -> v'' = f v) ->
  run_field name required partial data field vm = ([], val) ->
  val = option_map f (given data).
Proof.
  intros H. unfold run_field. destruct data as [[v|]|].
  - destruct (field v) as [v'|] eqn:F; [|discriminate].
    destruct (vm v') as [v''|] eqn:V; [|discriminate].
    intros E; inversion E; subst. simpl. f_equal. eauto.
  - discriminate.
  - destruct (required && negb partial); intros E; inversion E; reflexivity.
Qed.


(** The attributes that pass validation are the given ones, the texts
    trimmed and the tags in their normal form. *)
Lemma to_internal_value_values (cls : SerializerClass) (partial : bool)
    (instance : option Article) (rows : list Article) (data : Data) (attrs : Attrs) :
  to_internal_value cls partial instance rows data = inr attrs ->
  a_title attrs = option_map strip (given (d_title data))
  /\ a_content attrs = option_map strip (given (d_content data))
  /\ a_excerpt attrs = option_map strip (given (d_excerpt data))
  /\ a_tags attrs
     = option_map (fun v => join "," (unique_tags [] (clean_tags v))) (given (d_tags data)).
Proof.
  intros H. apply to_internal_value_fields in H as (R1 & R2 & R3 & _ & _ & R4 & _).
  split; [|split; [|split]].
  - apply (run_field_value _ _ _ _ _ _ _ strip) in R1; [exact R1|].
    intros v v' v'' F V. apply char_field_some in F. apply validate_title_some in V.
    subst. apply strip_idempotent.
  - apply (run_field_value _ _ _ _ _ _ _ strip) in R2; [exact R2|].
    intros v v' v'' F V. apply char_field_some in F. apply validate_content_some in V.
    subst. apply strip_idempotent.
  - apply (run_field_value _ _ _ _ _ _ _ strip) in R3; [exact R3|].
    intros v v' v'' F V. apply char_field_some in F. inversion V; subst. reflexivity.
  - apply (run_field_value _ _ _ _ _ _ _
             (fun v => join "," (unique_tags [] (clean_tags v)))) in R4; [exact R4|].
    intros v v' v'' F V. apply char_field_some in F. apply validate_tags_some in V.
    subst. now rewrite clean_tags_strip.
Qed.

Lemma setattrs_texts (a : Article) (attrs : Attrs) :
  title (setattrs a attrs) = match a_title attrs with Some v => v | None => title a end
  /\ content (setattrs a attrs) = match a_content attrs with Some v => v | None => content a end
  /\ excerpt (setattrs a attrs) = match a_excerpt attrs with Some v => v | None => excerpt a end
  /\ tags (setattrs a attrs) = match a_tags attrs with Some v => v | None => tags a end
  /\ updated_at (setattrs a attrs) = updated_at a.
Proof.
  unfold setattrs.
  destruct (a_published_at attrs), (a_tags attrs), (a_featured attrs), (a_status attrs),
    (a_excerpt attrs), (a_content attrs), (a_title attrs); simpl; repeat split.
Qed.

(** What [validate] gives back. *)
Lemma validate_result (instance : option Article) (attrs : Attrs) (w : World) :
  let stamp :=
    match a_status attrs with
    | Some published =>
        match instance with
        | Some inst => negb (status_eqb (status inst) published)
        | None => true
        end
    | _ => false
    end in
  validate instance attrs w
  = if stamp
    then (mkWorld (table w) (S (clock w)), inr (with_published_at attrs (Some (clock w))))
    else (w, inr attrs).
Proof.
  unfold validate, timezone_now, Handler.bind, Handler.ret.
  destruct (a_status attrs) as [[| |]|]; try reflexivity.
  destruct (match instance with
            | Some inst => negb (status_eqb (status inst) published)
            | None => true
            end); reflexivity.
Qed.

(** A successful creation, step by step. *)
Lemma create_runs (user : User) (data : Data) (w w' : World) (created : Article) :
  Views.create (Authenticated user) data w = (w', inr created) ->
  exists attrs0 attrs1 w1 r,
    to_internal_value ArticleCreateSerializer false None (table w) data = inr attrs0
    /\ validate None attrs0 w = (w1, inr attrs1)
    /\ unique_slug (S (length (table w1))) (slug_exists (table w1) None)
         (Slug.slugify (title (setattrs (new_article "" "" user) attrs1)))
         (Slug.slugify (title (setattrs (new_article "" "" user) attrs1))) 1 = Some r
    /\ created
       = set_pk (set_updated_at (set_created_at
           (fill_excerpt (set_slug (setattrs (new_article "" "" user) attrs1) r))
           (clock w1)) (S (clock w1))) (Some (next_pk (table w1)))
    /\ w' = mkWorld (table w1 ++ [created]) (S (S (clock w1))).
Proof.
  unfold Views.create, Handler.bind, check_permissions. simpl.
  pose proof (is_valid_result ArticleCreateSerializer false None data w) as V.
  destruct (to_internal_value ArticleCreateSerializer false None (table w) data)
    as [e|attrs0] eqn:T; rewrite V; [discriminate|].
  destruct (validate None attrs0 w) as [w1 [e|attrs1]] eqn:Val.
  - destruct (validate_succeeds None attrs0 w) as (w2 & a2 & E & _). congruence.
  - unfold Serializers.create.
    destruct (setattrs_keeps (new_article "" "" user) attrs1) as (Hpk & Hslug & _).
    destruct (save_new (setattrs (new_article "" "" user) attrs1) w1 Hpk Hslug)
      as [r [Hr S]].
    rewrite S. intros H. inversion H; subst.
    exists attrs0, attrs1, w1, r. repeat split; auto.
Qed.

End StoredValues.



(** ** What an update keeps *)

Section UpdateFrame.
Import Views.

(** A full save of an instance whose row exists rewrites that row. *)
Lemma save_existing (a saved : Article) (k : nat) (w w' : World) :
  pk a = Some k -> existsb (has_pk k) (table w) = true ->
  save None a w = (w', inr saved) ->
  exists a1,
    fill_slug (table w) a = Some a1
    /\ saved = set_updated_at (fill_excerpt a1) (clock w)
    /\ w' = mkWorld (map (fun r => if has_pk k r then saved else r) (table w)) (S (clock w))
    /\ slug_exists (table w) (Some k) (slug saved) = false.
Proof.
  intros Hpk Hex. unfold save, Handler.bind, get_table, Handler.gets.
  destruct (fill_slug (table w) a) as [a1|] eqn:F; [|discriminate].
  pose proof (fill_slug_keeps _ _ _ F) as (Hpk1 & _).
  destruct (fill_excerpt_keeps a1) as (Hpk2 & _).
  unfold model_save, Handler.bind, get_table, Handler.gets, timezone_now, put_table,
    Handler.modify, Handler.ret, Handler.raise, violates_unique_slug.
  rewrite Hpk2, Hpk1, Hpk, Hex. cbn [table clock pk slug set_updated_at].
  rewrite Hpk2, Hpk1, Hpk.
  destruct (slug_exists (table w) (Some k) (slug (fill_excerpt a1))) eqn:V; [discriminate|].
  intros H. inversion H; subst. exists a1. repeat split. exact V.
Qed.

Lemma find_map_replace_other (j k : nat) (s : Article) (rows : list Article) :
  j <> k -> has_pk k s = true ->
  find (has_pk j) (map (fun r => if has_pk k r then s else r) rows) = find (has_pk j) rows.
Proof.
  intros Hne Hs. induction rows as [|x rows IH]; simpl; [reflexivity|].
  destruct (has_pk k x) eqn:Kx.
  - assert (has_pk j s = false) as ->.
    { destruct (has_pk j s) eqn:E; [|reflexivity].
      rewrite (has_pk_other j k s Hne E) in Hs. discriminate. }
    assert (has_pk j x = false) as ->.
    { destruct (has_pk j x) eqn:E; [|reflexivity].
      rewrite (has_pk_other j k x Hne E) in Kx. discriminate. }
    exact IH.
  - destruct (has_pk j x); [reflexivity | exact IH].
Qed.

(** [perform_update] ends in one save; on the way only [published_at]
    of the validated attributes may change and only the clock moves. *)
Lemma perform_update_saves (obj : Article) (attrs : Attrs) (w : World) :
  exists attrs' w1,
    perform_update obj attrs w = save None (setattrs obj attrs') w1
    /\ table w1 = table w /\ clock w <= clock w1
    /\ a_title attrs' = a_title attrs /\ a_content attrs' = a_content attrs
    /\ a_excerpt attrs' = a_excerpt attrs /\ a_tags attrs' = a_tags attrs
    /\ a_featured attrs' = a_featured attrs /\ a_status attrs' = a_status attrs.
Proof.
  unfold perform_update, Serializers.update, timezone_now, Handler.bind.
  destruct (a_status attrs) as [[| |]|] eqn:S;
    try destruct (status_eqb (status obj) published) eqn:P; simpl; rewrite ?S, ?P;
    eexists _, _; (split; [reflexivity|]); simpl; repeat split; auto.
Qed.

(** A successful update, step by step. *)
Lemma update_saves (partial : bool) (who : Identity) (params : Filters.Params)
    (k : nat) (data : Data) (w w' : World) (saved : Article) :
  update partial who params k data w = (w', inr saved) ->
  exists obj attrs0 attrs w1,
    In obj (table w) /\ has_pk k obj = true /\ is_user who (author obj) = true
    /\ to_internal_value ArticleUpdateSerializer partial (Some obj) (table w) data = inr attrs0
    /\ save None (setattrs obj attrs) w1 = (w', inr saved)
    /\ table w1 = table w /\ clock w <= clock w1
    /\ a_title attrs = a_title attrs0 /\ a_content attrs = a_content attrs0
    /\ a_excerpt attrs = a_excerpt attrs0 /\ a_tags attrs = a_tags attrs0
    /\ a_featured attrs = a_featured attrs0.
Proof.
  rewrite update_steps. cbv zeta.
  destruct (is_authenticated who); [|discriminate].
  destruct (get_object _ _ who params k w) as [w0 [e|obj]] eqn:G; [discriminate|].
  pose proof (get_object_ok _ _ _ _ _ _ _ _ G) as (-> & Hin & Hk & _ & Hperm).
  assert (Hauthor : is_user who (author obj) = true).
  { assert (A : (if partial then act_partial_update else act_update) <> act_toggle_featured)
      by (destruct partial; discriminate).
    specialize (Hperm A). unfold IsAuthorOrReadOnly in Hperm.
    destruct partial; exact Hperm. }
  pose proof (is_valid_result ArticleUpdateSerializer partial (Some obj) data w) as V.
  destruct (to_internal_value ArticleUpdateSerializer partial (Some obj) (table w) data)
    as [errors|attrs0] eqn:T; rewrite V; [discriminate|].
  rewrite validate_result. cbv zeta.
  match goal with
  | |- context [if ?b then _ else _] => destruct b
  end.
  - destruct (perform_update_saves obj (with_published_at attrs0 (Some (clock w)))
                (mkWorld (table w) (S (clock w))))
      as (attrs & w1 & -> & Ht & Hc & A1 & A2 & A3 & A4 & A5 & _).
    intros H. exists obj, attrs0, attrs, w1. simpl in *. repeat split; auto; lia.
  - destruct (perform_update_saves obj attrs0 w)
      as (attrs & w1 & -> & Ht & Hc & A1 & A2 & A3 & A4 & A5 & _).
    intros H. exists obj, attrs0, attrs, w1. repeat split; auto.
Qed.

End UpdateFrame.

(** X12. A successful update was asked by the author of the article.  It
    rewrites the row with that key and no other row; the key, the author,
    the view count and the creation time of the row stay as they were, and
    so does a slug that was not empty, also when the title changes;
    [updated_at] becomes a reading of the clock taken during the update.
    The title and the content become the given ones trimmed, the tags the
    given ones in normal form, and what the request does not carry stays
    as it was. *)
Theorem update_rewrites_one_row :
  forall (partial : bool) (who : Identity) (params : Filters.Params) (k : nat)
         (data : Data) (w w' : World) (saved : Article),
    pk_unique (table w) ->
    Views.update partial who params k data w = (w', inr saved) ->
    exists before,
      row k w = Some before
      /\ is_user who (author before) = true
      /\ row k w' = Some saved
      /\ (forall j, j <> k -> row j w' = row j w)
      /\ pk saved = Some k
      /\ author saved = author before
      /\ view_count saved = view_count before
      /\ created_at saved = created_at before
      /\ (slug before <> "" -> slug saved = slug before)
      /\ clock w <= updated_at saved < clock w'
      /\ title saved
         = match given (d_title data) with Some t => strip t | None => title before end
      /\ content saved
         = match given (d_content data) with Some c => strip c | None => content before end
      /\ tags saved
         = match given (d_tags data) with
           | Some v => join "," (unique_tags [] (clean_tags v))
           | None => tags before
           end
      /\ featured saved
         = match given (d_featured data) with Some v => v | None => featured before end.
Proof.
  intros partial who params k data w w' saved U H.
  apply update_saves in H
    as (obj & attrs0 & attrs & w1 & Hin & Hk & Hauthor & T & S & Ht & Hc
        & A1 & A2 & A3 & A4 & A5).
  pose proof (to_internal_value_ok _ _ _ _ _ _ T) as (_ & Hf0 & _).
  pose proof (to_internal_value_values _ _ _ _ _ _ T) as (Ht0 & Hc0 & _ & Hg0).
  destruct (setattrs_keeps obj attrs) as (Xpk & Xslug & Xauthor & Xviews & Xcreated & _ & Xfeat & _).
  destruct (setattrs_texts obj attrs) as (Xtitle & Xcontent & _ & Xtags & _).
  assert (Hpk : pk (setattrs obj attrs) = Some k) by (rewrite Xpk; now apply has_pk_iff).
  assert (Hex : existsb (has_pk k) (table w1) = true).
  { rewrite Ht. apply existsb_exists. now exists obj. }
  destruct (save_existing _ _ k _ _ Hpk Hex S) as (a1 & F & -> & -> & _).
  pose proof (fill_slug_keeps _ _ _ F)
    as (_ & Etitle & Econtent & _ & Eauthor & _ & Efeat & Eviews & Etags & _ & Ecreated & _).
  destruct (fill_excerpt_keeps a1)
    as (Fpk & Fslug & Ftitle & Fcontent & Fauthor & _ & Ffeat & Fviews & Ftags & _ & Fcreated & _).
  assert (Hsaved_pk : has_pk k (set_updated_at (fill_excerpt a1) (clock w1)) = true).
  { apply has_pk_iff. simpl. rewrite Fpk. apply fill_slug_keeps in F as (-> & _). exact Hpk. }
  assert (Hslug : slug obj <> "" -> slug a1 = slug obj).
  { intros Hne. unfold fill_slug in F. rewrite Xslug in F.
    destruct (slug obj) eqn:So; [now contradiction Hne|].
    simpl in F. inversion F; subst a1. exact Xslug. }
  exists obj. split; [now apply row_of_member|]. split; [exact Hauthor|].
  split; [unfold row; cbn [table]; now apply find_map_replace|].
  split.
  { intros j Hj. unfold row. cbn [table]. rewrite Ht.
    now apply find_map_replace_other. }
  cbn [pk author view_count created_at slug updated_at title content tags featured
       set_updated_at clock].
  rewrite Fauthor, Fviews, Fcreated, Fslug, Ftitle, Fcontent, Ftags, Ffeat.
  rewrite Eauthor, Eviews, Ecreated, Etitle, Econtent, Etags, Efeat.
  rewrite Xauthor, Xviews, Xcreated, Xtitle, Xcontent, Xtags, Xfeat.
  rewrite A1, A2, A4, A5, Ht0, Hc0, Hg0, Hf0.
  split; [now apply has_pk_iff in Hsaved_pk|].
  split; [reflexivity|]. split; [reflexivity|]. split; [reflexivity|].
  split; [exact Hslug|]. split; [lia|].
  split; [destruct (given (d_title data)); reflexivity|].
  split; [destruct (given (d_content data)); reflexivity|].
  split; [destruct (given (d_tags data)); reflexivity | reflexivity].
Qed.

(** The update test: the author changes the title of the draft; the slug
    stays. *)
Lemma update_own_article_test :
  exists w' saved,
    Views.update true (Authenticated Fixtures.testuser) Filters.no_params 2
      (readable_data (mkAttrs (Some "Updated Article Title") None None None None None None)) Fixtures.world
    = (w', inr saved)
    /\ title saved = "Updated Article Title"
    /\ slug saved = "draft-test-article"
    /\ row 1 w' = Some Fixtures.published_article.
Proof.
  destruct (Views.update true (Authenticated Fixtures.testuser) Filters.no_params 2
      (readable_data (mkAttrs (Some "Updated Article Title") None None None None None None)) Fixtures.world)
    as [w' [e|saved]] eqn:E; [vm_compute in E; discriminate|].
  destruct (update_rewrites_one_row _ _ _ _ _ _ _ _ fixtures_pk_unique E)
    as (before & Hb & _ & _ & Hrest & _ & _ & _ & _ & Hslug & _ & Htitle & _).
  change (Some Fixtures.draft_article = Some before) in Hb. inversion Hb; subst before.
  exists w', saved. split; [reflexivity|]. split; [exact Htitle|].
  split; [apply Hslug; discriminate|]. rewrite (Hrest 1) by discriminate. reflexivity.
Defined.

(** ** What every request keeps *)

Section TableInvariant.
Import Views.

Lemma slug_exists_free (rows : list Article) (s : string) (a : Article) :
  slug_exists rows None s = false -> In a rows -> slug a <> s.
Proof.
  unfold slug_exists, exclude_pk. intros H Hin E.
  assert (T : existsb (fun row => String.eqb (slug row) s) rows = true).
  { apply existsb_exists. exists a. split; [exact Hin | now apply String.eqb_eq]. }
  congruence.
Qed.

Lemma slug_exists_free_but (rows : list Article) (k : nat) (s : string) (a : Article) :
  slug_exists rows (Some k) s = false -> In a rows -> has_pk k a = false -> slug a <> s.
Proof.
  unfold slug_exists, exclude_pk. intros H Hin Hk E.
  assert (T : existsb (fun row => String.eqb (slug row) s)
                (filter (fun row => negb (has_pk k row)) rows) = true).
  { apply existsb_exists. exists a. split; [|now apply String.eqb_eq].
    apply filter_In. split; [exact Hin | now rewrite Hk]. }
  congruence.
Qed.

Lemma slug_unique_insert (rows : list Article) (a : Article) :
  slug_unique rows -> slug_exists rows None (slug a) = false -> slug_unique (rows ++ [a]).
Proof.
  intros U Ha x y Hx Hy E.
  apply in_app_or in Hx as [Hx | [<- | []]]; apply in_app_or in Hy as [Hy | [<- | []]].
  - now apply U.
  - exfalso. exact (slug_exists_free rows _ x Ha Hx E).
  - exfalso. symmetry in E. exact (slug_exists_free rows _ y Ha Hy E).
  - reflexivity.
Qed.

Lemma slug_unique_map (f : Article -> Article) (rows : list Article) :
  (forall r, slug (f r) = slug r) -> slug_unique rows -> slug_unique (map f rows).
Proof.
  intros Hf U x y Hx Hy E.
  apply in_map_iff in Hx as [a [<- Ha]]. apply in_map_iff in Hy as [b [<- Hb]].
  rewrite !Hf in E. now rewrite (U a b Ha Hb E).
Qed.

Lemma slug_unique_filter (f : Article -> bool) (rows : list Article) :
  slug_unique rows -> slug_unique (filter f rows).
Proof.
  intros U x y Hx Hy. apply filter_In in Hx as [Hx _]. apply filter_In in Hy as [Hy _].
  now apply U.
Qed.

(** Replacing the row with key [k] by a row whose slug no other row has. *)
Lemma slug_unique_replace (rows : list Article) (k : nat) (s : Article) :
  slug_unique rows -> slug_exists rows (Some k) (slug s) = false ->
  slug_unique (map (fun r => if has_pk k r then s else r) rows).
Proof.
  intros U Hs x y Hx Hy E.
  apply in_map_iff in Hx as [a [<- Ha]]. apply in_map_iff in Hy as [b [<- Hb]].
  destruct (has_pk k a) eqn:Ka; destruct (has_pk k b) eqn:Kb.
  - reflexivity.
  - exfalso. symmetry in E. exact (slug_exists_free_but rows k _ b Hs Hb Kb E).
  - exfalso. exact (slug_exists_free_but rows k _ a Hs Ha Ka E).
  - now apply U.
Qed.

Lemma pk_unique_replace (rows : list Article) (k : nat) (s : Article) :
  pk_unique rows -> pk s = Some k ->
  pk_unique (map (fun r => if has_pk k r then s else r) rows).
Proof.
  intros U Hs. apply pk_unique_map; [|exact U].
  intros r. destruct (has_pk k r) eqn:Kr; [|reflexivity].
  apply has_pk_iff in Kr. congruence.
Qed.

Lemma create_keeps_slug_unique (user : User) (data : Data) (w w' : World) (created : Article) :
  slug_unique (table w) ->
  create (Authenticated user) data w = (w', inr created) ->
  slug_unique (table w').
Proof.
  intros U H.
  apply create_runs in H as (attrs0 & attrs1 & w1 & r & _ & Val & Hr & Hc & ->).
  destruct (validate_succeeds None attrs0 w) as (w2 & attrs2 & Val' & Ht).
  rewrite Val in Val'. inversion Val'; subst w2 attrs2.
  pose proof (unique_slug_some _ _ _ _ _ _ Hr) as [Hfree _].
  cbn [table]. rewrite Ht in *. apply slug_unique_insert; [exact U|].
  subst created. cbn [slug set_pk set_updated_at set_created_at].
  destruct (fill_excerpt_keeps (set_slug (setattrs (new_article "" "" user) attrs1) r))
    as (_ & -> & _).
  exact Hfree.
Qed.

Lemma update_keeps_unique (partial : bool) (who : Identity) (params : Filters.Params)
    (k : nat) (data : Data) (w w' : World) (saved : Article) :
  pk_unique (table w) -> slug_unique (table w) ->
  update partial who params k data w = (w', inr saved) ->
  pk_unique (table w') /\ slug_unique (table w').
Proof.
  intros P U H.
  apply update_saves in H
    as (obj & attrs0 & attrs & w1 & Hin & Hk & _ & _ & S & Ht & _).
  destruct (setattrs_keeps obj attrs) as (Xpk & _).
  assert (Hpk : pk (setattrs obj attrs) = Some k) by (rewrite Xpk; now apply has_pk_iff).
  assert (Hex : existsb (has_pk k) (table w1) = true).
  { rewrite Ht. apply existsb_exists. now exists obj. }
  destruct (save_existing _ _ k _ _ Hpk Hex S) as (a1 & F & Hsaved & -> & Hfree).
  cbn [table]. rewrite Ht in *. split.
  - apply pk_unique_replace; [exact P|].
    rewrite Hsaved. cbn [pk set_updated_at].
    destruct (fill_excerpt_keeps a1) as (-> & _).
    apply fill_slug_keeps in F as (-> & _). exact Hpk.
  - now apply slug_unique_replace.
Qed.

Lemma retrieve_keeps_slug_unique (who : Identity) (params : Filters.Params) (k : nat)
    (w w' : World) (shown : Article) :
  pk_unique (table w) -> slug_unique (table w) ->
  retrieve who params k w = (w', inr shown) ->
  slug_unique (table w').
Proof.
  intros P U H.
  destruct (get_object act_retrieve GET who params k w) as [w1 [e|obj]] eqn:G.
  - rewrite (retrieve_not_found _ _ _ _ _ _ G) in H. discriminate.
  - pose proof (get_object_ok _ _ _ _ _ _ _ _ G) as (_ & Hin & Hk & _).
    rewrite (retrieve_found _ _ _ _ _ _ G (row_of_member k w obj P Hin Hk)) in H.
    destruct (status_eqb (status obj) published); inversion H; subst; [|exact U].
    simpl. apply slug_unique_map; [|exact U].
    intros r. destruct (has_pk k r); reflexivity.
Qed.

Lemma toggle_keeps_unique (who : Identity) (params : Filters.Params) (k : nat)
    (w w' : World) (answer : bool) :
  pk_unique (table w) -> slug_unique (table w) ->
  toggle_featured who params k w = (w', inr answer) ->
  pk_unique (table w') /\ slug_unique (table w').
Proof.
  intros P U H. pose proof (toggle_needs_staff _ _ _ _ _ _ H) as Hstaff.
  destruct (get_object act_toggle_featured POST who params k w) as [w1 [e|obj]] eqn:G.
  - exfalso. revert H.
    unfold toggle_featured, Handler.bind, check_permissions, IsAuthenticated.
    rewrite (staff_is_authenticated _ Hstaff), Hstaff. cbn [negb Handler.ret]. rewrite G.
    discriminate.
  - rewrite (toggle_found _ _ _ _ _ _ Hstaff G) in H. inversion H; subst. cbn [table].
    split.
    + apply pk_unique_map; [|exact P]. intros r. unfold flagged.
      destruct (has_pk k r); reflexivity.
    + apply slug_unique_map; [|exact U]. intros r. unfold flagged.
      destruct (has_pk k r); reflexivity.
Qed.

Lemma destroy_keeps_unique (who : Identity) (params : Filters.Params) (k : nat)
    (w w' : World) :
  pk_unique (table w) -> slug_unique (table w) ->
  destroy who params k w = (w', inr tt) ->
  pk_unique (table w') /\ slug_unique (table w').
Proof.
  intros P U. rewrite destroy_steps.
  destruct (is_authenticated who); [|discriminate].
  destruct (get_object act_destroy DELETE who params k w) as [w1 [e|obj]] eqn:G; [discriminate|].
  pose proof (get_object_ok _ _ _ _ _ _ _ _ G) as (-> & _).
  intros H. inversion H; subst. cbn [table].
  split; [now apply pk_unique_filter | now apply slug_unique_filter].
Qed.

Lemma fixtures_slug_unique : slug_unique (table Fixtures.world).
Proof.
  intros a b [<- | [<- | []]] [<- | [<- | []]]; (reflexivity || discriminate).
Qed.

End TableInvariant.

(** X13. The requests that write keep the table a table: when no two rows
    share a key and no two rows share a slug, the same holds after a
    successful creation, update, retrieval, toggle of the featured flag
    or deletion. *)
Theorem requests_keep_keys_and_slugs_unique :
  forall (w w' : World),
    pk_unique (table w) -> slug_unique (table w) ->
    (exists user data created,
        Views.create (Authenticated user) data w = (w', inr created))
    \/ (exists partial who params k data saved,
        Views.update partial who params k data w = (w', inr saved))
    \/ (exists who params k shown,
        Views.retrieve who params k w = (w', inr shown))
    \/ (exists who params k answer,
        Views.toggle_featured who params k w = (w', inr answer))
    \/ (exists who params k,
        Views.destroy who params k w = (w', inr tt)) ->
    pk_unique (table w') /\ slug_unique (table w').
Proof.
  intros w w' P U
    [(user & data & created & H)
    | [(partial & who & params & k & data & saved & H)
    | [(who & params & k & shown & H)
    | [(who & params & k & answer & H)
    | (who & params & k & H)]]]].
  - split; [eapply create_keeps_pk_unique | eapply create_keeps_slug_unique]; eauto.
  - eapply update_keeps_unique; eauto.
  - split; [eapply retrieve_keeps_pk_unique | eapply retrieve_keeps_slug_unique]; eauto.
  - eapply toggle_keeps_unique; eauto.
  - eapply destroy_keeps_unique; eauto.
Qed.

(** Creating a third article beside the two of the fixtures. *)
Lemma create_keeps_table_test :
  exists w' created,
    Views.create (Authenticated Fixtures.otheruser)
      (readable_data (mkAttrs (Some "Another Test Article")
         (Some "Content long enough to pass the validation of the serializer.")
         None None None None None)) Fixtures.world
    = (w', inr created)
    /\ pk_unique (table w') /\ slug_unique (table w').
Proof.
  destruct (Views.create (Authenticated Fixtures.otheruser)
      (readable_data (mkAttrs (Some "Another Test Article")
         (Some "Content long enough to pass the validation of the serializer.")
         None None None None None)) Fixtures.world)
    as [w' [e|created]] eqn:E; [vm_compute in E; discriminate|].
  exists w', created. split; [reflexivity|].
  apply (requests_keep_keys_and_slugs_unique Fixtures.world w'
           fixtures_pk_unique fixtures_slug_unique).
  left. do 3 eexists. exact E.
Defined.

(** ** The actions of the admin site *)

Section AdminFacts.

Lemma selected_by_pk (keys : list nat) (a b : Article) :
  pk a = pk b -> Admin.selected keys a = Admin.selected keys b.
Proof.
  intros E. unfold Admin.selected.
  induction keys as [|k keys IH]; simpl; [reflexivity|].
  unfold has_pk at 1 3. now rewrite E, IH.
Qed.

(** A rewrite of the rows that keeps their keys is seen row by row. *)
Lemma find_map_keyed (f : Article -> Article) (j : nat) (rows : list Article) :
  (forall r, pk (f r) = pk r) ->
  find (has_pk j) (map f rows) = option_map f (find (has_pk j) rows).
Proof.
  intros Hf. induction rows as [|x rows IH]; simpl; [reflexivity|].
  assert (E : has_pk j (f x) = has_pk j x) by (unfold has_pk; now rewrite Hf).
  rewrite E. destruct (has_pk j x); [reflexivity | exact IH].
Qed.

(** The selection goes by key: a rewrite that keeps the keys keeps the
    number of selected rows. *)
Lemma selected_count_map (keys : list nat) (f : Article -> Article) (rows : list Article) :
  (forall r, pk (f r) = pk r) ->
  length (filter (Admin.selected keys) (map f rows))
  = length (filter (Admin.selected keys) rows).
Proof.
  intros Hf. induction rows as [|x rows IH]; simpl; [reflexivity|].
  rewrite (selected_by_pk keys (f x) x (Hf x)).
  destruct (Admin.selected keys x); simpl; now rewrite IH.
Qed.

Lemma mark_as_published_runs (keys : list nat) (w : World) :
  Admin.mark_as_published keys w
  = (mkWorld (map (fun row => if Admin.selected keys row
                              then set_published_at (set_status row published) (Some (clock w))
                              else row) (table w)) (S (clock w)),
     inr (length (filter (Admin.selected keys) (table w)))).
Proof. reflexivity. Qed.

Lemma mark_as_draft_runs (keys : list nat) (w : World) :
  Admin.mark_as_draft keys w
  = (mkWorld (map (fun row => if Admin.selected keys row
                              then set_published_at (set_status row draft) None
                              else row) (table w)) (clock w),
     inr (length (filter (Admin.selected keys) (table w)))).
Proof. reflexivity. Qed.

End AdminFacts.

(** X14. The admin action that publishes answers with the number of
    selected rows.  Every selected row becomes published and gets the
    time of the action as [published_at], also a row that was published
    before; nothing else of it changes, [updated_at] included, and a row
    that is not selected stays as it is.  From then on every selected row
    is in the collection of a requester without credentials. *)
Theorem admin_publishing_restamps_and_shows :
  forall (keys : list nat) (w : World),
    exists w',
      Admin.mark_as_published keys w
      = (w', inr (length (filter (Admin.selected keys) (table w))))
      /\ (forall k, row k w'
                    = option_map (fun before =>
                        if Admin.selected keys before
                        then set_published_at (set_status before published) (Some (clock w))
                        else before) (row k w))
      /\ (forall a, In a (table w') -> Admin.selected keys a = true ->
                    status a = published /\ published_at a = Some (clock w)
                    /\ In a (Views.get_queryset AnonymousUser (table w')))
      /\ clock w < clock w'.
Proof.
  intros keys w. rewrite mark_as_published_runs. eexists. split; [reflexivity|].
  cbn [table clock]. split; [|split; [|lia]].
  - intros k. unfold row. cbn [table]. apply find_map_keyed.
    intros r. destruct (Admin.selected keys r); reflexivity.
  - intros a Hin Hsel. apply in_map_iff in Hin as [r [E Hr]].
    assert (S : Admin.selected keys r = true).
    { rewrite <- Hsel. apply selected_by_pk. rewrite <- E.
      destruct (Admin.selected keys r); reflexivity. }
    rewrite S in E.
    assert (St : status a = published) by (now rewrite <- E).
    split; [exact St|]. split; [now rewrite <- E|].
    unfold Views.get_queryset. cbn [is_authenticated negb].
    apply filter_In. split.
    + apply in_map_iff. exists r. rewrite S. now split.
    + rewrite St. reflexivity.
Qed.

(** X15. The admin action that drafts gives every selected row the status
    draft and no [published_at], and moves no clock; no selected row is
    in the collection of a requester without credentials afterwards.
    Drafting what the publishing action just published leaves the table
    that drafting alone leaves: the former [published_at] of a row is not
    restored. *)
Theorem admin_drafting_hides_and_forgets :
  forall (keys : list nat) (w : World),
    exists w' w1 w2,
      Admin.mark_as_draft keys w
      = (w', inr (length (filter (Admin.selected keys) (table w))))
      /\ clock w' = clock w
      /\ (forall k, row k w'
                    = option_map (fun before =>
                        if Admin.selected keys before
                        then set_published_at (set_status before draft) None
                        else before) (row k w))
      /\ (forall a, In a (Views.get_queryset AnonymousUser (table w')) ->
                    Admin.selected keys a = false)
      /\ Admin.mark_as_published keys w
         = (w1, inr (length (filter (Admin.selected keys) (table w))))
      /\ Admin.mark_as_draft keys w1
         = (w2, inr (length (filter (Admin.selected keys) (table w))))
      /\ table w2 = table w'.
Proof.
  intros keys w. rewrite mark_as_draft_runs, mark_as_published_runs.
  eexists _, _, _. split; [reflexivity|]. cbn [table clock].
  split; [reflexivity|]. split; [|split; [|split; [reflexivity|]]].
  - intros k. unfold row. cbn [table]. apply find_map_keyed.
    intros r. destruct (Admin.selected keys r); reflexivity.
  - intros a Hin. unfold Views.get_queryset in Hin. cbn [is_authenticated negb] in Hin.
    apply filter_In in Hin as [Hin St]. apply in_map_iff in Hin as [r [E Hr]].
    destruct (Admin.selected keys a) eqn:Hsel; [exfalso | reflexivity].
    assert (S : Admin.selected keys r = true).
    { rewrite <- Hsel. apply selected_by_pk. rewrite <- E.
      destruct (Admin.selected keys r); reflexivity. }
    rewrite S in E. rewrite <- E in St. discriminate.
  - rewrite mark_as_draft_runs. cbn [table clock].
    rewrite selected_count_map
      by (intros r; destruct (Admin.selected keys r); reflexivity).
    split; [reflexivity|]. cbn [table].
    rewrite map_map. apply map_ext. intros r.
    destruct (Admin.selected keys r) eqn:Sr.
    + assert (E : Admin.selected keys
                    (set_published_at (set_status r published) (Some (clock w))) = true)
        by (rewrite <- Sr; now apply selected_by_pk).
      rewrite E. now destruct r.
    + now rewrite Sr.
Qed.

(** ** The loop of the admin toggle *)

Section AdminToggle.

Lemma existsb_has_pk_map (f : Article -> Article) (k : nat) (rows : list Article) :
  (forall r, pk (f r) = pk r) ->
  existsb (has_pk k) (map f rows) = existsb (has_pk k) rows.
Proof.
  intros Hf. induction rows as [|x rows IH]; simpl; [reflexivity|].
  rewrite IH. f_equal. unfold has_pk. now rewrite Hf.
Qed.

Lemma flagged_pk (v : bool) (k : nat) (r : Article) : pk (flagged v k r) = pk r.
Proof. unfold flagged. destruct (has_pk k r); reflexivity. Qed.

(** The loop, one save after the other, seen on each row. *)
Lemma toggle_each_run (l : list Article) :
  forall w : World,
    (forall a, In a l -> exists k, pk a = Some k /\ existsb (has_pk k) (table w) = true) ->
    Admin.toggle_each l w
    = (mkWorld (map (fun r => fold_left turn l r) (table w)) (clock w), inr tt).
Proof.
  induction l as [|a l IH]; intros w H.
  - destruct w. cbn [fold_left]. now rewrite map_id.
  - destruct (H a (or_introl eq_refl)) as (k & Hk & Hex).
    cbn [Admin.toggle_each]. unfold Handler.bind.
    destruct (save_featured_only (set_featured a (negb (featured a))) k w Hk Hex)
      as [a' [S _]].
    rewrite S. cbn [featured set_featured]. rewrite IH.
    + cbn [table clock fold_left]. rewrite map_map. f_equal. f_equal.
      apply map_ext. intros r. unfold turn at 3. now rewrite Hk.
    + intros b Hb. destruct (H b (or_intror Hb)) as (j & Hj & Hexj).
      exists j. split; [exact Hj|]. cbn [table].
      rewrite existsb_has_pk_map; [exact Hexj | apply flagged_pk].
Qed.

Lemma set_featured_twice (r : Article) (u v : bool) :
  set_featured (set_featured r u) v = set_featured r v.
Proof. now destruct r. Qed.

(** The instances of the loop are read before the loop starts, so every
    row is written with the negation of what it held at the start. *)
Lemma fold_turn_row (rows0 : list Article) (r : Article) (l : list Article) :
  pk_unique rows0 -> In r rows0 ->
  (forall a, In a l -> In a rows0 /\ pk a <> None) ->
  forall r', pk r' = pk r -> r' = r \/ r' = toggled r ->
    (In r l -> fold_left turn l r' = toggled r)
    /\ (~ In r l -> fold_left turn l r' = r')
    /\ (r' = toggled r -> fold_left turn l r' = toggled r).
Proof.
  intros U Hr. induction l as [|a l IH]; intros Hl r' Hpk Hr'.
  - split; [intros [] | split; [reflexivity | intros ->; reflexivity]].
  - assert (Hl' : forall b, In b l -> In b rows0 /\ pk b <> None)
      by (intros b Hb; apply Hl; now right).
    destruct (Hl a (or_introl eq_refl)) as [Ha Hka].
    cbn [fold_left].
    destruct (pk a) as [k|] eqn:Ka; [|congruence].
    assert (T : turn r' a = if has_pk k r' then set_featured r' (negb (featured a)) else r')
      by (unfold turn, flagged; now rewrite Ka).
    rewrite T. destruct (has_pk k r') eqn:Kr.
    + assert (a = r) as ->.
      { apply U; auto. apply has_pk_iff in Kr. congruence. }
      assert (E : set_featured r' (negb (featured r)) = toggled r).
      { destruct Hr' as [-> | ->]; [reflexivity | apply set_featured_twice]. }
      rewrite E.
      assert (Hpk' : pk (toggled r) = pk r) by reflexivity.
      destruct (IH Hl' (toggled r) Hpk' (or_intror eq_refl)) as (_ & _ & I3).
      specialize (I3 eq_refl). split; [|split].
      * intros _. exact I3.
      * intros Hout. exfalso. apply Hout. now left.
      * intros _. exact I3.
    + assert (Hne : a <> r).
      { intros ->. unfold has_pk in Kr. rewrite Hpk, Ka, Nat.eqb_refl in Kr. discriminate. }
      destruct (IH Hl' r' Hpk Hr') as (I1 & I2 & I3). split; [|split].
      * intros [E | Hin]; [contradiction | now apply I1].
      * intros Hout. apply I2. intros Hin. apply Hout. now right.
      * exact I3.
Qed.

(** The admin toggle on a table with unique keys, in one step. *)
Lemma admin_toggle_runs (keys : list nat) (w : World) :
  pk_unique (table w) ->
  Admin.toggle_featured keys w
  = (mkWorld (map (fun r => if Admin.selected keys r then toggled r else r) (table w))
       (clock w),
     inr (length (filter (Admin.selected keys) (table w)))).
Proof.
  intros U. unfold Admin.toggle_featured, Handler.bind, get_table, Handler.gets, Handler.ret.
  assert (Hl : forall a, In a (filter (Admin.selected keys) (table w)) ->
                 In a (table w) /\ pk a <> None).
  { intros a Ha. apply filter_In in Ha as [Ha Hs]. split; [exact Ha|].
    unfold Admin.selected in Hs. apply existsb_exists in Hs as (k & _ & Hk).
    apply has_pk_iff in Hk. congruence. }
  rewrite toggle_each_run.
  - cbn [table clock].
    assert (E : map (fun r => fold_left turn (filter (Admin.selected keys) (table w)) r)
                  (table w)
                = map (fun r => if Admin.selected keys r then toggled r else r) (table w)).
    { apply map_ext_in. intros r Hr.
      destruct (fold_turn_row (table w) r (filter (Admin.selected keys) (table w))
                  U Hr Hl r eq_refl (or_introl eq_refl)) as (I1 & I2 & _).
      destruct (Admin.selected keys r) eqn:Sr.
      - apply I1. apply filter_In. now split.
      - apply I2. intros Hin. apply filter_In in Hin as [_ Hin]. congruence. }
    rewrite E. f_equal. f_equal. apply selected_count_map.
    intros r. destruct (Admin.selected keys r); reflexivity.
  - intros a Ha. destruct (Hl a Ha) as [Hin Hk].
    destruct (pk a) as [k|] eqn:Ka; [|congruence].
    exists k. split; [reflexivity|]. apply existsb_exists. exists a.
    split; [exact Hin | now apply has_pk_iff].
Qed.

End AdminToggle.

(** X16. On a table with unique keys the admin toggle negates the
    featured flag of every selected row and writes nothing else: no
    other column, [updated_at] included, no other row, no clock.  It
    answers with the number of selected rows, and applied twice it
    leaves the world as it was. *)
Theorem admin_toggle_negates_selected_rows :
  forall (keys : list nat) (w : World),
    pk_unique (table w) ->
    exists w',
      Admin.toggle_featured keys w
      = (w', inr (length (filter (Admin.selected keys) (table w))))
      /\ clock w' = clock w
      /\ (forall k, row k w'
                    = option_map (fun before =>
                        if Admin.selected keys before
                        then set_featured before (negb (featured before))
                        else before) (row k w))
      /\ Admin.toggle_featured keys w'
         = (w, inr (length (filter (Admin.selected keys) (table w)))).
Proof.
  intros keys w U. rewrite (admin_toggle_runs keys w U). eexists. split; [reflexivity|].
  cbn [table clock]. split; [reflexivity|]. split.
  - intros k. unfold row. cbn [table]. apply find_map_keyed.
    intros r. destruct (Admin.selected keys r); reflexivity.
  - rewrite admin_toggle_runs.
    + cbn [table clock].
      rewrite selected_count_map
        by (intros r; destruct (Admin.selected keys r); reflexivity).
      f_equal. destruct w as [rows t]. cbn [table clock]. f_equal.
      rewrite map_map. rewrite <- (map_id rows) at 2. apply map_ext. intros r.
      destruct (Admin.selected keys r) eqn:Sr.
      * assert (E : Admin.selected keys (toggled r) = true)
          by (rewrite <- Sr; now apply selected_by_pk).
        rewrite E. unfold toggled. destruct r. cbn. now rewrite negb_involutive.
      * now rewrite Sr.
    + cbn [table]. apply pk_unique_map; [|exact U].
      intros r. destruct (Admin.selected keys r); reflexivity.
Qed.

(** Toggling both articles of the fixtures in the admin. *)
Lemma admin_toggle_test :
  exists w',
    Admin.toggle_featured [1; 2] Fixtures.world = (w', inr 2)
    /\ row 1 w' = Some (set_featured Fixtures.published_article true)
    /\ row 2 w' = Some (set_featured Fixtures.draft_article true)
    /\ Admin.toggle_featured [1; 2] w' = (Fixtures.world, inr 2).
Proof.
  destruct (admin_toggle_negates_selected_rows [1; 2] Fixtures.world fixtures_pk_unique)
    as (w' & H & _ & Hrow & Hback).
  exists w'. split; [exact H|]. split; [exact (Hrow 1)|]. split; [exact (Hrow 2) | exact Hback].
Defined.

(** ** Word count and reading time *)

Section ReadingFacts.

Lemma round_div_monotone (n m d : nat) :
  0 < d -> n <= m -> round_div n d <= round_div m d.
Proof.
  intros Hd Hnm.
  pose proof (round_div_rounds n d Hd) as Rn. pose proof (round_div_rounds m d Hd) as Rm.
  revert Rn Rm. generalize (round_div n d) (round_div m d).
  intros r r' (A & B & C) (A' & B' & C').
  destruct (Nat.le_gt_cases r r') as [L | L]; [exact L | exfalso].
  assert (r = S r') by nia. subst r. clear L.
  assert (E1 : 2 * (d * S r') = 2 * n + d) by nia.
  assert (E2 : 2 * m = 2 * (d * r') + d) by nia.
  specialize (C (or_introl E1)). specialize (C' (or_intror E2)).
  rewrite Nat.even_succ in C. unfold Nat.odd in C. rewrite C' in C. discriminate.
Qed.

(** One minute is the reading time of less than 300 words: 300 words
    are a tie between 1 and 2, which goes to 2. *)
Lemma round_div_200_one (n : nat) : Nat.max 1 (round_div n 200) = 1 <-> n < 300.
Proof.
  pose proof (round_div_rounds n 200 ltac:(lia)) as R.
  revert R. generalize (round_div n 200). intros r (A & B & C). split.
  - intros H. assert (R : r <= 1) by lia.
    destruct (Nat.lt_ge_cases n 300) as [L | L]; [exact L | exfalso].
    assert (r = 1) by lia. subst r. assert (n = 300) by lia. subst n.
    assert (E : 2 * 300 = 2 * (200 * 1) + 200) by lia.
    specialize (C (or_intror E)). discriminate.
  - intros H. assert (r <= 1) by lia. lia.
Qed.

End ReadingFacts.

(** X17. The word count of the detail serializer and the one of the admin
    are the number of whitespace-separated tokens of the content, also
    for an empty content.  The reading time is at least one minute, it
    is one minute exactly for less than 300 words, and it never gets
    shorter when the content has more words; the admin shows it as
    [1 min] and from two minutes on with [mins]. *)
Theorem reading_time_grows_with_word_count :
  forall a b : Article,
    get_word_count a = length (split (content a))
    /\ Admin.word_count_display a = get_word_count a
    /\ 1 <= reading_time a
    /\ (reading_time a = 1 <-> get_word_count a < 300)
    /\ (get_word_count a <= get_word_count b -> reading_time a <= reading_time b)
    /\ Admin.reading_time_display a
       = if get_word_count a <? 300 then "1 min"
         else (str_of_nat (reading_time a) ++ " mins")%string.
Proof.
  intros a b.
  assert (W : forall x, get_word_count x = length (split (content x))).
  { intros x. unfold get_word_count. destruct (content x); reflexivity. }
  split; [apply W|]. split.
  { reflexivity. }
  rewrite !W. unfold reading_time. cbv zeta.
  split; [lia|]. split; [apply round_div_200_one|]. split.
  - intros H. pose proof (round_div_monotone _ _ 200 ltac:(lia) H). lia.
  - unfold Admin.reading_time_display, reading_time. cbv zeta.
    destruct (length (split (content a)) <? 300) eqn:L.
    + apply Nat.ltb_lt, round_div_200_one in L. rewrite L. reflexivity.
    + apply Nat.ltb_ge in L.
      assert (N : Nat.max 1 (round_div (length (split (content a))) 200) <> 1).
      { intros E. apply round_div_200_one in E. lia. }
      apply Nat.eqb_neq in N. rewrite N. reflexivity.
Qed.

(** ** The excerpt through the API *)

(** X18. What a request stores as excerpt.  A creation stores the given
    excerpt trimmed, and the one derived from the stored content when
    none is given or the given one is blank.  An update that carries no
    excerpt keeps the excerpt of the article, also when it changes the
    content; only an article without excerpt, or a request with a blank
    excerpt, gets the excerpt derived from the content again. *)
Theorem excerpt_is_derived_only_when_blank :
  forall (w w' : World) (stored : Article),
    (forall user data,
        Views.create (Authenticated user) data w = (w', inr stored) ->
        let asked := match given (d_excerpt data) with Some v => strip v | None => "" end in
        excerpt stored
        = if truthy asked then asked else derive_excerpt (content stored))
    /\ (forall partial who params k data,
          Views.update partial who params k data w = (w', inr stored) ->
          exists before,
            In before (table w) /\ has_pk k before = true
            /\ let asked := match given (d_excerpt data) with
                            | Some v => strip v
                            | None => excerpt before
                            end in
               excerpt stored
               = if truthy asked then asked else derive_excerpt (content stored)).
Proof.
  intros w w' stored. split.
  - intros user data H. cbv zeta.
    apply create_runs in H as (attrs0 & attrs1 & w1 & r & T & Val & _ & Hc & _).
    pose proof (to_internal_value_values _ _ _ _ _ _ T) as (_ & _ & He0 & _).
    assert (He1 : a_excerpt attrs1 = a_excerpt attrs0).
    { rewrite validate_result in Val. cbv zeta in Val.
      match type of Val with
      | (if ?b then _ else _) = _ => destruct b
      end; inversion Val; reflexivity. }
    destruct (setattrs_texts (new_article "" "" user) attrs1) as (_ & _ & Xe & _).
    rewrite He1, He0 in Xe. cbn [excerpt new_article] in Xe.
    destruct (fill_excerpt_keeps (set_slug (setattrs (new_article "" "" user) attrs1) r))
      as (_ & _ & _ & Fc & _).
    subst stored. cbn [excerpt content set_pk set_updated_at set_created_at].
    rewrite fill_excerpt_excerpt, Fc. cbn [excerpt content set_slug]. rewrite Xe.
    destruct (given (d_excerpt data)); reflexivity.
  - intros partial who params k data H.
    apply update_saves in H
      as (obj & attrs0 & attrs & w1 & Hin & Hk & _ & T & S & Ht & _ & _ & _ & A3 & _).
    pose proof (to_internal_value_values _ _ _ _ _ _ T) as (_ & _ & He0 & _).
    destruct (setattrs_keeps obj attrs) as (Xpk & _).
    destruct (setattrs_texts obj attrs) as (_ & _ & Xe & _).
    rewrite A3, He0 in Xe.
    assert (Hpk : pk (setattrs obj attrs) = Some k) by (rewrite Xpk; now apply has_pk_iff).
    assert (Hex : existsb (has_pk k) (table w1) = true).
    { rewrite Ht. apply existsb_exists. now exists obj. }
    destruct (save_existing _ _ k _ _ Hpk Hex S) as (a1 & F & -> & _).
    pose proof (fill_slug_keeps _ _ _ F) as (_ & _ & Ec & Ee & _).
    destruct (fill_excerpt_keeps a1) as (_ & _ & _ & Fc & _).
    exists obj. split; [exact Hin|]. split; [exact Hk|]. cbv zeta.
    cbn [excerpt content set_updated_at].
    rewrite fill_excerpt_excerpt, Fc, Ee, Xe.
    destruct (given (d_excerpt data)); reflexivity.
Qed.

(** The author changes the content of the draft: the excerpt stays the
    one of the former content. *)
Lemma update_content_keeps_excerpt_test :
  exists w' saved,
    Views.update true (Authenticated Fixtures.testuser) Filters.no_params 2
      (readable_data (mkAttrs None (Some "A content that says something else than before.")
         None None None None None)) Fixtures.world
    = (w', inr saved)
    /\ content saved = "A content that says something else than before."
    /\ excerpt saved = "This is a draft test article with enough content.".
Proof.
  destruct (Views.update true (Authenticated Fixtures.testuser) Filters.no_params 2
      (readable_data (mkAttrs None (Some "A content that says something else than before.")
         None None None None None)) Fixtures.world)
    as [w' [e|saved]] eqn:E; [vm_compute in E; discriminate|].
  destruct (excerpt_is_derived_only_when_blank Fixtures.world w' saved) as [_ U].
  destruct (U _ _ _ _ _ E) as (before & Hin & Hk & He).
  exists w', saved. split; [reflexivity|]. split.
  - vm_compute in E. inversion E. reflexivity.
  - destruct Hin as [<- | [<- | []]]; [discriminate Hk | exact He].
Defined.

(** ** Requests that are refused *)

Section Refusals.
Import Views.

Lemma model_save_failed (uf : option (list Field)) (a : Article) (w w' : World) (e : Error) :
  model_save uf a w = (w', inl e) -> table w' = table w.
Proof.
  unfold model_save, violates_unique_slug. run_handler.
  destruct uf as [[|f fs]|].
  - discriminate.
  - destruct (pk a) as [k|]; [|intros H; now inversion H].
    repeat match goal with
           | |- context [if ?b then _ else _] => destruct b; simpl
           end;
      intros H; now inversion H.
  - destruct (pk a) as [k|].
    + destruct (existsb (has_pk k) (table w)); simpl;
        (destruct (slug_exists _ _ _); intros H; now inversion H).
    + destruct (slug_exists _ _ _); intros H; now inversion H.
Qed.

Lemma save_failed (uf : option (list Field)) (a : Article) (w w' : World) (e : Error) :
  save uf a w = (w', inl e) -> table w' = table w.
Proof.
  unfold save, Handler.bind, get_table, Handler.gets.
  destruct (fill_slug_total (table w) a) as [a1 ->]. apply model_save_failed.
Qed.

Lemma create_failed (who : Identity) (data : Data) (w w' : World) (e : Error) :
  create who data w = (w', inl e) -> table w' = table w.
Proof.
  destruct who as [|user]; unfold create, Handler.bind, check_permissions; simpl;
    [intros H; now inversion H|].
  pose proof (is_valid_result ArticleCreateSerializer false None data w) as V.
  destruct (to_internal_value ArticleCreateSerializer false None (table w) data) as [fs|attrs];
    rewrite V; [intros H; now inversion H|].
  destruct (validate_succeeds None attrs w) as (w1 & attrs1 & -> & Ht).
  unfold Serializers.create. intros H. apply save_failed in H. congruence.
Qed.

Lemma update_failed (partial : bool) (who : Identity) (params : Filters.Params)
    (k : nat) (data : Data) (w w' : World) (e : Error) :
  update partial who params k data w = (w', inl e) -> table w' = table w.
Proof.
  rewrite update_steps. cbv zeta.
  destruct (is_authenticated who); [|intros H; now inversion H].
  destruct (get_object _ _ who params k w) as [w0 [e0|obj]] eqn:G.
  - apply get_object_err in G as [-> _]. intros H; now inversion H.
  - pose proof (get_object_ok _ _ _ _ _ _ _ _ G) as (-> & _).
    pose proof (is_valid_result ArticleUpdateSerializer partial (Some obj) data w) as V.
    destruct (to_internal_value ArticleUpdateSerializer partial (Some obj) (table w) data)
      as [fs|attrs]; rewrite V; [intros H; now inversion H|].
    destruct (validate_succeeds (Some obj) attrs w) as (w1 & attrs1 & -> & Ht).
    destruct (perform_update_saves obj attrs1 w1) as (attrs2 & w2 & -> & Ht2 & _).
    intros H. apply save_failed in H. congruence.
Qed.

Lemma retrieve_failed (who : Identity) (params : Filters.Params) (k : nat)
    (w w' : World) (e : Error) :
  retrieve who params k w = (w', inl e) -> table w' = table w.
Proof.
  destruct (get_object act_retrieve GET who params k w) as [w1 [e1|obj]] eqn:G.
  - rewrite (retrieve_not_found _ _ _ _ _ _ G). intros H; now inversion H.
  - pose proof (get_object_ok _ _ _ _ _ _ _ _ G) as (-> & Hin & Hk & _).
    unfold retrieve, Handler.bind. rewrite check_permissions_safe by discriminate. rewrite G.
    destruct (status_eqb (status obj) published); [|discriminate].
    unfold increment_view_count, refresh_from_db, Handler.bind, get_table, put_table,
      Handler.gets, Handler.modify, Handler.ret, Handler.raise.
    cbn [table clock]. apply has_pk_iff in Hk. rewrite Hk.
    change (fun row : Article => has_pk k row) with (has_pk k).
    rewrite (find_map_keyed (fun row => if has_pk k row
                                        then set_view_count row (view_count row + 1)
                                        else row))
      by (intros r; destruct (has_pk k r); reflexivity).
    destruct (find (has_pk k) (table w)) as [r|] eqn:F; [discriminate|].
    exfalso. eapply find_none in F; eauto. apply has_pk_iff in Hk. congruence.
Qed.

Lemma destroy_failed (who : Identity) (params : Filters.Params) (k : nat)
    (w w' : World) (e : Error) :
  destroy who params k w = (w', inl e) -> table w' = table w.
Proof.
  rewrite destroy_steps.
  destruct (is_authenticated who); [|intros H; now inversion H].
  destruct (get_object act_destroy DELETE who params k w) as [w1 [e1|obj]] eqn:G;
    [|discriminate].
  apply get_object_err in G as [-> _]. intros H; now inversion H.
Qed.

End Refusals.

(** X19. A request that is answered with an error has written nothing:
    after a refused creation, update, retrieval, toggle of the featured
    flag or deletion the table is the one before the request, whatever
    the reason of the refusal. *)
Theorem refused_requests_write_nothing :
  forall (w w' : World) (e : Error),
    (exists who data, Views.create who data w = (w', inl e))
    \/ (exists partial who params k data,
          Views.update partial who params k data w = (w', inl e))
    \/ (exists who params k, Views.retrieve who params k w = (w', inl e))
    \/ (exists who params k, Views.toggle_featured who params k w = (w', inl e))
    \/ (exists who params k, Views.destroy who params k w = (w', inl e)) ->
    table w' = table w.
Proof.
  intros w w' e
    [(who & data & H)
    | [(partial & who & params & k & data & H)
    | [(who & params & k & H)
    | [(who & params & k & H)
    | (who & params & k & H)]]]].
  - eapply create_failed; eauto.
  - eapply update_failed; eauto.
  - eapply retrieve_failed; eauto.
  - apply toggle_failed in H. now rewrite H.
  - eapply destroy_failed; eauto.
Qed.

(** The update of the published article by another user is refused and
    the table stays. *)
Lemma refused_update_test :
  exists w',
    Views.update true (Authenticated Fixtures.otheruser) Filters.no_params 1
      (readable_data (mkAttrs (Some "Hacked Title") None None None None None None)) Fixtures.world
    = (w', inl PermissionDenied)
    /\ table w' = table Fixtures.world.
Proof.
  destruct (Views.update true (Authenticated Fixtures.otheruser) Filters.no_params 1
      (readable_data (mkAttrs (Some "Hacked Title") None None None None None None)) Fixtures.world)
    as [w' [e|saved]] eqn:E; [|vm_compute in E; discriminate].
  assert (e = PermissionDenied) as -> by (vm_compute in E; now inversion E).
  exists w'. split; [reflexivity|].
  apply (refused_requests_write_nothing Fixtures.world w' PermissionDenied).
  right. left. do 5 eexists. exact E.
Defined.

(** ** Saving with [update_fields] *)

(** X20. [Article.save] with an empty [update_fields] stores nothing and
    reads no clock, although the instance it returns has its slug and
    excerpt filled; with [update_fields] that are not empty, an instance
    without a key is refused with a [ValueError] and nothing is stored,
    and an instance whose key has no row is refused with a
    [DatabaseError]. *)
Theorem save_with_update_fields_edges :
  forall (self : Article) (w : World),
    (exists saved,
        save (Some []) self w = (w, inr saved)
        /\ excerpt saved
           = (if truthy (excerpt self) then excerpt self else derive_excerpt (content self))
        /\ (slug self <> "" -> slug saved = slug self)
        /\ title saved = title self /\ content saved = content self)
    /\ (forall f fs, pk self = None ->
          exists w', save (Some (f :: fs)) self w = (w', inl ValueError)
                     /\ table w' = table w)
    /\ (forall f fs k, pk self = Some k -> row k w = None ->
          exists w', save (Some (f :: fs)) self w = (w', inl DatabaseError)
                     /\ table w' = table w).
Proof.
  intros self w.
  destruct (fill_slug_total (table w) self) as [a1 F].
  pose proof (fill_slug_keeps _ _ _ F) as (Epk & Etitle & Econtent & Eexcerpt & _).
  destruct (fill_excerpt_keeps a1) as (Fpk & Fslug & Ftitle & Fcontent & _).
  split; [|split].
  - exists (fill_excerpt a1). split.
    + unfold save, Handler.bind, get_table, Handler.gets. rewrite F. destruct w. reflexivity.
    + rewrite fill_excerpt_excerpt, Fslug, Ftitle, Fcontent, Eexcerpt, Econtent, Etitle.
      split; [reflexivity|]. split; [|split; reflexivity].
      intros Hne. unfold fill_slug in F. destruct (slug self) eqn:S; [now contradiction Hne|].
      simpl in F. inversion F; subst a1. exact S.
  - intros f fs Hpk. eexists. split.
    + unfold save, Handler.bind, get_table, Handler.gets. rewrite F.
      unfold model_save, Handler.bind, get_table, Handler.gets.
      rewrite Fpk, Epk, Hpk. reflexivity.
    + reflexivity.
  - intros f fs k Hpk Hrow.
    assert (Hex : existsb (has_pk k) (table w) = false).
    { destruct (existsb (has_pk k) (table w)) eqn:E; [|reflexivity].
      apply existsb_exists in E as (a & Ha & Hk). unfold row in Hrow.
      eapply find_none in Hrow; [|exact Ha]. congruence. }
    unfold save, Handler.bind, get_table, Handler.gets. rewrite F.
    unfold model_save, Handler.bind, get_table, Handler.gets, timezone_now, Handler.ret,
      Handler.raise.
    rewrite Fpk, Epk, Hpk.
    destruct (existsb (field_eqb f_updated_at) (f :: fs)); cbn [table clock];
      rewrite Hex; (eexists; split; reflexivity).
Qed.

(** A new instance saved with [update_fields=['featured']]. *)
Lemma save_new_with_update_fields_test :
  exists w',
    save (Some [f_featured]) (new_article "Test Article" "Some content." Fixtures.testuser)
      Fixtures.world = (w', inl ValueError)
    /\ table w' = table Fixtures.world.
Proof.
  destruct (save_with_update_fields_edges
              (new_article "Test Article" "Some content." Fixtures.testuser) Fixtures.world)
    as (_ & H & _).
  exact (H f_featured [] eq_refl).
Defined.

(** ** The fields a validation error names *)

Section ErrorFields.

Lemma named_fields (a b c d e f g : bool) :
  let fields :=
    ((if a then ["title"] else []) ++ (if b then ["content"] else [])
     ++ (if c then ["excerpt"] else []) ++ (if d then ["status"] else [])
     ++ (if e then ["featured"] else []) ++ (if f then ["tags"] else [])
     ++ (if g then ["published_at"] else []))%list in
  (In "title" fields <-> a = true) /\ (In "content" fields <-> b = true)
  /\ (In "excerpt" fields <-> c = true) /\ (In "status" fields <-> d = true)
  /\ (In "featured" fields <-> e = true) /\ (In "tags" fields <-> f = true)
  /\ (In "published_at" fields <-> g = true)
  /\ NoDup fields.
Proof.
  destruct a, b, c, d, e, f, g; cbv zeta; simpl;
    repeat split; try tauto; try discriminate;
    try (intros H; repeat (destruct H as [H | H]; [discriminate H|]); contradiction);
    repeat constructor; simpl; intuition discriminate.
Qed.

End ErrorFields.

(** X21. A validation error names each field at fault once, and no
    other: [title] when the title is missing from a request that is not
    partial, unreadable, with a NUL character, longer than 200
    characters, shorter than 5 or taken; [content] when the content is
    missing, unreadable, with a NUL character or shorter than 10;
    [excerpt] and [tags] when the value is unreadable, has a NUL
    character or is too long, [tags] also for more than 10 tags;
    [status] and [featured] when the value is unreadable, and
    [published_at] when it is unreadable and the serializer writes it. *)
Theorem validation_error_names_the_fields_at_fault :
  forall (cls : SerializerClass) (partial : bool) (instance : option Article)
         (rows : list Article) (data : Data) (fields : list string),
    cls <> ArticleListSerializer ->
    to_internal_value cls partial instance rows data = inl fields ->
    (In "title" fields
     <-> (negb partial && missing (d_title data)) || refused (d_title data)
         || with_nul (given (d_title data)) || longer_than 200 (given (d_title data))
         || title_too_short data || title_taken instance rows data = true)
    /\ (In "content" fields
        <-> (negb partial && missing (d_content data)) || refused (d_content data)
            || with_nul (given (d_content data)) || content_too_short data = true)
    /\ (In "excerpt" fields
        <-> refused (d_excerpt data) || with_nul (given (d_excerpt data))
            || longer_than 500 (given (d_excerpt data)) = true)
    /\ (In "status" fields <-> refused (d_status data) = true)
    /\ (In "featured" fields <-> refused (d_featured data) = true)
    /\ (In "tags" fields
        <-> refused (d_tags data) || with_nul (given (d_tags data))
            || longer_than 200 (given (d_tags data)) || too_many_tags data = true)
    /\ (In "published_at" fields
        <-> negb (published_at_read_only cls) && refused (d_published_at data) = true)
    /\ NoDup fields.
Proof.
  intros cls partial instance rows data fields _ H.
  pose proof (to_internal_value_errors cls partial instance rows data) as E.
  cbv zeta in E. rewrite H in E. destruct E as [-> _].
  rewrite title_errors, content_errors, excerpt_errors, !plain_errors, tags_errors,
    published_at_errors.
  apply named_fields.
Qed.

(** A short title and an unknown status in one request: both fields are
    named, the content is not. *)
Lemma two_fields_at_fault_test :
  let data :=
    mkData (Some (readable "Hi")) (Some (readable "A content that is long enough."))
      None (Some unreadable) None None None in
  to_internal_value ArticleCreateSerializer false None [] data = inl ["title"; "status"]
  /\ In "title" ["title"; "status"] /\ ~ In "content" ["title"; "status"].
Proof.
  cbv zeta. split; [reflexivity|].
  destruct (validation_error_names_the_fields_at_fault ArticleCreateSerializer false None []
              (mkData (Some (readable "Hi"))
                 (Some (readable "A content that is long enough."))
                 None (Some unreadable) None None None)
              ["title"; "status"] ltac:(discriminate) eq_refl) as (Ht & Hc & _).
  split; [apply Ht; reflexivity|]. intros Hin. apply Hc in Hin. discriminate Hin.
Defined.
